(** * BPF stack-trace map and tracing helpers

    A shallow embedding of [kernel/bpf/stackmap.c] and
    [kernel/trace/bpf_trace.c], followed by the properties the
    specification states about them.

    Conventions.  C integers are [Z] with the wrap-around of their type
    written out ([u32], [u64], [int32]).  A function that returns either a
    value or a negative error code returns [ret].  A kernel facility the two
    files call but do not define (the call-chain capture, the allocator, the
    attached programs, the fault-tolerant string copy) is an argument of the
    function that calls it: the argument is what that facility answered
    during the call.  Constants and macros that come from headers are the
    fields of [Headers]. *)

From Stdlib Require Import ZArith Lia Bool List Ascii.
From stdpp Require Import base tactics option list.

Local Open Scope Z_scope.

(** ** Machine integers *)

Definition u32 (x : Z) : Z := x mod 2 ^ 32.
Definition u64 (x : Z) : Z := x mod 2 ^ 64.

(** [int]: two's complement on 32 bits. *)
Definition int32 (x : Z) : Z := (x + 2 ^ 31) mod 2 ^ 32 - 2 ^ 31.

(** [long] on an LP64 target: two's complement on 64 bits. *)
Definition long (x : Z) : Z := (x + 2 ^ 63) mod 2 ^ 64 - 2 ^ 63.

(** [~x] on an [u64] operand. *)
Definition lnot64 (x : Z) : Z := u64 (Z.lnot x).

Definition U32_MAX : Z := 2 ^ 32 - 1.

(** ** Error codes *)

(** The codes the two files return (always negated, as [-EINVAL]). *)
Inductive errno : Set :=
  | EPERM | ENOENT | E2BIG | ENOMEM | EFAULT | EEXIST | EINVAL | EOPNOTSUPP.

#[global] Instance errno_eq_dec : EqDecision errno.
Proof. solve_decision. Defined.

(** A C result that is either a value or [-errno]. *)
Inductive ret (A : Type) : Type :=
  | Ok (a : A)
  | Err (e : errno).
Arguments Ok {A} a.
Arguments Err {A} e.

(** The specification names errors by what they mean and presents them as a
    closed enumeration of codes with fixed meanings.  [meaning] reads a code
    of the sources in that vocabulary, after the codes' own names: [EINVAL]
    is "invalid argument", [E2BIG] "too big", [EPERM] "permission denied".
    [EOPNOTSUPP] is returned at one place in the two files, where the
    emitting cpu is not the one of the event: the "wrong context" of the
    specification.  No code of the two files is left to mean "unsupported". *)
Inductive spec_error : Set :=
  | InvalidArgument | PermissionDenied | NotFound | AlreadyExists | TooBig
  | OutOfMemory | Unsupported | Fault | WrongContext.

Definition meaning (e : errno) : spec_error :=
  match e with
  | EINVAL => InvalidArgument
  | EPERM => PermissionDenied
  | ENOENT => NotFound
  | EEXIST => AlreadyExists
  | E2BIG => TooBig
  | ENOMEM => OutOfMemory
  | EFAULT => Fault
  | EOPNOTSUPP => WrongContext
  end.

(** A result is a failure with the code of a given meaning. *)
Definition fails_with {A : Type} (r : ret A) (s : spec_error) : Prop :=
  exists e, r = Err e /\ meaning e = s.

(** ** What the headers provide *)

Class Headers : Type := {
  (** linux/perf_event.h *)
  PERF_MAX_STACK_DEPTH : Z;
  PERF_TYPE_SOFTWARE : Z;
  PERF_COUNT_SW_BPF_OUTPUT : Z;
  (** uapi/linux/bpf.h: the flags of [bpf_get_stackid] *)
  BPF_F_SKIP_FIELD_MASK : Z;
  BPF_F_USER_STACK : Z;
  BPF_F_FAST_STACK_CMP : Z;
  BPF_F_REUSE_STACKID : Z;
  (** linux/jhash.h: [jhash2 k length initval] over [u32] words *)
  jhash2 : list Z -> Z -> Z -> Z;
  (** asm/page.h and the sizes of the structures of stackmap.c *)
  PAGE_SIZE : Z;
  sizeof_bucket_ptr : Z;
  sizeof_bpf_stack_map : Z;
  sizeof_stack_map_bucket : Z;
  (** linux/ctype.h, on characters as [unsigned char] values *)
  isprint : Z -> bool;
  isspace : Z -> bool;
  ispunct : Z -> bool;
  isascii : Z -> bool;
}.

(** Modelled from the spec: [roundup_pow_of_two] (linux/log2.h) is not part
    of the sources; the specification says the capacity request is "rounded
    up to the next power of two". *)
Definition roundup_pow_of_two (n : Z) : Z := 2 ^ Z.log2_up n.

(** ** kernel/bpf/stackmap.c *)

Module StackMap.

Record stack_map_bucket : Type := {
  hash : Z;          (* u32 *)
  nr : Z;            (* u32 *)
  ip : list Z;       (* u64 ip[]: value_size / 8 words *)
}.

#[global] Instance stack_map_bucket_eq_dec : EqDecision stack_map_bucket.
Proof. solve_decision. Defined.

(** The fields of [struct bpf_map] that stackmap.c reads back. *)
Record bpf_map : Type := {
  map_type : Z;
  key_size : Z;
  value_size : Z;
  max_entries : Z;
}.

Record bpf_stack_map : Type := {
  map : bpf_map;
  n_buckets : Z;                               (* u32 *)
  buckets : list (option stack_map_bucket);    (* NULL is None *)
}.

(** The attributes of [union bpf_attr] that map creation reads, all [u32]. *)
Record bpf_attr : Type := {
  attr_map_type : Z;
  attr_key_size : Z;
  attr_value_size : Z;
  attr_max_entries : Z;
}.

(** [struct perf_callchain_entry]: [nr] and the array [ip]. *)
Record perf_callchain_entry : Type := {
  entry_nr : Z;
  entry_ip : list Z;
}.

(** What a call did besides computing its result, in program order. *)
Inductive effect : Type :=
  | GetPerfCallchain (init_nr : Z) (kernel user : bool)
  | Kmalloc (size : Z)
  | Xchg (id : Z) (new_bucket : option stack_map_bucket)
  | KfreeRcu (old_bucket : stack_map_bucket).

(** [rcu_dereference(smap->buckets[id])] *)
Definition bucket_at (smap : bpf_stack_map) (id : Z) : option stack_map_bucket :=
  match buckets smap !! Z.to_nat id with
  | Some b => b
  | None => None
  end.

(** [xchg(&smap->buckets[id], b)]: the new map; the old pointer is
    [bucket_at smap id]. *)
Definition xchg_bucket (smap : bpf_stack_map) (id : Z)
    (b : option stack_map_bucket) : bpf_stack_map :=
  {| map := map smap;
     n_buckets := n_buckets smap;
     buckets := <[Z.to_nat id := b]> (buckets smap) |}.

(** An array of [u64] read as [u32] words (little-endian, as on arm64). *)
Definition u32_words (ips : list Z) : list Z :=
  flat_map (fun x => [u32 x; u32 (x / 2 ^ 32)]) ips.

(** The first [len] bytes at a [u64] pointer, [len] a multiple of 8. *)
Definition read_bytes (len : Z) (p : list Z) : list Z :=
  take (Z.to_nat (len / 8)) p.

Section WithHeaders.
Context `{Headers}.

(** Called from syscall.  [capable] is [capable(CAP_SYS_ADMIN)],
    [kzalloc_ok] and [vzalloc_ok] say whether the two allocators returned
    memory, [get_callchain_buffers] is that call's error, if any.  The page
    accounting in [map.pages] is left out. *)
Definition stack_map_alloc (capable kzalloc_ok vzalloc_ok : bool)
    (get_callchain_buffers : option errno) (attr : bpf_attr)
    : ret bpf_stack_map :=
  let value_size := attr_value_size attr in
  if negb capable then Err EPERM
  else if (attr_max_entries attr =? 0) || negb (attr_key_size attr =? 4)
          || (value_size <? 8) || negb (value_size mod 8 =? 0)
          || (PERF_MAX_STACK_DEPTH <? value_size / 8)
  then Err EINVAL
  else
    let n_buckets := u64 (roundup_pow_of_two (attr_max_entries attr)) in
    let cost := u64 (n_buckets * sizeof_bucket_ptr + sizeof_bpf_stack_map) in
    if u64 (U32_MAX - PAGE_SIZE) <=? cost then Err E2BIG
    else if negb kzalloc_ok && negb vzalloc_ok then Err ENOMEM
    else
      let cost :=
        u64 (cost + u64 (n_buckets * (value_size + sizeof_stack_map_bucket))) in
      if u64 (U32_MAX - PAGE_SIZE) <=? cost then Err E2BIG
      else
        let smap :=
          {| map := {| map_type := attr_map_type attr;
                       key_size := attr_key_size attr;
                       value_size := value_size;
                       max_entries := attr_max_entries attr |};
             n_buckets := u32 n_buckets;
             buckets := replicate (Z.to_nat n_buckets) None |} in
        match get_callchain_buffers with
        | Some err => Err err
        | None => Ok smap
        end.

(** The parts of [stack_map_alloc], by themselves: the sanity check of the
    attributes (line 39), the two costs and the bound they are compared
    with. *)
Definition attr_rejected (attr : bpf_attr) : bool :=
  (attr_max_entries attr =? 0) || negb (attr_key_size attr =? 4)
  || (attr_value_size attr <? 8) || negb (attr_value_size attr mod 8 =? 0)
  || (PERF_MAX_STACK_DEPTH <? attr_value_size attr / 8).

Definition table_cost (attr : bpf_attr) : Z :=
  u64 (u64 (roundup_pow_of_two (attr_max_entries attr)) * sizeof_bucket_ptr
       + sizeof_bpf_stack_map).

Definition total_cost (attr : bpf_attr) : Z :=
  u64 (table_cost attr
       + u64 (u64 (roundup_pow_of_two (attr_max_entries attr))
              * (attr_value_size attr + sizeof_stack_map_bucket))).

Definition cost_limit : Z := u64 (U32_MAX - PAGE_SIZE).

(** The result of [bpf_get_stackid]: the returned value, the map after the
    call and what the call did. *)
Record stackid_result : Type := {
  returned : ret Z;
  smap_after : bpf_stack_map;
  effects : list effect;
}.

(** [get_perf_callchain init_nr kernel user] is the entry the capture
    returns ([None] is NULL); [kmalloc_ok] says whether [kmalloc] returns
    memory. *)
Definition bpf_get_stackid
    (get_perf_callchain : Z -> bool -> bool -> option perf_callchain_entry)
    (kmalloc_ok : bool) (smap : bpf_stack_map) (flags : Z) : stackid_result :=
  let max_depth := u32 (value_size (map smap) / 8) in
  let init_nr := u32 (PERF_MAX_STACK_DEPTH - max_depth) in
  let skip := u32 (Z.land flags BPF_F_SKIP_FIELD_MASK) in
  let user := negb (Z.land flags BPF_F_USER_STACK =? 0) in
  let kernel := negb user in
  if negb (Z.land flags
             (lnot64 (Z.lor (Z.lor (Z.lor BPF_F_SKIP_FIELD_MASK BPF_F_USER_STACK)
                                   BPF_F_FAST_STACK_CMP) BPF_F_REUSE_STACKID))
           =? 0)
  then {| returned := Err EINVAL; smap_after := smap; effects := [] |}
  else
    let capture := GetPerfCallchain init_nr kernel user in
    match get_perf_callchain init_nr kernel user with
    | None =>
        (* couldn't fetch the stack trace *)
        {| returned := Err EFAULT; smap_after := smap; effects := [capture] |}
    | Some trace =>
        let trace_nr := u32 (entry_nr trace - init_nr) in
        if trace_nr <=? skip
        then (* skipping more than usable stack trace *)
          {| returned := Err EFAULT; smap_after := smap; effects := [capture] |}
        else
          let trace_nr := u32 (trace_nr - skip) in
          let trace_len := u32 (trace_nr * 8) in
          let ips := drop (Z.to_nat (skip + init_nr)) (entry_ip trace) in
          let hash := u32 (jhash2 (u32_words (read_bytes trace_len ips))
                                  (trace_len / 4) 0) in
          let id := Z.land hash (u32 (n_buckets smap - 1)) in
          let bucket := bucket_at smap id in
          let found :=
            match bucket with
            | Some b =>
                (StackMap.hash b =? hash)
                && (negb (Z.land flags BPF_F_FAST_STACK_CMP =? 0)
                    || ((nr b =? trace_nr)
                        && bool_decide (read_bytes trace_len (ip b)
                                        = read_bytes trace_len ips)))
            | None => false
            end in
          if found
          then {| returned := Ok id; smap_after := smap; effects := [capture] |}
          else if match bucket with
                  | Some _ => Z.land flags BPF_F_REUSE_STACKID =? 0
                  | None => false
                  end
          then {| returned := Err EEXIST; smap_after := smap;
                  effects := [capture] |}
          else
            let size := sizeof_stack_map_bucket + value_size (map smap) in
            if negb kmalloc_ok
            then {| returned := Err ENOMEM; smap_after := smap;
                    effects := [capture; Kmalloc size] |}
            else
              let new_bucket :=
                {| hash := hash;
                   nr := trace_nr;
                   ip := read_bytes trace_len ips
                         ++ replicate
                              (Z.to_nat (u32 (value_size (map smap) - trace_len) / 8))
                              0 |} in
              {| returned := Ok id;
                 smap_after := xchg_bucket smap id (Some new_bucket);
                 effects :=
                   [capture; Kmalloc size; Xchg id (Some new_bucket)]
                   ++ match bucket with
                      | Some old_bucket => [KfreeRcu old_bucket]
                      | None => []
                      end |}
    end.

(** The quantities [bpf_get_stackid] computes on its way, by the names of
    its local variables. *)
Definition known_flags : Z :=
  Z.lor (Z.lor (Z.lor BPF_F_SKIP_FIELD_MASK BPF_F_USER_STACK)
               BPF_F_FAST_STACK_CMP) BPF_F_REUSE_STACKID.

Definition max_depth (smap : bpf_stack_map) : Z :=
  u32 (value_size (map smap) / 8).

Definition init_nr (smap : bpf_stack_map) : Z :=
  u32 (PERF_MAX_STACK_DEPTH - max_depth smap).

Definition skip (flags : Z) : Z := u32 (Z.land flags BPF_F_SKIP_FIELD_MASK).

Definition user (flags : Z) : bool := negb (Z.land flags BPF_F_USER_STACK =? 0).

Definition capture_call (smap : bpf_stack_map) (flags : Z) : effect :=
  GetPerfCallchain (init_nr smap) (negb (user flags)) (user flags).

Definition trace_nr (smap : bpf_stack_map) (flags : Z)
    (trace : perf_callchain_entry) : Z :=
  u32 (u32 (entry_nr trace - init_nr smap) - skip flags).

Definition trace_len (smap : bpf_stack_map) (flags : Z)
    (trace : perf_callchain_entry) : Z :=
  u32 (trace_nr smap flags trace * 8).

(** The frames the call keeps: [trace_len] bytes at [ips]. *)
Definition frames (smap : bpf_stack_map) (flags : Z)
    (trace : perf_callchain_entry) : list Z :=
  read_bytes (trace_len smap flags trace)
    (drop (Z.to_nat (skip flags + init_nr smap)) (entry_ip trace)).

Definition trace_hash (smap : bpf_stack_map) (flags : Z)
    (trace : perf_callchain_entry) : Z :=
  u32 (jhash2 (u32_words (frames smap flags trace))
         (trace_len smap flags trace / 4) 0).

Definition trace_id (smap : bpf_stack_map) (flags : Z)
    (trace : perf_callchain_entry) : Z :=
  Z.land (trace_hash smap flags trace) (u32 (n_buckets smap - 1)).

(** The entry the call builds: the frames, then zeros up to [value_size]. *)
Definition new_entry (smap : bpf_stack_map) (flags : Z)
    (trace : perf_callchain_entry) : stack_map_bucket :=
  {| hash := trace_hash smap flags trace;
     nr := trace_nr smap flags trace;
     ip := frames smap flags trace
           ++ replicate
                (Z.to_nat (u32 (value_size (map smap)
                                - trace_len smap flags trace) / 8))
                0 |}.

(** The test of lines 123 to 129: the bucket holds this trace. *)
Definition same_trace (smap : bpf_stack_map) (flags : Z)
    (trace : perf_callchain_entry) (b : stack_map_bucket) : bool :=
  (hash b =? trace_hash smap flags trace)
  && (negb (Z.land flags BPF_F_FAST_STACK_CMP =? 0)
      || ((nr b =? trace_nr smap flags trace)
          && bool_decide (read_bytes (trace_len smap flags trace) (ip b)
                          = frames smap flags trace))).

(** Lines 135 to 148: the call stack is not in the map, try to add it. *)
Definition store_new (kmalloc_ok : bool) (smap : bpf_stack_map) (flags : Z)
    (trace : perf_callchain_entry) : stackid_result :=
  let id := trace_id smap flags trace in
  let size := sizeof_stack_map_bucket + value_size (map smap) in
  let new_bucket := new_entry smap flags trace in
  if negb kmalloc_ok
  then {| returned := Err ENOMEM; smap_after := smap;
          effects := [capture_call smap flags; Kmalloc size] |}
  else {| returned := Ok id;
          smap_after := xchg_bucket smap id (Some new_bucket);
          effects :=
            [capture_call smap flags; Kmalloc size; Xchg id (Some new_bucket)]
            ++ match bucket_at smap id with
               | Some old_bucket => [KfreeRcu old_bucket]
               | None => []
               end |}.

End WithHeaders.

(** Called from syscall or from eBPF program.  [key] is the [u32] the key
    pointer designates; the result is [bucket->ip] or NULL. *)
Definition stack_map_lookup_elem (smap : bpf_stack_map) (key : Z)
    : option (list Z) :=
  let id := u32 key in
  if n_buckets smap <=? id then None
  else match bucket_at smap id with
       | Some bucket => Some (ip bucket)
       | None => None
       end.

Definition stack_map_get_next_key (smap : bpf_stack_map) (key next_key : Z)
    : ret unit :=
  Err EINVAL.

Definition stack_map_update_elem (smap : bpf_stack_map) (key : Z)
    (value : list Z) (map_flags : Z) : ret unit :=
  Err EINVAL.

(** Called from syscall or from eBPF program: the result, the map after the
    call and the bucket handed to [kfree_rcu]. *)
Definition stack_map_delete_elem (smap : bpf_stack_map) (key : Z)
    : ret unit * bpf_stack_map * list effect :=
  let id := u32 key in
  if n_buckets smap <=? id then (Err E2BIG, smap, [])
  else
    match bucket_at smap id with
    | Some old_bucket =>
        (Ok tt, xchg_bucket smap id None, [Xchg id None; KfreeRcu old_bucket])
    | None => (Err ENOENT, xchg_bucket smap id None, [Xchg id None])
    end.

(** The three outcomes the specification gives to a lookup. *)
Inductive lookup_outcome : Type :=
  | Frames (ip : list Z)
  | LookupNotFound
  | LookupOutOfRange.

(** A map as creation leaves it and the operations keep it: the bucket
    array has [n_buckets] slots, a power-of-two many, and the value size
    passed the checks of [stack_map_alloc]. *)
Record smap_wf `{Headers} (smap : bpf_stack_map) : Prop := {
  wf_n_buckets : 1 <= n_buckets smap < 2 ^ 32;
  wf_buckets : Z.of_nat (length (buckets smap)) = n_buckets smap;
  wf_value_size : 8 <= value_size (map smap) < 2 ^ 32;
  wf_value_mult : value_size (map smap) mod 8 = 0;
  wf_max_depth : value_size (map smap) / 8 <= PERF_MAX_STACK_DEPTH;
  wf_perf_max : PERF_MAX_STACK_DEPTH < 2 ^ 32;
}.

(** What the comment in [bpf_get_stackid] says [get_perf_callchain]
    guarantees of the entry it returns: [init_nr <= nr] and
    [nr <= PERF_MAX_STACK_DEPTH], the size of the array [ip]. *)
Record entry_wf `{Headers} (init_nr : Z) (trace : perf_callchain_entry) : Prop := {
  wf_nr_lower : init_nr <= entry_nr trace;
  wf_nr_upper : entry_nr trace <= PERF_MAX_STACK_DEPTH;
  wf_ip_length : Z.of_nat (length (entry_ip trace)) = PERF_MAX_STACK_DEPTH;
}.

(** An entry as [bpf_get_stackid] builds it for this map: [value_size / 8]
    words, of which those from [nr] on are zero.  A map whose entries all
    are so has only padded buffers to return. *)
Definition entry_padded (smap : bpf_stack_map) (b : stack_map_bucket) : Prop :=
  Z.of_nat (length (ip b)) = value_size (map smap) / 8
  /\ 0 <= nr b <= value_size (map smap) / 8
  /\ drop (Z.to_nat (nr b)) (ip b)
     = replicate (Z.to_nat (value_size (map smap) / 8 - nr b)) 0.

Definition entries_padded (smap : bpf_stack_map) : Prop :=
  forall id b, bucket_at smap id = Some b -> entry_padded smap b.

(** The attributes are [u32] fields. *)
Record attr_wf (attr : bpf_attr) : Prop := {
  wf_attr_key_size : 0 <= attr_key_size attr < 2 ^ 32;
  wf_attr_value_size : 0 <= attr_value_size attr < 2 ^ 32;
  wf_attr_max_entries : 0 <= attr_max_entries attr < 2 ^ 32;
}.

(** What the specification asks of the attributes. *)
Record attr_valid `{Headers} (attr : bpf_attr) : Prop := {
  valid_max_entries : 0 < attr_max_entries attr;
  valid_key_size : attr_key_size attr = 4;
  valid_value_size : 8 <= attr_value_size attr;
  valid_value_mult : attr_value_size attr mod 8 = 0;
  valid_depth : attr_value_size attr / 8 <= PERF_MAX_STACK_DEPTH;
}.

(** The sizes the headers give are sizes of C objects, and a page fits the
    32-bit bound it is subtracted from. *)
Record headers_sane `{Headers} : Prop := {
  sane_bucket_ptr : 1 <= sizeof_bucket_ptr < 2 ^ 31;
  sane_stack_map : 0 <= sizeof_bpf_stack_map < 2 ^ 31;
  sane_bucket : 0 <= sizeof_stack_map_bucket < 2 ^ 31;
  sane_page : 0 <= PAGE_SIZE <= U32_MAX;
  sane_perf_max : 0 <= PERF_MAX_STACK_DEPTH < 2 ^ 32;
}.

End StackMap.

(** ** kernel/trace/bpf_trace.c *)

Module BpfTrace.

(** *** The dispatcher *)

(** The state of one cpu that [trace_call_bpf] touches: the per-cpu [int]
    [bpf_prog_active] and the preemption count. *)
Record cpu_state : Type := {
  bpf_prog_active : Z;
  preempt_count : Z;
}.

Definition preempt_disable (cpu : cpu_state) : cpu_state :=
  {| bpf_prog_active := bpf_prog_active cpu;
     preempt_count := preempt_count cpu + 1 |}.

Definition preempt_enable (cpu : cpu_state) : cpu_state :=
  {| bpf_prog_active := bpf_prog_active cpu;
     preempt_count := preempt_count cpu - 1 |}.

Definition set_bpf_prog_active (cpu : cpu_state) (v : Z) : cpu_state :=
  {| bpf_prog_active := v; preempt_count := preempt_count cpu |}.

Section Dispatcher.
Context {bpf_prog_array bpf_prog context : Type}.

Record call_result : Type := {
  ret_value : Z;                    (* unsigned int *)
  cpu_after : cpu_state;
  programs_run : list bpf_prog;
}.

(** [BPF_PROG_RUN_ARRAY_CHECK] (a macro of linux/bpf.h) is an argument: for
    a program array and a context it gives the combined value and the
    programs it ran.  The programs have no access to the static per-cpu
    variable; a firing nested in them goes through [trace_call_bpf]. *)
Definition trace_call_bpf
    (BPF_PROG_RUN_ARRAY_CHECK : bpf_prog_array -> context -> Z * list bpf_prog)
    (in_nmi : bool) (prog_array : bpf_prog_array) (ctx : context)
    (cpu : cpu_state) : call_result :=
  if in_nmi
  then (* not supported yet *)
    {| ret_value := 1; cpu_after := cpu; programs_run := [] |}
  else
    let cpu := preempt_disable cpu in
    (* __this_cpu_inc_return(bpf_prog_active) *)
    let active := int32 (bpf_prog_active cpu + 1) in
    let cpu := set_bpf_prog_active cpu active in
    let '(ret, run) :=
      if negb (active =? 1)
      then (0, [])
      else BPF_PROG_RUN_ARRAY_CHECK prog_array ctx in
    (* out: *)
    let cpu := set_bpf_prog_active cpu (int32 (bpf_prog_active cpu - 1)) in
    let cpu := preempt_enable cpu in
    {| ret_value := ret; cpu_after := cpu; programs_run := run |}.

End Dispatcher.

(** How the kprobe handler reads the value, from the comment above
    [trace_call_bpf]: 0 is "return from kprobe (event is filtered out)",
    1 is "store kprobe event into ring buffer", other values alias to 1. *)
Inductive kprobe_action : Set :=
  | FilteredOut
  | StoreEvent.

Definition kprobe_handler_action (ret : Z) : kprobe_action :=
  if ret =? 0 then FilteredOut else StoreEvent.

(** *** bpf_perf_event_output *)

Record perf_event : Type := {
  attr_type : Z;
  attr_config : Z;
  oncpu : Z;
}.

Record file : Type := {
  private_data : perf_event;
}.

Record bpf_array : Type := {
  array_max_entries : Z;
  ptrs : list (option file);
}.

Record perf_raw_record : Type := {
  raw_size : Z;
  raw_data : Z;
}.

(** A call of [perf_event_output(event, &sample_data, regs)], with the raw
    record the sample data points to. *)
Record perf_event_output_call : Type := {
  out_event : perf_event;
  out_raw : perf_raw_record;
  out_regs : Z;
}.

(** [array->ptrs[index]], NULL being [None]. *)
Definition slot (array : bpf_array) (index : Z) : option file :=
  match ptrs array !! Z.to_nat index with
  | Some (Some file) => Some file
  | _ => None
  end.

Section WithHeaders.
Context `{Headers}.

(** [smp_processor_id] is the cpu the helper runs on.  The result comes with
    the calls made to [perf_event_output]. *)
Definition bpf_perf_event_output (smp_processor_id : Z)
    (r1 : Z) (array : bpf_array) (index r4 size : Z)
    : ret Z * list perf_event_output_call :=
  let regs := r1 in
  let data := r4 in
  let raw := {| raw_size := size; raw_data := data |} in
  if array_max_entries array <=? index then (Err E2BIG, [])
  else
    match ptrs array !! Z.to_nat index with
    | Some (Some file) =>
        let event := private_data file in
        if negb (attr_type event =? PERF_TYPE_SOFTWARE)
           || negb (attr_config event =? PERF_COUNT_SW_BPF_OUTPUT)
        then (Err EINVAL, [])
        else if negb (oncpu event =? smp_processor_id)
        then (Err EOPNOTSUPP, [])
        else (Ok 0, [{| out_event := event; out_raw := raw; out_regs := regs |}])
    | _ => (Err ENOENT, [])
    end.

(** The kind of event that accepts raw payloads from BPF. *)
Definition is_bpf_output (event : perf_event) : Prop :=
  attr_type event = PERF_TYPE_SOFTWARE
  /\ attr_config event = PERF_COUNT_SW_BPF_OUTPUT.

(** *** bpf_trace_printk *)

(** Characters as [unsigned char] values. *)
Definition chr (c : Ascii.ascii) : Z := Z.of_N (Ascii.N_of_ascii c).

(** [fmt[i]] *)
Definition char_at (fmt : list Z) (i : Z) : Z :=
  match fmt !! Z.to_nat i with
  | Some c => c
  | None => 0
  end.

(** The bytes of a buffer up to its first NUL: the C string it holds. *)
Fixpoint cstring (buf : list Z) : list Z :=
  match buf with
  | [] => []
  | c :: rest => if c =? 0 then [] else c :: cstring rest
  end.

(** Modelled from the spec: [strncpy_from_unsafe] (mm/maccess.c) is not part
    of the sources.  The specification describes a fault-tolerant,
    NUL-terminated copy bounded by the size of the destination, which either
    copies or reports a fault.  [unsafe_read addr] is the string readable at
    [addr], or [None] when the address is not readable; on a fault the
    destination is left as it was. *)
Definition strncpy_from_unsafe (unsafe_read : Z -> option (list Z))
    (dst : list Z) (unsafe_addr count : Z) : list Z :=
  match unsafe_read unsafe_addr with
  | None => dst
  | Some s =>
      let copied := take (Z.to_nat (count - 1)) (cstring s) in
      copied ++ [0] ++ drop (S (length copied)) dst
  end.

(** The local variables of [bpf_trace_printk] inside its loop, and the
    calls made to [strncpy_from_unsafe] as (address, count). *)
Record printk_state : Type := {
  st_i : Z;
  st_fmt_cnt : Z;
  st_mod : list Z;
  st_str_seen : bool;
  st_r3 : Z;
  st_r4 : Z;
  st_r5 : Z;
  st_buf : list Z;
  st_probes : list (Z * Z);
}.

Definition set_i (st : printk_state) (i : Z) : printk_state :=
  {| st_i := i; st_fmt_cnt := st_fmt_cnt st; st_mod := st_mod st;
     st_str_seen := st_str_seen st; st_r3 := st_r3 st; st_r4 := st_r4 st;
     st_r5 := st_r5 st; st_buf := st_buf st; st_probes := st_probes st |}.

Definition set_fmt_cnt (st : printk_state) (n : Z) : printk_state :=
  {| st_i := st_i st; st_fmt_cnt := n; st_mod := st_mod st;
     st_str_seen := st_str_seen st; st_r3 := st_r3 st; st_r4 := st_r4 st;
     st_r5 := st_r5 st; st_buf := st_buf st; st_probes := st_probes st |}.

(** [mod[fmt_cnt]++] *)
Definition incr_mod (st : printk_state) : printk_state :=
  {| st_i := st_i st; st_fmt_cnt := st_fmt_cnt st;
     st_mod := alter Z.succ (Z.to_nat (st_fmt_cnt st)) (st_mod st);
     st_str_seen := st_str_seen st; st_r3 := st_r3 st; st_r4 := st_r4 st;
     st_r5 := st_r5 st; st_buf := st_buf st; st_probes := st_probes st |}.

(** The body of [if (fmt[i] == 's')] once [str_seen] is known false:
    [buf_addr] is the address of the local [buf], 64 its size. *)
Definition substitute_string (unsafe_read : Z -> option (list Z))
    (buf_addr : Z) (st : printk_state) : printk_state :=
  let buf_ptr := u64 (long buf_addr) in
  let unsafe_addr :=
    if st_fmt_cnt st =? 1 then st_r3 st
    else if st_fmt_cnt st =? 2 then st_r4 st
    else st_r5 st in
  let buf := <[0%nat := 0]> (st_buf st) in
  {| st_i := st_i st; st_fmt_cnt := st_fmt_cnt st; st_mod := st_mod st;
     st_str_seen := true;
     st_r3 := if st_fmt_cnt st =? 1 then buf_ptr else st_r3 st;
     st_r4 := if st_fmt_cnt st =? 2 then buf_ptr else st_r4 st;
     st_r5 := if st_fmt_cnt st =? 3 then buf_ptr else st_r5 st;
     st_buf := strncpy_from_unsafe unsafe_read buf unsafe_addr 64;
     st_probes := st_probes st ++ [(unsafe_addr, 64)] |}.

(** From [if (fmt[i] == 'l')] (the second one) to the end of the body. *)
Definition integer_conversion (fmt : list Z) (st : printk_state)
    : ret printk_state :=
  let st :=
    if char_at fmt (st_i st) =? chr "l"
    then set_i (incr_mod st) (st_i st + 1)
    else st in
  let c := char_at fmt (st_i st) in
  if negb (c =? chr "d") && negb (c =? chr "u") && negb (c =? chr "x")
  then Err EINVAL
  else Ok (set_fmt_cnt st (st_fmt_cnt st + 1)).

(** One iteration of the [for] loop, before its [i++]. *)
Definition printk_body (unsafe_read : Z -> option (list Z)) (buf_addr : Z)
    (fmt : list Z) (st : printk_state) : ret printk_state :=
  let c := char_at fmt (st_i st) in
  if (negb (isprint c) && negb (isspace c)) || negb (isascii c)
  then Err EINVAL
  else if negb (c =? chr "%") then Ok st
  else if 3 <=? st_fmt_cnt st then Err EINVAL
  else
    (* fmt[i] != 0 && fmt[last] == 0, so we can access fmt[i + 1] *)
    let st := set_i st (st_i st + 1) in
    let c := char_at fmt (st_i st) in
    if c =? chr "l"
    then integer_conversion fmt (set_i (incr_mod st) (st_i st + 1))
    else if (c =? chr "p") || (c =? chr "s")
    then
      let st := incr_mod st in
      (* disallow any further format extensions *)
      let next := char_at fmt (st_i st + 1) in
      if negb (next =? 0) && negb (isspace next) && negb (ispunct next)
      then Err EINVAL
      else
        let st := set_fmt_cnt st (st_fmt_cnt st + 1) in
        if c =? chr "s"
        then
          if st_str_seen st
          then (* allow only one '%s' per fmt string *) Err EINVAL
          else Ok (substitute_string unsafe_read buf_addr st)
        else Ok st
    else integer_conversion fmt st.

(** The [for] loop: [fuel] bounds the iterations left; every iteration
    advances [i], so [fmt_size - i] iterations are all there can be
    ([printk_loop_fuel]). *)
Fixpoint printk_loop (unsafe_read : Z -> option (list Z)) (buf_addr : Z)
    (fmt : list Z) (fmt_size : Z) (fuel : nat) (st : printk_state)
    : ret printk_state :=
  match fuel with
  | O => Ok st
  | S fuel =>
      if st_i st <? fmt_size
      then
        match printk_body unsafe_read buf_addr fmt st with
        | Err e => Err e
        | Ok st => printk_loop unsafe_read buf_addr fmt fmt_size fuel
                     (set_i st (st_i st + 1))
        end
      else Ok st
  end.

(** The tail call [__trace_printk(1, fmt, a1, a2, a3)], with the content of
    [buf] at that moment. *)
Record trace_printk_call : Type := {
  tp_ip : Z;
  tp_fmt : list Z;
  tp_arg1 : Z;
  tp_arg2 : Z;
  tp_arg3 : Z;
  tp_buf : list Z;
  tp_probes : list (Z * Z);
}.

(** [mod == 2 ? r : mod == 1 ? (long) r : (u32) r], of type [u64]. *)
Definition printk_arg (m r : Z) : Z :=
  if m =? 2 then r else if m =? 1 then u64 (long r) else u64 (u32 r).

(** limited trace_printk(): the result is [-errno] or the call of
    [__trace_printk] whose value is returned.  [buf0] is what the
    uninitialised [buf] holds on entry. *)
Definition bpf_trace_printk (unsafe_read : Z -> option (list Z))
    (buf_addr : Z) (buf0 : list Z)
    (fmt : list Z) (fmt_size r3 r4 r5 : Z) : ret trace_printk_call :=
  let fmt_size := u64 (fmt_size - 1) in
  if negb (char_at fmt fmt_size =? 0) then Err EINVAL
  else
    let st0 :=
      {| st_i := 0; st_fmt_cnt := 0; st_mod := [0; 0; 0];
         st_str_seen := false; st_r3 := r3; st_r4 := r4; st_r5 := r5;
         st_buf := buf0; st_probes := [] |} in
    match printk_loop unsafe_read buf_addr fmt fmt_size
            (Z.to_nat fmt_size) st0 with
    | Err e => Err e
    | Ok st =>
        Ok {| tp_ip := 1;
              tp_fmt := fmt;
              tp_arg1 := printk_arg (char_at (st_mod st) 0) (st_r3 st);
              tp_arg2 := printk_arg (char_at (st_mod st) 1) (st_r4 st);
              tp_arg3 := printk_arg (char_at (st_mod st) 2) (st_r5 st);
              tp_buf := st_buf st;
              tp_probes := st_probes st |}
    end.

(** A format is valid when the helper accepts it; which arguments, buffer
    and memory it runs with plays no part ([acceptance_independent]). *)
Definition accepted (fmt : list Z) (fmt_size : Z) : Prop :=
  exists unsafe_read buf_addr buf0 r3 r4 r5 call,
    bpf_trace_printk unsafe_read buf_addr buf0 fmt fmt_size r3 r4 r5 = Ok call.

(** The number of ['%'] among the first [i] characters: the index, from 0,
    of the argument that a conversion starting at [i] consumes. *)
Definition percent_before (fmt : list Z) (i : Z) : Z :=
  Z.of_nat (count_occ Z.eq_dec (take (Z.to_nat i) fmt) (chr "%")).

(** Argument [k] of three, from 0. *)
Definition arg_at {A : Type} (k : Z) (a0 a1 a2 : A) : A :=
  if k =? 0 then a0 else if k =? 1 then a1 else a2.

(** The variables that only a [%s] conversion writes are the same in two
    states. *)
Definition same_data (st st' : printk_state) : Prop :=
  st_str_seen st' = st_str_seen st
  /\ st_r3 st' = st_r3 st /\ st_r4 st' = st_r4 st /\ st_r5 st' = st_r5 st
  /\ st_buf st' = st_buf st /\ st_probes st' = st_probes st.

(** What the [%s] conversion that consumes argument [k] makes of them:
    the argument was passed to [strncpy_from_unsafe] with the 64 bytes of
    [buf], whose first byte had been cleared, and now points to [buf]. *)
Record string_substituted (unsafe_read : Z -> option (list Z)) (buf_addr k : Z)
    (st st' : printk_state) : Prop := {
  sub_seen : st_str_seen st' = true;
  sub_r3 : st_r3 st' = if k =? 0 then u64 (long buf_addr) else st_r3 st;
  sub_r4 : st_r4 st' = if k =? 1 then u64 (long buf_addr) else st_r4 st;
  sub_r5 : st_r5 st' = if k =? 2 then u64 (long buf_addr) else st_r5 st;
  sub_buf :
    st_buf st'
    = strncpy_from_unsafe unsafe_read (<[0%nat := 0]> (st_buf st))
        (arg_at k (st_r3 st) (st_r4 st) (st_r5 st)) 64;
  sub_probes :
    st_probes st'
    = st_probes st ++ [(arg_at k (st_r3 st) (st_r4 st) (st_r5 st), 64)];
}.

(** The invariant of the loop at the top of an iteration, for a format that
    has ["%s"] at position [j]; [st0] is the state on entry of the loop. *)
Record printk_inv (unsafe_read : Z -> option (list Z)) (buf_addr : Z)
    (fmt : list Z) (j : Z) (st0 st : printk_state) : Prop := {
  inv_i : 0 <= st_i st;
  inv_cnt : st_fmt_cnt st = percent_before fmt (st_i st);
  inv_cnt3 : st_fmt_cnt st <= 3;
  inv_mod_len : length (st_mod st) = 3%nat;
  inv_mod_zero : forall m, st_fmt_cnt st <= m -> char_at (st_mod st) m = 0;
  inv_before : st_i st <= j -> st_str_seen st = false -> same_data st0 st;
  inv_after :
    j < st_i st ->
    j + 2 <= st_i st
    /\ percent_before fmt j < st_fmt_cnt st
    /\ char_at (st_mod st) (percent_before fmt j) = 1
    /\ string_substituted unsafe_read buf_addr (percent_before fmt j) st0 st;
}.

(** The control of the loop: what decides where it goes next. *)
Definition same_control (st st' : printk_state) : Prop :=
  st_i st' = st_i st /\ st_fmt_cnt st' = st_fmt_cnt st
  /\ st_str_seen st' = st_str_seen st.

End WithHeaders.

End BpfTrace.

(** ** kernel/bpf/stackmap.c: teardown, and the map over a sequence of calls *)

Module StackMapLife.
Import StackMap.

(** What [stack_map_free] does, in program order. *)
Inductive free_effect : Type :=
  | SynchronizeRcu
  | KfreeRcuBucket (bucket : stack_map_bucket)
  | Kvfree
  | PutCallchainBuffers.

(** The [for] loop of [stack_map_free] from index [i] on.  [i] is an [int],
    which the comparison with the [u32] [n_buckets] converts to [u32];
    [fuel] bounds the iterations left and [n_buckets] of them are all there
    can be. *)
Fixpoint free_loop (smap : bpf_stack_map) (fuel : nat) (i : Z)
    : list free_effect :=
  match fuel with
  | O => []
  | S fuel =>
      if u32 i <? n_buckets smap
      then match bucket_at smap i with
           | Some bucket => [KfreeRcuBucket bucket]
           | None => []
           end ++ free_loop smap fuel (int32 (i + 1))
      else []
  end.

(** Called when map->refcnt goes to zero, either from workqueue or from
    syscall. *)
Definition stack_map_free (smap : bpf_stack_map) : list free_effect :=
  [SynchronizeRcu]
  ++ free_loop smap (Z.to_nat (n_buckets smap)) 0
  ++ [Kvfree; PutCallchainBuffers].

(** The entries a map holds, in bucket order. *)
Definition live_entries (smap : bpf_stack_map) : list stack_map_bucket :=
  omap (fun slot : option stack_map_bucket => slot) (buckets smap).

(** The entries a call put into a bucket, and those it handed to
    [kfree_rcu]. *)
Definition stored_by (es : list effect) : list stack_map_bucket :=
  omap (fun e => match e with Xchg _ (Some b) => Some b | _ => None end) es.

Definition freed_by (es : list effect) : list stack_map_bucket :=
  omap (fun e => match e with KfreeRcu b => Some b | _ => None end) es.

Definition freed_at_teardown (es : list free_effect) : list stack_map_bucket :=
  omap (fun e => match e with KfreeRcuBucket b => Some b | _ => None end) es.

(** A call of one of the two operations that change a map, with what the
    environment answers during the call. *)
Inductive stack_op : Type :=
  | GetStackid
      (get_perf_callchain : Z -> bool -> bool -> option perf_callchain_entry)
      (kmalloc_ok : bool) (flags : Z)
  | DeleteElem (key : Z).

Section WithHeaders.
Context `{Headers}.

Definition apply_op (smap : bpf_stack_map) (op : stack_op)
    : bpf_stack_map * list effect :=
  match op with
  | GetStackid get_perf_callchain kmalloc_ok flags =>
      let r := bpf_get_stackid get_perf_callchain kmalloc_ok smap flags in
      (smap_after r, effects r)
  | DeleteElem key =>
      match stack_map_delete_elem smap key with
      | (_, smap', es) => (smap', es)
      end
  end.

(** The calls of [ops] one after the other: the map at the end and all the
    effects. *)
Fixpoint run_ops (smap : bpf_stack_map) (ops : list stack_op)
    : bpf_stack_map * list effect :=
  match ops with
  | [] => (smap, [])
  | op :: ops =>
      match apply_op smap op with
      | (smap', es) =>
          match run_ops smap' ops with
          | (smap'', es') => (smap'', es ++ es')
          end
      end
  end.

(** The captures of a call respect what [get_perf_callchain] guarantees. *)
Definition op_captures_wf (smap : bpf_stack_map) (op : stack_op) : Prop :=
  match op with
  | GetStackid get_perf_callchain _ flags =>
      forall trace,
        get_perf_callchain (init_nr smap) (negb (user flags)) (user flags)
        = Some trace -> entry_wf (init_nr smap) trace
  | DeleteElem _ => True
  end.

(** An entry carries the digest of its own [nr] frames. *)
Definition entry_hashed (b : stack_map_bucket) : Prop :=
  hash b
  = u32 (jhash2 (u32_words (take (Z.to_nat (nr b)) (ip b)))
           (u32 (nr b * 8) / 4) 0).

(** Every entry sits in the bucket its digest selects. *)
Definition entries_indexed (smap : bpf_stack_map) : Prop :=
  forall id b,
    0 <= id < n_buckets smap -> bucket_at smap id = Some b ->
    entry_hashed b /\ id = Z.land (hash b) (u32 (n_buckets smap - 1)).

(** The six ways a call of [bpf_get_stackid] ends. *)
Inductive stackid_outcome
    (get_perf_callchain : Z -> bool -> bool -> option perf_callchain_entry)
    (kmalloc_ok : bool) (smap : bpf_stack_map) (flags : Z)
    : stackid_result -> Prop :=
  | UnknownFlags :
      Z.land flags (lnot64 known_flags) <> 0 ->
      stackid_outcome get_perf_callchain kmalloc_ok smap flags
        {| returned := Err EINVAL; smap_after := smap; effects := [] |}
  | NoCapture :
      Z.land flags (lnot64 known_flags) = 0 ->
      get_perf_callchain (init_nr smap) (negb (user flags)) (user flags)
      = None ->
      stackid_outcome get_perf_callchain kmalloc_ok smap flags
        {| returned := Err EFAULT; smap_after := smap;
           effects := [capture_call smap flags] |}
  | AllSkipped trace :
      Z.land flags (lnot64 known_flags) = 0 ->
      get_perf_callchain (init_nr smap) (negb (user flags)) (user flags)
      = Some trace ->
      u32 (entry_nr trace - init_nr smap) <= skip flags ->
      stackid_outcome get_perf_callchain kmalloc_ok smap flags
        {| returned := Err EFAULT; smap_after := smap;
           effects := [capture_call smap flags] |}
  | Found trace b :
      Z.land flags (lnot64 known_flags) = 0 ->
      get_perf_callchain (init_nr smap) (negb (user flags)) (user flags)
      = Some trace ->
      skip flags < u32 (entry_nr trace - init_nr smap) ->
      bucket_at smap (trace_id smap flags trace) = Some b ->
      same_trace smap flags trace b = true ->
      stackid_outcome get_perf_callchain kmalloc_ok smap flags
        {| returned := Ok (trace_id smap flags trace); smap_after := smap;
           effects := [capture_call smap flags] |}
  | Occupied trace b :
      Z.land flags (lnot64 known_flags) = 0 ->
      get_perf_callchain (init_nr smap) (negb (user flags)) (user flags)
      = Some trace ->
      skip flags < u32 (entry_nr trace - init_nr smap) ->
      bucket_at smap (trace_id smap flags trace) = Some b ->
      same_trace smap flags trace b = false ->
      Z.land flags BPF_F_REUSE_STACKID = 0 ->
      stackid_outcome get_perf_callchain kmalloc_ok smap flags
        {| returned := Err EEXIST; smap_after := smap;
           effects := [capture_call smap flags] |}
  | Stored trace :
      Z.land flags (lnot64 known_flags) = 0 ->
      get_perf_callchain (init_nr smap) (negb (user flags)) (user flags)
      = Some trace ->
      skip flags < u32 (entry_nr trace - init_nr smap) ->
      (forall b, bucket_at smap (trace_id smap flags trace) = Some b ->
                 same_trace smap flags trace b = false
                 /\ Z.land flags BPF_F_REUSE_STACKID <> 0) ->
      stackid_outcome get_perf_callchain kmalloc_ok smap flags
        (store_new kmalloc_ok smap flags trace).

(** What every map that creation and the calls can produce satisfies. *)
Definition smap_inv (smap : bpf_stack_map) : Prop :=
  smap_wf smap /\ entries_padded smap /\ entries_indexed smap.

End WithHeaders.

End StackMapLife.

(** ** kernel/trace/bpf_trace.c: the formats of bpf_trace_printk *)

Module PrintkFormat.
Import BpfTrace.

Section WithHeaders.
Context `{Headers}.

(** The character passes the test at the top of the loop body. *)
Definition plain_char (c : Z) : bool :=
  (isprint c || isspace c) && isascii c.

Definition integer_letter (c : Z) : bool :=
  (c =? chr "d") || (c =? chr "u") || (c =? chr "x").

(** The conversion that starts with the ['%'] at [p] is one of [%d %u %x],
    [%ld %lu %lx], [%lld %llu %llx], or [%p] or [%s] followed by the end of
    the string, a space or a punctuation character. *)
Definition conversion_ok (fmt : list Z) (p : Z) : bool :=
  let c1 := char_at fmt (p + 1) in
  if c1 =? chr "l"
  then
    let c2 := char_at fmt (p + 2) in
    if c2 =? chr "l" then integer_letter (char_at fmt (p + 3))
    else integer_letter c2
  else if (c1 =? chr "p") || (c1 =? chr "s")
  then
    let next := char_at fmt (p + 2) in
    (next =? 0) || isspace next || ispunct next
  else integer_letter c1.

(** The number of characters of that conversion after its ['%']. *)
Definition conv_len (fmt : list Z) (p : Z) : Z :=
  if char_at fmt (p + 1) =? chr "l"
  then if char_at fmt (p + 2) =? chr "l" then 3 else 2
  else 1.

(** The width of its argument: 2 for [ll], 1 for [l], [%p] and [%s], else
    0. *)
Definition conv_mod (fmt : list Z) (p : Z) : Z :=
  let c1 := char_at fmt (p + 1) in
  if c1 =? chr "l"
  then if char_at fmt (p + 2) =? chr "l" then 2 else 1
  else if (c1 =? chr "p") || (c1 =? chr "s") then 1 else 0.

(** ["%s"] at [p]. *)
Definition string_at (fmt : list Z) (p : Z) : Prop :=
  char_at fmt p = chr "%" /\ char_at fmt (p + 1) = chr "s".

(** A format of [size] characters and a terminator that the helper has no
    reason to reject. *)
Record valid_format (fmt : list Z) (size : Z) : Prop := {
  vf_terminated : char_at fmt size = 0;
  vf_plain : forall p, 0 <= p < size -> plain_char (char_at fmt p) = true;
  vf_conversions :
    forall p, 0 <= p < size -> char_at fmt p = chr "%" ->
              conversion_ok fmt p = true;
  vf_three : percent_before fmt size <= 3;
  vf_one_string :
    forall p q, 0 <= p < size -> 0 <= q < size ->
                string_at fmt p -> string_at fmt q -> p = q;
}.

(** The letters of the conversions are printable ASCII characters. *)
Definition letters_plain : Prop :=
  forall c, In c (List.map chr ["l"; "d"; "u"; "x"; "p"; "s"]%char) ->
            plain_char c = true.

(** The invariant of the loop at the top of an iteration, about the
    characters before [st_i st]; [st0] is the state on entry of the loop. *)
Record format_inv (unsafe_read : Z -> option (list Z)) (buf_addr : Z)
    (fmt : list Z) (st0 st : printk_state) : Prop := {
  fi_i : 0 <= st_i st;
  fi_cnt : st_fmt_cnt st = percent_before fmt (st_i st);
  fi_cnt3 : st_fmt_cnt st <= 3;
  fi_mod_len : length (st_mod st) = 3%nat;
  fi_mod_zero : forall m, st_fmt_cnt st <= m -> char_at (st_mod st) m = 0;
  fi_plain :
    letters_plain ->
    forall p, 0 <= p < st_i st -> plain_char (char_at fmt p) = true;
  fi_conv :
    forall p, 0 <= p < st_i st -> char_at fmt p = chr "%" ->
      conversion_ok fmt p = true
      /\ p + conv_len fmt p < st_i st
      /\ char_at (st_mod st) (percent_before fmt p) = conv_mod fmt p;
  fi_unseen :
    st_str_seen st = false ->
    same_data st0 st
    /\ forall p, 0 <= p < st_i st -> ~ string_at fmt p;
  fi_seen :
    st_str_seen st = true ->
    exists q, 0 <= q < st_i st /\ string_at fmt q
              /\ (forall p, 0 <= p < st_i st -> string_at fmt p -> p = q)
              /\ string_substituted unsafe_read buf_addr
                   (percent_before fmt q) st0 st;
}.

End WithHeaders.
End PrintkFormat.

(** ** kernel/trace/bpf_trace.c: the rest of the file *)

Module BpfTraceMore.
Import BpfTrace.

(** *** trace_call_bpf: the cpu while the programs run *)

(** The state of the cpu at the call of [BPF_PROG_RUN_ARRAY_CHECK] (line
    67), when [trace_call_bpf] gets there: preemption is disabled and
    [bpf_prog_active] was incremented to 1. *)
Definition running_state (in_nmi : bool) (cpu : cpu_state)
    : option cpu_state :=
  if in_nmi then None
  else
    let cpu := preempt_disable cpu in
    let active := int32 (bpf_prog_active cpu + 1) in
    let cpu := set_bpf_prog_active cpu active in
    if negb (active =? 1) then None else Some cpu.

(** *** bpf_perf_event_read *)

(** [pmu_count event] says whether [event->pmu->count] is set,
    [perf_event_read_local] is the value that function returns; the
    constants are those of linux/perf_event.h.  The result comes with the
    events passed to [perf_event_read_local]. *)
Definition bpf_perf_event_read (PERF_TYPE_HARDWARE PERF_TYPE_RAW : Z)
    (smp_processor_id : Z) (pmu_count : perf_event -> bool)
    (perf_event_read_local : perf_event -> Z)
    (array : bpf_array) (index : Z) : ret Z * list perf_event :=
  if array_max_entries array <=? index then (Err E2BIG, [])
  else
    match ptrs array !! Z.to_nat index with
    | Some (Some file) =>
        let event := private_data file in
        (* make sure event is local and doesn't have pmu::count *)
        if negb (oncpu event =? smp_processor_id) || pmu_count event
        then (Err EINVAL, [])
        else if negb (attr_type event =? PERF_TYPE_HARDWARE)
                && negb (attr_type event =? PERF_TYPE_RAW)
        then (Err EINVAL, [])
        else (Ok (perf_event_read_local event), [event])
    | _ => (Err ENOENT, [])
    end.

(** *** The context accesses the verifier asks about *)


(** [sizeof_data] is [sizeof(struct bpf_perf_event_data)] and
    [offsetof_sample_period] the offset of its field [sample_period];
    [sizeof(u64)] is 8, and so is [sizeof(long)] on the LP64 target. *)
Definition pe_prog_is_valid_access
    (sizeof_data offsetof_sample_period BPF_READ : Z)
    (off size type : Z) : option bool :=
  if (off <? 0) || (sizeof_data <=? off) then Some false
  else if negb (type =? BPF_READ) then Some false
  else if size =? 0 then None
  else if negb (Z.rem off size =? 0) then Some false
  else if off =? offsetof_sample_period
  then if negb (size =? 8) then Some false else Some true
  else if negb (size =? 8) then Some false else Some true.

(** *** Attaching a program to an event *)

Section Attach.
Context {bpf_prog bpf_prog_array : Type}.

(** What the two functions touch: [event->prog] and
    [event->tp_event->prog_array]. *)
Record event_state : Type := {
  ev_prog : option bpf_prog;
  ev_prog_array : bpf_prog_array;
}.

Inductive attach_effect : Type :=
  | MutexLock
  | MutexUnlock
  | ProgArrayCopy (old : bpf_prog_array) (exclude include : option bpf_prog)
  | ProgArrayFree (old : bpf_prog_array)
  | ProgArrayDeleteSafe (old : bpf_prog_array) (prog : bpf_prog)
  | ProgPut (prog : bpf_prog).

(** [bpf_prog_array_copy old exclude include] (kernel/bpf/core.c) is an
    argument: [Err e] is a negative return value, [Ok (r, new_array)] the
    return value [r >= 0] with the array it stores through its last
    parameter. *)
Definition perf_event_attach_bpf_prog
    (bpf_prog_array_copy :
       bpf_prog_array -> option bpf_prog -> option bpf_prog
       -> ret (Z * bpf_prog_array))
    (event : event_state) (prog : bpf_prog)
    : ret Z * event_state * list attach_effect :=
  match ev_prog event with
  | Some _ => (Err EEXIST, event, [MutexLock; MutexUnlock])
  | None =>
      let old_array := ev_prog_array event in
      match bpf_prog_array_copy old_array None (Some prog) with
      | Err e =>
          (Err e, event,
           [MutexLock; ProgArrayCopy old_array None (Some prog); MutexUnlock])
      | Ok (r, new_array) =>
          (* set the new array to event->tp_event and set event->prog *)
          (Ok r,
           {| ev_prog := Some prog; ev_prog_array := new_array |},
           [MutexLock; ProgArrayCopy old_array None (Some prog);
            ProgArrayFree old_array; MutexUnlock])
      end
  end.

(** [bpf_prog_array_delete_safe old prog] is the array [old] once that
    function has changed it in place. *)
Definition perf_event_detach_bpf_prog
    (bpf_prog_array_copy :
       bpf_prog_array -> option bpf_prog -> option bpf_prog
       -> ret (Z * bpf_prog_array))
    (bpf_prog_array_delete_safe : bpf_prog_array -> bpf_prog -> bpf_prog_array)
    (event : event_state) : event_state * list attach_effect :=
  match ev_prog event with
  | None => (event, [MutexLock; MutexUnlock])
  | Some prog =>
      let old_array := ev_prog_array event in
      match bpf_prog_array_copy old_array (Some prog) None with
      | Err _ =>
          ({| ev_prog := None;
              ev_prog_array := bpf_prog_array_delete_safe old_array prog |},
           [MutexLock; ProgArrayCopy old_array (Some prog) None;
            ProgArrayDeleteSafe old_array prog; ProgPut prog; MutexUnlock])
      | Ok (_, new_array) =>
          ({| ev_prog := None; ev_prog_array := new_array |},
           [MutexLock; ProgArrayCopy old_array (Some prog) None;
            ProgArrayFree old_array; ProgPut prog; MutexUnlock])
      end
  end.

(** A call of one of the two, and the calls of a list one after the other:
    the event at the end, the programs whose attachment succeeded, and all
    the effects. *)
Inductive attach_op : Type :=
  | Attach (prog : bpf_prog)
  | Detach.

Fixpoint run_attach_ops
    (bpf_prog_array_copy :
       bpf_prog_array -> option bpf_prog -> option bpf_prog
       -> ret (Z * bpf_prog_array))
    (bpf_prog_array_delete_safe : bpf_prog_array -> bpf_prog -> bpf_prog_array)
    (event : event_state) (ops : list attach_op)
    : event_state * list bpf_prog * list attach_effect :=
  match ops with
  | [] => (event, [], [])
  | Attach prog :: ops =>
      match perf_event_attach_bpf_prog bpf_prog_array_copy event prog with
      | (r, event', es) =>
          match run_attach_ops bpf_prog_array_copy bpf_prog_array_delete_safe
                  event' ops with
          | (event'', attached, es') =>
              (event'',
               match r with Ok _ => prog :: attached | Err _ => attached end,
               es ++ es')
          end
      end
  | Detach :: ops =>
      match perf_event_detach_bpf_prog bpf_prog_array_copy
              bpf_prog_array_delete_safe event with
      | (event', es) =>
          match run_attach_ops bpf_prog_array_copy bpf_prog_array_delete_safe
                  event' ops with
          | (event'', attached, es') => (event'', attached, es ++ es')
          end
      end
  end.

(** The programs put by a list of effects, and the mutex after it: [held]
    is whether it is held before; [None] stands for a lock taken twice or
    released while free. *)
Definition progs_put (es : list attach_effect) : list bpf_prog :=
  omap (fun e => match e with ProgPut p => Some p | _ => None end) es.

Fixpoint mutex_after (held : bool) (es : list attach_effect) : option bool :=
  match es with
  | [] => Some held
  | MutexLock :: es => if held then None else mutex_after true es
  | MutexUnlock :: es => if held then mutex_after false es else None
  | _ :: es => if held then mutex_after held es else None
  end.

End Attach.

End BpfTraceMore.

(** ** A configuration to run the definitions on *)

Module Example.

(** A stand-in digest for the examples: the sum of the words. *)
Definition sum_hash (k : list Z) (length initval : Z) : Z :=
  fold_right Z.add initval k.

(** The values of the mainline headers of this kernel generation, for an
    arm64 target; the digest is [sum_hash]. *)
Definition headers : Headers := {|
  PERF_MAX_STACK_DEPTH := 127;
  PERF_TYPE_SOFTWARE := 1;
  PERF_COUNT_SW_BPF_OUTPUT := 10;
  BPF_F_SKIP_FIELD_MASK := 255;
  BPF_F_USER_STACK := 256;
  BPF_F_FAST_STACK_CMP := 512;
  BPF_F_REUSE_STACKID := 1024;
  jhash2 := sum_hash;
  PAGE_SIZE := 4096;
  sizeof_bucket_ptr := 8;
  sizeof_bpf_stack_map := 64;
  sizeof_stack_map_bucket := 24;
  isprint := fun c => (32 <=? c) && (c <=? 126);
  isspace := fun c => (c =? 32) || ((9 <=? c) && (c <=? 13));
  ispunct := fun c =>
    ((33 <=? c) && (c <=? 47)) || ((58 <=? c) && (c <=? 64))
    || ((91 <=? c) && (c <=? 96)) || ((123 <=? c) && (c <=? 126));
  isascii := fun c => c <=? 127;
|}.

Import StackMap.

(** A request for three entries of eight frames, and the map of four
    buckets that creation makes of it. *)
Definition attr : bpf_attr :=
  {| attr_map_type := 7; attr_key_size := 4; attr_value_size := 64;
     attr_max_entries := 3 |}.

Definition bmap : bpf_map :=
  {| map_type := 7; key_size := 4; value_size := 64; max_entries := 3 |}.

Definition empty_smap : bpf_stack_map :=
  {| map := bmap; n_buckets := 4; buckets := [None; None; None; None] |}.

(** The entry that holds [frames] from [init_nr] on, and the capture that
    returns it; for a map of depth 8, [init_nr] is 119. *)
Definition entry_of (frames : list Z) (init_nr : Z) : perf_callchain_entry :=
  {| entry_nr := init_nr + Z.of_nat (length frames);
     entry_ip := take 127 (replicate (Z.to_nat init_nr) 0 ++ frames
                           ++ replicate 127 0) |}.

Definition capture (frames : list Z) (init_nr : Z) (kernel user : bool)
    : option perf_callchain_entry :=
  Some (entry_of frames init_nr).

(** The map once the trace [11; 22; 33] is stored: its digest 66 selects
    bucket 2, as does the digest 70 of [11; 22; 37]. *)
Definition one_entry_smap : bpf_stack_map :=
  {| map := bmap; n_buckets := 4;
     buckets := [None; None;
                 Some {| hash := 66; nr := 3;
                         ip := [11; 22; 33; 0; 0; 0; 0; 0] |};
                 None] |}.

(** The format ["%d %s"] with its terminator, and a buffer of 64 bytes. *)
Definition fmt_d_s : list Z := [37; 100; 32; 37; 115; 0].

Definition stack_garbage : list Z := replicate 64 7.

(** An idle cpu, and cpu 0 running a program. *)
Definition idle_cpu : BpfTrace.cpu_state :=
  {| BpfTrace.bpf_prog_active := 0; BpfTrace.preempt_count := 0 |}.

Definition busy_cpu : BpfTrace.cpu_state :=
  {| BpfTrace.bpf_prog_active := 1; BpfTrace.preempt_count := 1 |}.

(** A program array whose programs are numbered; running it returns 1. *)
Definition run_all (progs : list nat) (ctx : unit) : Z * list nat := (1, progs).

(** A hardware counter (type 0) and a [bpf_output] software event (type 1,
    config 10), both on cpu 0. *)
Definition hw_event : BpfTrace.perf_event :=
  {| BpfTrace.attr_type := 0; BpfTrace.attr_config := 0; BpfTrace.oncpu := 0 |}.

Definition output_event : BpfTrace.perf_event :=
  {| BpfTrace.attr_type := 1; BpfTrace.attr_config := 10; BpfTrace.oncpu := 0 |}.

Definition event_array : BpfTrace.bpf_array :=
  {| BpfTrace.array_max_entries := 3;
     BpfTrace.ptrs := [Some {| BpfTrace.private_data := hw_event |};
                       Some {| BpfTrace.private_data := output_event |};
                       None] |}.

End Example.

(** ** More of the configuration: a sequence of calls, a format, an event *)

Module Scenario.
Import StackMap StackMapLife BpfTrace BpfTraceMore.

(** Store [11; 22; 33], replace it by [11; 22; 37], which shares its
    bucket, then delete bucket 2. *)
Definition ops : list stack_op :=
  [GetStackid (Example.capture [11; 22; 33]) true 0;
   GetStackid (Example.capture [11; 22; 37]) true 1024;
   DeleteElem 2].

(** The entry of the trace [11; 22; 33] in a map of depth 8. *)
Definition entry_11_22_33 : stack_map_bucket :=
  {| hash := 66; nr := 3; ip := [11; 22; 33; 0; 0; 0; 0; 0] |}.

(** The format ["%d"] with its terminator. *)
Definition fmt_d : list Z := [37; 100; 0].

(** The values of linux/perf_event.h, the size of [struct pt_regs] on
    arm64, and [struct bpf_perf_event_data], which is a [struct pt_regs]
    followed by the [u64] field [sample_period]; [BPF_READ] is 1. *)
Definition PERF_TYPE_HARDWARE : Z := 0.
Definition PERF_TYPE_RAW : Z := 4.
Definition sizeof_bpf_perf_event_data : Z := 344.
Definition offsetof_sample_period : Z := 336.
Definition BPF_READ : Z := 1.

(** Programs are numbers and a program array is the list of its programs;
    copying appends the program to include and always succeeds. *)
Definition array_copy (old : list nat) (exclude include : option nat)
    : ret (Z * list nat) :=
  Ok (0, match include with Some p => old ++ [p] | None => old end).

Definition array_delete_safe (old : list nat) (prog : nat) : list nat := old.

Definition free_event : @event_state nat (list nat) :=
  {| ev_prog := None; ev_prog_array := [] |}.

Definition event_with_7 : @event_state nat (list nat) :=
  {| ev_prog := Some 7%nat; ev_prog_array := [7%nat] |}.

End Scenario.

(** * Properties *)

Import StackMap BpfTrace.

(** ** Machine arithmetic *)

Lemma u32_small (x : Z) : 0 <= x < 2 ^ 32 -> u32 x = x.
Proof. intros Hx. unfold u32. apply Z.mod_small. exact Hx. Qed.

Lemma u64_small (x : Z) : 0 <= x < 2 ^ 64 -> u64 x = x.
Proof. intros Hx. unfold u64. apply Z.mod_small. exact Hx. Qed.

Lemma u32_range (x : Z) : 0 <= u32 x < 2 ^ 32.
Proof. unfold u32. apply Z.mod_pos_bound. lia. Qed.

Lemma u64_range (x : Z) : 0 <= u64 x < 2 ^ 64.
Proof. unfold u64. apply Z.mod_pos_bound. lia. Qed.

(** Incrementing then decrementing an [int] gives it back, also across the
    wrap at [INT_MAX]. *)
Lemma int32_inc_dec (x : Z) :
  - 2 ^ 31 <= x < 2 ^ 31 -> int32 (int32 (x + 1) - 1) = x.
Proof.
  intros Hx. unfold int32.
  replace ((x + 1 + 2 ^ 31) mod 2 ^ 32 - 2 ^ 31 - 1 + 2 ^ 31)
    with ((x + 1 + 2 ^ 31) mod 2 ^ 32 - 1) by lia.
  rewrite <- (Z.mod_small 1 (2 ^ 32)) at 2 by lia.
  rewrite <- Zminus_mod.
  replace (x + 1 + 2 ^ 31 - 1) with (x + 2 ^ 31) by lia.
  rewrite Z.mod_small; lia.
Qed.

(** The only [int] whose successor is 1 is 0. *)
Lemma int32_succ_is_one (x : Z) :
  - 2 ^ 31 <= x < 2 ^ 31 -> int32 (x + 1) = 1 <-> x = 0.
Proof.
  intros Hx. unfold int32. split.
  - intros Heq.
    destruct (Z.eq_dec x (2 ^ 31 - 1)) as [-> | Hne].
    + vm_compute in Heq. discriminate.
    + rewrite Z.mod_small in Heq; lia.
  - intros ->. reflexivity.
Qed.

(** A set bit of an [n]-bit value is one of its [n] low bits. *)
Lemma testbit_true_below (a n i : Z) :
  0 <= n -> 0 <= a < 2 ^ n -> Z.testbit a i = true -> 0 <= i < n.
Proof.
  intros Hn Ha Hbit. split.
  - destruct (Z.le_gt_cases 0 i) as [Hi | Hi]; [exact Hi |].
    rewrite Z.testbit_neg_r in Hbit by lia. discriminate.
  - destruct (Z.lt_ge_cases i n) as [Hi | Hi]; [exact Hi |].
    destruct (Z.eq_dec a 0) as [-> | Hnz].
    + rewrite Z.bits_0 in Hbit. discriminate.
    + rewrite Z.bits_above_log2 in Hbit; [discriminate | lia |].
      apply Z.lt_le_trans with n; [| exact Hi].
      apply Z.log2_lt_pow2; lia.
Qed.

(** Masking with a non-negative mask gives an index the mask bounds. *)
Lemma land_mask_bounds (a m : Z) : 0 <= m -> 0 <= Z.land a m <= m.
Proof.
  intros Hm. split.
  - apply Z.land_nonneg. right. exact Hm.
  - assert (Hsplit : Z.land a m + Z.land (Z.lnot a) m = m).
    { rewrite Z.add_nocarry_lxor.
      - apply Z.bits_inj'. intros i Hi.
        rewrite Z.lxor_spec, !Z.land_spec, Z.lnot_spec by exact Hi.
        destruct (Z.testbit a i), (Z.testbit m i); reflexivity.
      - apply Z.bits_inj'. intros i Hi.
        rewrite !Z.land_spec, Z.lnot_spec, Z.bits_0 by exact Hi.
        destruct (Z.testbit a i), (Z.testbit m i); reflexivity. }
    assert (0 <= Z.land (Z.lnot a) m) by (apply Z.land_nonneg; right; exact Hm).
    lia.
Qed.

(** ** The stack map: lookup, enumeration *)

(** C9, as the claim states it, fails: the code with which the enumeration
    fails does not mean "unsupported"; it is the code that means "invalid
    argument". *)
Lemma get_next_key_not_unsupported :
  ~ fails_with (stack_map_get_next_key Example.empty_smap 0 0) Unsupported.
Proof. intros (e & [= <-] & Hmeaning). discriminate Hmeaning. Qed.

(** C9, amended: for every map and every key, [stack_map_get_next_key] fails,
    and the code is the invalid-argument one, [-EINVAL]. *)
Theorem get_next_key_always_einval (smap : bpf_stack_map) (key next_key : Z) :
  stack_map_get_next_key smap key next_key = Err EINVAL
  /\ fails_with (stack_map_get_next_key smap key next_key) InvalidArgument.
Proof. split; [reflexivity |]. exists EINVAL. split; reflexivity. Qed.

(** C4, as the claim states it, fails: on a map of four empty buckets the
    lookup of index 4 returns NULL, which is also what the lookup of the
    empty bucket 0 returns, so no reading of the result makes the first an
    out-of-range error and the second "not found". *)
Lemma lookup_out_of_range_is_null :
  stack_map_lookup_elem Example.empty_smap 4 = None
  /\ stack_map_lookup_elem Example.empty_smap 0 = None
  /\ forall read : option (list Z) -> lookup_outcome,
       ~ (read (stack_map_lookup_elem Example.empty_smap 4) = LookupOutOfRange
          /\ read (stack_map_lookup_elem Example.empty_smap 0) = LookupNotFound).
Proof.
  repeat split.
  intros read [Hout Hnf]. vm_compute in Hout, Hnf. congruence.
Qed.

(** C4, amended: the lookup of an index at or beyond [n_buckets] returns
    NULL, the result of an empty bucket; an empty bucket in range gives
    NULL; an occupied one gives the whole array [ip] of its entry, which in
    a map of padded entries is the [nr] frames of the entry followed by
    zeros up to [value_size / 8] words. *)
Theorem lookup_elem_cases (smap : bpf_stack_map) (key : Z) :
  (n_buckets smap <= u32 key -> stack_map_lookup_elem smap key = None)
  /\ (u32 key < n_buckets smap -> bucket_at smap (u32 key) = None ->
      stack_map_lookup_elem smap key = None)
  /\ (forall bucket, u32 key < n_buckets smap ->
      bucket_at smap (u32 key) = Some bucket ->
      stack_map_lookup_elem smap key = Some (ip bucket)
      /\ (entries_padded smap ->
          Z.of_nat (length (ip bucket)) = value_size (map smap) / 8
          /\ ip bucket
             = take (Z.to_nat (nr bucket)) (ip bucket)
               ++ replicate
                    (Z.to_nat (value_size (map smap) / 8 - nr bucket)) 0
          /\ Z.of_nat (length (take (Z.to_nat (nr bucket)) (ip bucket)))
             = nr bucket)).
Proof.
  unfold stack_map_lookup_elem. split; [| split].
  - intros Hge. destruct (Z.leb_spec (n_buckets smap) (u32 key)); [reflexivity | lia].
  - intros Hlt Hempty. rewrite Hempty.
    destruct (n_buckets smap <=? u32 key); reflexivity.
  - intros bucket Hlt Hocc. rewrite Hocc.
    destruct (Z.leb_spec (n_buckets smap) (u32 key)); [lia |].
    split; [reflexivity |].
    intros Hpadded. destruct (Hpadded _ _ Hocc) as (Hlen & Hnr & Hzeros).
    split; [exact Hlen |]. split.
    + rewrite <- Hzeros. symmetry. apply take_drop.
    + rewrite length_take. lia.
Qed.

(** ** The stack map: flags *)

Section StackIdFlags.
Context `{Headers}.

(** A flag bit outside the four known fields survives the mask of line 97. *)
Lemma unknown_bit_survives (flags i : Z) :
  0 <= flags < 2 ^ 64 ->
  Z.testbit flags i = true ->
  Z.testbit known_flags i = false ->
  Z.land flags (lnot64 known_flags) <> 0.
Proof.
  intros Hflags Hbit Hknown Hzero.
  destruct (testbit_true_below flags 64 i) as [Hi0 Hi64]; [lia | exact Hflags | exact Hbit |].
  assert (Hland : Z.testbit (Z.land flags (lnot64 known_flags)) i = true).
  { unfold lnot64, u64.
    rewrite Z.land_spec, Z.mod_pow2_bits_low, Z.lnot_spec by lia.
    rewrite Hbit, Hknown. reflexivity. }
  rewrite Hzero, Z.bits_0 in Hland. discriminate.
Qed.

Lemma known_flags_bit (i : Z) :
  Z.testbit known_flags i = false <->
  Z.testbit BPF_F_SKIP_FIELD_MASK i = false
  /\ Z.testbit BPF_F_USER_STACK i = false
  /\ Z.testbit BPF_F_FAST_STACK_CMP i = false
  /\ Z.testbit BPF_F_REUSE_STACKID i = false.
Proof.
  unfold known_flags. rewrite !Z.lor_spec, !orb_false_iff. tauto.
Qed.

(** C10: when [flags] has a bit set that belongs to none of the skip mask,
    the user-stack bit, the fast-compare bit and the reuse bit,
    [bpf_get_stackid] returns [-EINVAL] without having called the capture
    or the allocator, and the map is as it was. *)
Theorem get_stackid_rejects_unknown_flags
    (get_perf_callchain : Z -> bool -> bool -> option perf_callchain_entry)
    (kmalloc_ok : bool) (smap : bpf_stack_map) (flags i : Z) :
  0 <= flags < 2 ^ 64 ->
  Z.testbit flags i = true ->
  Z.testbit BPF_F_SKIP_FIELD_MASK i = false ->
  Z.testbit BPF_F_USER_STACK i = false ->
  Z.testbit BPF_F_FAST_STACK_CMP i = false ->
  Z.testbit BPF_F_REUSE_STACKID i = false ->
  bpf_get_stackid get_perf_callchain kmalloc_ok smap flags
  = {| returned := Err EINVAL;
       smap_after := smap;
       effects := [] |}.
Proof.
  intros Hflags Hbit Hskip Huser Hfast Hreuse.
  assert (Hne : Z.land flags (lnot64 known_flags) <> 0).
  { apply unknown_bit_survives with i; [exact Hflags | exact Hbit |].
    apply known_flags_bit. auto. }
  unfold bpf_get_stackid. fold known_flags.
  apply Z.eqb_neq in Hne. rewrite Hne. reflexivity.
Qed.

End StackIdFlags.

(** Bit 11 is outside the known fields: the call with flags [2048] on the
    example map. *)
Lemma get_stackid_rejects_unknown_flags_witness :
  @bpf_get_stackid Example.headers (Example.capture [11; 22; 33]) true
    Example.empty_smap 2048
  = {| returned := Err EINVAL; smap_after := Example.empty_smap; effects := [] |}.
Proof.
  apply (@get_stackid_rejects_unknown_flags Example.headers
           (Example.capture [11; 22; 33]) true Example.empty_smap 2048 11);
    first [ lia | reflexivity ].
Defined.

(** ** The stack map: deduplicating insert *)

Section StackIdStore.
Context `{Headers}.

(** Past the three early returns, the call is the bucket test followed by
    [store_new]. *)
Lemma get_stackid_on_capture
    (get_perf_callchain : Z -> bool -> bool -> option perf_callchain_entry)
    (kmalloc_ok : bool) (smap : bpf_stack_map) (flags : Z)
    (trace : perf_callchain_entry) :
  Z.land flags (lnot64 known_flags) = 0 ->
  get_perf_callchain (init_nr smap) (negb (user flags)) (user flags)
  = Some trace ->
  skip flags < u32 (entry_nr trace - init_nr smap) ->
  bpf_get_stackid get_perf_callchain kmalloc_ok smap flags
  = match bucket_at smap (trace_id smap flags trace) with
    | Some b =>
        if same_trace smap flags trace b
        then {| returned := Ok (trace_id smap flags trace);
                smap_after := smap;
                effects := [capture_call smap flags] |}
        else if Z.land flags BPF_F_REUSE_STACKID =? 0
        then {| returned := Err EEXIST; smap_after := smap;
                effects := [capture_call smap flags] |}
        else store_new kmalloc_ok smap flags trace
    | None => store_new kmalloc_ok smap flags trace
    end.
Proof.
  intros Hvalid Hcapture Hskip.
  unfold init_nr, max_depth, user, skip in Hcapture, Hskip.
  unfold bpf_get_stackid. fold known_flags.
  rewrite Hvalid, Hcapture. cbn [negb Z.eqb].
  match goal with
  | |- context [?a <=? ?b] =>
      destruct (Z.leb_spec a b) as [Hle | _]; [lia |]
  end.
  unfold store_new, same_trace, new_entry, capture_call, trace_id, trace_hash,
    frames, trace_len, trace_nr, init_nr, max_depth, user, skip.
  destruct (bucket_at smap _) as [b |] eqn:Hbucket.
  - destruct (_ && _) eqn:Hfound; [reflexivity |].
    destruct (Z.land flags BPF_F_REUSE_STACKID =? 0); reflexivity.
  - reflexivity.
Qed.

(** A call that returns an index went past the three early returns. *)
Lemma get_stackid_ok_inv
    (get_perf_callchain : Z -> bool -> bool -> option perf_callchain_entry)
    (kmalloc_ok : bool) (smap : bpf_stack_map) (flags id : Z) :
  returned (bpf_get_stackid get_perf_callchain kmalloc_ok smap flags) = Ok id ->
  Z.land flags (lnot64 known_flags) = 0
  /\ exists trace,
       get_perf_callchain (init_nr smap) (negb (user flags)) (user flags)
       = Some trace
       /\ skip flags < u32 (entry_nr trace - init_nr smap).
Proof.
  unfold bpf_get_stackid. fold known_flags.
  fold (max_depth smap). fold (init_nr smap). fold (user flags). fold (skip flags).
  destruct (Z.eqb_spec (Z.land flags (lnot64 known_flags)) 0) as [Hvalid | _];
    cbn [negb]; [| discriminate].
  destruct (get_perf_callchain _ _ _) as [trace |]; [| discriminate].
  destruct (Z.leb_spec (u32 (entry_nr trace - init_nr smap)) (skip flags));
    [discriminate |].
  intros _. split; [exact Hvalid |]. exists trace. split; [reflexivity | assumption].
Qed.

(** The arithmetic of a capture that respects the guarantees of
    [get_perf_callchain], on a map that creation accepted: nothing wraps. *)
Lemma capture_arith (smap : bpf_stack_map) (flags : Z)
    (trace : perf_callchain_entry) :
  smap_wf smap ->
  entry_wf (init_nr smap) trace ->
  skip flags < u32 (entry_nr trace - init_nr smap) ->
  max_depth smap = value_size (map smap) / 8
  /\ init_nr smap = PERF_MAX_STACK_DEPTH - max_depth smap
  /\ trace_nr smap flags trace = entry_nr trace - init_nr smap - skip flags
  /\ 1 <= trace_nr smap flags trace <= max_depth smap
  /\ trace_len smap flags trace = 8 * trace_nr smap flags trace
  /\ u32 (value_size (map smap) - trace_len smap flags trace) / 8
     = max_depth smap - trace_nr smap flags trace.
Proof.
  intros [Hnb Hlen Hvs Hmult Hdepth Hmax] [Hlow Hup Hiplen] Hskip.
  assert (Hmd : max_depth smap = value_size (map smap) / 8).
  { unfold max_depth. apply u32_small. Z.div_mod_to_equations. lia. }
  assert (Hmd1 : 1 <= max_depth smap) by (rewrite Hmd; Z.div_mod_to_equations; lia).
  assert (Hvs8 : value_size (map smap) = 8 * max_depth smap).
  { rewrite Hmd. Z.div_mod_to_equations. lia. }
  assert (Hin : init_nr smap = PERF_MAX_STACK_DEPTH - max_depth smap).
  { unfold init_nr. apply u32_small. lia. }
  assert (Hskip0 : 0 <= skip flags) by (unfold skip; apply u32_range).
  rewrite (u32_small (entry_nr trace - init_nr smap)) in Hskip by lia.
  assert (Hnr : trace_nr smap flags trace
                = entry_nr trace - init_nr smap - skip flags).
  { unfold trace_nr.
    rewrite (u32_small (entry_nr trace - init_nr smap)) by lia.
    apply u32_small. lia. }
  assert (Hlen8 : trace_len smap flags trace = 8 * trace_nr smap flags trace).
  { unfold trace_len. rewrite u32_small by lia. lia. }
  repeat split; try lia.
  rewrite Hlen8, u32_small by lia. Z.div_mod_to_equations. lia.
Qed.

(** The frames kept are [trace_nr] many: the capture's array is long enough. *)
Lemma frames_length (smap : bpf_stack_map) (flags : Z)
    (trace : perf_callchain_entry) :
  smap_wf smap ->
  entry_wf (init_nr smap) trace ->
  skip flags < u32 (entry_nr trace - init_nr smap) ->
  length (frames smap flags trace) = Z.to_nat (trace_nr smap flags trace).
Proof.
  intros Hsmap Htrace Hskip.
  destruct (capture_arith smap flags trace Hsmap Htrace Hskip)
    as (Hmd & Hin & Hnr & Hbound & Hlen8 & _).
  destruct Htrace as [Hlow Hup Hiplen].
  assert (Hskip0 : 0 <= skip flags) by (unfold skip; apply u32_range).
  assert (Hinit0 : 0 <= init_nr smap) by (unfold init_nr; apply u32_range).
  unfold frames, read_bytes.
  rewrite Hlen8, length_take, length_drop.
  replace (8 * trace_nr smap flags trace / 8) with (trace_nr smap flags trace)
    by (Z.div_mod_to_equations; lia).
  lia.
Qed.

(** Reading the entry just built back over [trace_len] bytes gives the
    frames: the comparison of line 127 succeeds on it. *)
Lemma same_trace_new_entry (smap : bpf_stack_map) (flags : Z)
    (trace : perf_callchain_entry) :
  smap_wf smap ->
  entry_wf (init_nr smap) trace ->
  skip flags < u32 (entry_nr trace - init_nr smap) ->
  same_trace smap flags trace (new_entry smap flags trace) = true.
Proof.
  intros Hsmap Htrace Hskip.
  pose proof (frames_length smap flags trace Hsmap Htrace Hskip) as Hflen.
  destruct (capture_arith smap flags trace Hsmap Htrace Hskip)
    as (_ & _ & _ & Hbound & Hlen8 & _).
  unfold same_trace, new_entry. cbn [hash nr ip].
  rewrite !Z.eqb_refl. cbn [andb].
  apply orb_true_iff. right. apply bool_decide_eq_true_2.
  unfold read_bytes at 1. apply take_app_length'.
  rewrite Hflen, Hlen8. f_equal. Z.div_mod_to_equations. lia.
Qed.

Lemma trace_id_bounds (smap : bpf_stack_map) (flags : Z)
    (trace : perf_callchain_entry) :
  smap_wf smap ->
  0 <= trace_id smap flags trace < n_buckets smap.
Proof.
  intros [Hnb _ _ _ _ _]. unfold trace_id.
  rewrite (u32_small (n_buckets smap - 1)) by lia.
  pose proof (land_mask_bounds (trace_hash smap flags trace)
                (n_buckets smap - 1)). lia.
Qed.

Lemma bucket_at_xchg_eq (smap : bpf_stack_map) (id : Z)
    (b : option stack_map_bucket) :
  smap_wf smap -> 0 <= id < n_buckets smap ->
  bucket_at (xchg_bucket smap id b) id = b.
Proof.
  intros [_ Hlen _ _ _ _] Hid. unfold bucket_at, xchg_bucket. cbn [buckets].
  rewrite list_lookup_insert_eq by lia. reflexivity.
Qed.

Lemma bucket_at_xchg_ne (smap : bpf_stack_map) (id j : Z)
    (b : option stack_map_bucket) :
  0 <= id -> 0 <= j -> id <> j ->
  bucket_at (xchg_bucket smap id b) j = bucket_at smap j.
Proof.
  intros Hid Hj Hne. unfold bucket_at, xchg_bucket. cbn [buckets].
  rewrite list_lookup_insert_ne by lia. reflexivity.
Qed.

Lemma xchg_bucket_wf (smap : bpf_stack_map) (id : Z)
    (b : option stack_map_bucket) :
  smap_wf smap -> smap_wf (xchg_bucket smap id b).
Proof.
  intros [Hnb Hlen Hvs Hmult Hdepth Hmax].
  split; cbn [xchg_bucket n_buckets buckets map]; try assumption.
  rewrite length_insert. exact Hlen.
Qed.

(** C1: with the fast-compare and the reuse bits clear, once a call has
    returned an index for a captured trace, the call repeated on the same
    trace returns the same index; it only captures (no allocation, no swap,
    nothing freed) and leaves the map as the first call left it. *)
Theorem get_stackid_same_trace_twice
    (get_perf_callchain : Z -> bool -> bool -> option perf_callchain_entry)
    (kmalloc_ok kmalloc_ok' : bool) (smap : bpf_stack_map) (flags id : Z) :
  smap_wf smap ->
  (forall trace,
     get_perf_callchain (init_nr smap) (negb (user flags)) (user flags)
     = Some trace -> entry_wf (init_nr smap) trace) ->
  Z.land flags BPF_F_FAST_STACK_CMP = 0 ->
  Z.land flags BPF_F_REUSE_STACKID = 0 ->
  returned (bpf_get_stackid get_perf_callchain kmalloc_ok smap flags) = Ok id ->
  let first := bpf_get_stackid get_perf_callchain kmalloc_ok smap flags in
  let second :=
    bpf_get_stackid get_perf_callchain kmalloc_ok' (smap_after first) flags in
  returned second = Ok id
  /\ smap_after second = smap_after first
  /\ effects second = [capture_call smap flags].
Proof.
  intros Hsmap Hwf Hfast Hreuse Hret first second.
  destruct (get_stackid_ok_inv _ _ _ _ _ Hret)
    as (Hvalid & trace & Hcapture & Hskip).
  pose proof (Hwf trace Hcapture) as Htrace.
  pose proof (get_stackid_on_capture get_perf_callchain kmalloc_ok smap flags
                trace Hvalid Hcapture Hskip) as Hfirst.
  fold first in Hfirst, Hret. subst second.
  destruct (bucket_at smap (trace_id smap flags trace)) as [b |] eqn:Hbucket.
  - destruct (same_trace smap flags trace b) eqn:Hsame.
    + rewrite Hfirst in Hret |- *. cbn [returned smap_after] in Hret |- *.
      rewrite (get_stackid_on_capture get_perf_callchain kmalloc_ok' smap flags
                 trace Hvalid Hcapture Hskip), Hbucket, Hsame.
      cbn [returned smap_after effects]. auto.
    + rewrite Hfirst in Hret. apply Z.eqb_eq in Hreuse. rewrite Hreuse in Hret.
      discriminate Hret.
  - unfold store_new in Hfirst. rewrite Hbucket in Hfirst.
    destruct kmalloc_ok; cbn [negb] in Hfirst;
      [| rewrite Hfirst in Hret; discriminate Hret].
    rewrite Hfirst in Hret |- *. cbn [returned smap_after] in Hret |- *.
    set (smap' := xchg_bucket smap (trace_id smap flags trace)
                    (Some (new_entry smap flags trace))).
    assert (Hcapture' :
              get_perf_callchain (init_nr smap') (negb (user flags)) (user flags)
              = Some trace) by exact Hcapture.
    assert (Hskip' : skip flags < u32 (entry_nr trace - init_nr smap'))
      by exact Hskip.
    rewrite (get_stackid_on_capture get_perf_callchain kmalloc_ok' smap' flags
               trace Hvalid Hcapture' Hskip').
    change (trace_id smap' flags trace) with (trace_id smap flags trace).
    change (same_trace smap' flags trace) with (same_trace smap flags trace).
    change (capture_call smap' flags) with (capture_call smap flags).
    replace (bucket_at smap' (trace_id smap flags trace))
      with (Some (new_entry smap flags trace))
      by (symmetry; apply bucket_at_xchg_eq; auto using trace_id_bounds).
    rewrite same_trace_new_entry by assumption.
    cbn [returned smap_after effects]. auto.
Qed.

(** The claim's "does not match the occupant", against the test of the
    code. *)
Lemma mismatch_same_trace (smap : bpf_stack_map) (flags : Z)
    (trace : perf_callchain_entry) (old : stack_map_bucket) :
  hash old <> trace_hash smap flags trace
  \/ (Z.land flags BPF_F_FAST_STACK_CMP = 0
      /\ (nr old <> trace_nr smap flags trace
          \/ read_bytes (trace_len smap flags trace) (ip old)
             <> frames smap flags trace)) ->
  same_trace smap flags trace old = false.
Proof.
  unfold same_trace. intros [Hhash | [Hfast [Hnr | Hbytes]]].
  - apply Z.eqb_neq in Hhash. rewrite Hhash. reflexivity.
  - apply Z.eqb_eq in Hfast. apply Z.eqb_neq in Hnr. rewrite Hfast, Hnr.
    apply andb_false_r.
  - apply Z.eqb_eq in Hfast. rewrite Hfast, (bool_decide_eq_false_2 _ Hbytes).
    cbn [negb orb]. rewrite andb_false_r. apply andb_false_r.
Qed.

(** C2: the bucket of a captured trace is occupied by an entry that does not
    match it (another hash, or the same hash and, the fast-compare bit being
    clear, another depth or other frame bytes).  Without the reuse bit the
    call returns [-EEXIST] and leaves the map as it was.  With the reuse bit
    and memory for the new entry it returns the bucket index, the bucket
    holds the new entry after one exchange, the old entry goes to
    [kfree_rcu], a lookup of the index gives the new frames followed by
    zeros, and no other bucket changes.  With the reuse bit and no memory it
    returns [-ENOMEM] and leaves the map as it was. *)
Theorem get_stackid_collision
    (get_perf_callchain : Z -> bool -> bool -> option perf_callchain_entry)
    (kmalloc_ok : bool) (smap : bpf_stack_map) (flags : Z)
    (trace : perf_callchain_entry) (old : stack_map_bucket) :
  smap_wf smap ->
  Z.land flags (lnot64 known_flags) = 0 ->
  get_perf_callchain (init_nr smap) (negb (user flags)) (user flags)
  = Some trace ->
  entry_wf (init_nr smap) trace ->
  skip flags < u32 (entry_nr trace - init_nr smap) ->
  bucket_at smap (trace_id smap flags trace) = Some old ->
  hash old <> trace_hash smap flags trace
  \/ (Z.land flags BPF_F_FAST_STACK_CMP = 0
      /\ (nr old <> trace_nr smap flags trace
          \/ read_bytes (trace_len smap flags trace) (ip old)
             <> frames smap flags trace)) ->
  let r := bpf_get_stackid get_perf_callchain kmalloc_ok smap flags in
  let id := trace_id smap flags trace in
  let size := sizeof_stack_map_bucket + value_size (map smap) in
  let new_bucket := new_entry smap flags trace in
  (Z.land flags BPF_F_REUSE_STACKID = 0 ->
   r = {| returned := Err EEXIST;
          smap_after := smap;
          effects := [capture_call smap flags] |})
  /\ (Z.land flags BPF_F_REUSE_STACKID <> 0 -> kmalloc_ok = true ->
      returned r = Ok id
      /\ smap_after r = xchg_bucket smap id (Some new_bucket)
      /\ effects r = [capture_call smap flags; Kmalloc size;
                      Xchg id (Some new_bucket); KfreeRcu old]
      /\ stack_map_lookup_elem (smap_after r) id
         = Some (frames smap flags trace
                 ++ replicate
                      (Z.to_nat (max_depth smap - trace_nr smap flags trace)) 0)
      /\ forall j, 0 <= j -> j <> id ->
           bucket_at (smap_after r) j = bucket_at smap j)
  /\ (Z.land flags BPF_F_REUSE_STACKID <> 0 -> kmalloc_ok = false ->
      r = {| returned := Err ENOMEM;
             smap_after := smap;
             effects := [capture_call smap flags; Kmalloc size] |}).
Proof.
  intros Hsmap Hvalid Hcapture Htrace Hskip Hold Hmismatch r id size new_bucket.
  pose proof (get_stackid_on_capture get_perf_callchain kmalloc_ok smap flags
                trace Hvalid Hcapture Hskip) as Hr.
  fold r in Hr. rewrite Hold, (mismatch_same_trace _ _ _ _ Hmismatch) in Hr.
  pose proof (trace_id_bounds smap flags trace Hsmap) as Hid. fold id in Hid.
  split; [| split].
  - intros Hreuse. apply Z.eqb_eq in Hreuse. rewrite Hreuse in Hr. exact Hr.
  - intros Hreuse ->. apply Z.eqb_neq in Hreuse. rewrite Hreuse in Hr.
    unfold store_new in Hr. rewrite Hold in Hr. cbn [negb] in Hr.
    fold id new_bucket size in Hr. rewrite Hr. cbn [returned smap_after effects].
    repeat split.
    + unfold stack_map_lookup_elem.
      pose proof Hsmap as [Hnb _ _ _ _ _].
      rewrite (u32_small id) by lia.
      change (n_buckets (xchg_bucket smap id (Some new_bucket)))
        with (n_buckets smap).
      destruct (Z.leb_spec (n_buckets smap) id) as [Hge | _]; [lia |].
      rewrite bucket_at_xchg_eq by assumption.
      unfold new_bucket, new_entry. cbn [ip].
      destruct (capture_arith smap flags trace Hsmap Htrace Hskip)
        as (_ & _ & _ & _ & _ & Hpad).
      rewrite Hpad. reflexivity.
    + intros j Hj Hne. apply bucket_at_xchg_ne; lia.
  - intros Hreuse ->. apply Z.eqb_neq in Hreuse. rewrite Hreuse in Hr.
    unfold store_new in Hr. cbn [negb] in Hr. exact Hr.
Qed.

End StackIdStore.

(** ** The stack map: creation *)

(** [roundup_pow_of_two n] is the least power of two that is at least [n]. *)
Lemma roundup_pow_of_two_spec (n : Z) :
  0 < n ->
  (exists k, 0 <= k /\ roundup_pow_of_two n = 2 ^ k)
  /\ n <= roundup_pow_of_two n < 2 * n.
Proof.
  intros Hn. unfold roundup_pow_of_two. split.
  - exists (Z.log2_up n). split; [apply Z.log2_up_nonneg | reflexivity].
  - destruct (Z.eq_dec n 1) as [-> | Hne].
    + vm_compute. intuition congruence.
    + pose proof (Z.log2_up_spec n ltac:(lia)) as [Hlow Hup].
      split; [exact Hup |].
      replace (Z.log2_up n) with (Z.succ (Z.pred (Z.log2_up n))) by lia.
      rewrite Z.pow_succ_r; [lia |].
      assert (0 < Z.log2_up n) by (apply Z.log2_up_pos; lia). lia.
Qed.

Section StackMapAlloc.
Context `{Headers}.

Lemma attr_rejected_false (attr : bpf_attr) :
  attr_wf attr -> attr_rejected attr = false <-> attr_valid attr.
Proof.
  intros [Hk Hv Hm]. unfold attr_rejected.
  rewrite !orb_false_iff, !negb_false_iff, !Z.eqb_eq, Z.eqb_neq, !Z.ltb_ge.
  split.
  - intros ((((Hme & Hks) & Hvs) & Hmult) & Hdepth). split; auto; lia.
  - intros [Hme Hks Hvs Hmult Hdepth]. repeat split; auto; lia.
Qed.

(** The function, with its parts named. *)
Lemma stack_map_alloc_eq (capable kzalloc_ok vzalloc_ok : bool)
    (get_callchain_buffers : option errno) (attr : bpf_attr) :
  stack_map_alloc capable kzalloc_ok vzalloc_ok get_callchain_buffers attr
  = if negb capable then Err EPERM
    else if attr_rejected attr then Err EINVAL
    else if cost_limit <=? table_cost attr then Err E2BIG
    else if negb kzalloc_ok && negb vzalloc_ok then Err ENOMEM
    else if cost_limit <=? total_cost attr then Err E2BIG
    else
      match get_callchain_buffers with
      | Some err => Err err
      | None =>
          Ok {| map := {| map_type := attr_map_type attr;
                          key_size := attr_key_size attr;
                          value_size := attr_value_size attr;
                          max_entries := attr_max_entries attr |};
                n_buckets :=
                  u32 (u64 (roundup_pow_of_two (attr_max_entries attr)));
                buckets :=
                  replicate
                    (Z.to_nat (u64 (roundup_pow_of_two (attr_max_entries attr))))
                    None |}
      end.
Proof. reflexivity. Qed.

(** A table whose cost passes the first bound has fewer than [2 ^ 32]
    buckets: the count does not wrap on its way to the [u32] field. *)
Lemma bucket_count_fits (attr : bpf_attr) :
  headers_sane -> attr_wf attr -> 0 < attr_max_entries attr ->
  table_cost attr < cost_limit ->
  u64 (roundup_pow_of_two (attr_max_entries attr))
  = roundup_pow_of_two (attr_max_entries attr)
  /\ u32 (roundup_pow_of_two (attr_max_entries attr))
     = roundup_pow_of_two (attr_max_entries attr).
Proof.
  intros [Hptr Hsmap Hbucket Hpage _] [_ _ Hme] Hpos Hcost.
  destruct (roundup_pow_of_two_spec (attr_max_entries attr) Hpos)
    as [_ [Hlow Hup]].
  assert (Hu64 : u64 (roundup_pow_of_two (attr_max_entries attr))
                 = roundup_pow_of_two (attr_max_entries attr))
    by (apply u64_small; lia).
  split; [exact Hu64 |].
  unfold table_cost, cost_limit in Hcost. rewrite Hu64 in Hcost.
  rewrite (u64_small (U32_MAX - PAGE_SIZE)) in Hcost by (unfold U32_MAX in *; lia).
  rewrite u64_small in Hcost by nia.
  apply u32_small. unfold U32_MAX in *. nia.
Qed.

(** What a successful creation went through, and the map it made. *)
Lemma stack_map_alloc_ok_inv (capable kzalloc_ok vzalloc_ok : bool)
    (get_callchain_buffers : option errno) (attr : bpf_attr)
    (smap : bpf_stack_map) :
  attr_wf attr ->
  stack_map_alloc capable kzalloc_ok vzalloc_ok get_callchain_buffers attr
  = Ok smap ->
  attr_valid attr
  /\ table_cost attr < cost_limit
  /\ total_cost attr < cost_limit
  /\ n_buckets smap = u32 (u64 (roundup_pow_of_two (attr_max_entries attr)))
  /\ buckets smap
     = replicate (Z.to_nat (u64 (roundup_pow_of_two (attr_max_entries attr))))
         None
  /\ value_size (map smap) = attr_value_size attr.
Proof.
  intros Hattr. rewrite stack_map_alloc_eq.
  destruct capable; cbn [negb]; [| discriminate].
  destruct (attr_rejected attr) eqn:Hrej; [discriminate |].
  destruct (Z.leb_spec cost_limit (table_cost attr)) as [| Htable];
    [discriminate |].
  destruct (negb kzalloc_ok && negb vzalloc_ok); [discriminate |].
  destruct (Z.leb_spec cost_limit (total_cost attr)) as [| Htotal];
    [discriminate |].
  destruct get_callchain_buffers; [discriminate |].
  intros Hok. injection Hok as <-. cbn [n_buckets buckets map value_size].
  split; [apply attr_rejected_false; assumption | auto].
Qed.

(** C6: creation succeeds only for attributes the specification allows,
    and then the map has [max_entries] rounded up to a power of two many
    buckets, all empty; attributes it does not allow give [-EINVAL] to a
    caller that has the capability the function asks first; a table too
    large for the bound gives [-E2BIG], at the first cost check or, once the
    table is allocated, at the second. *)
Theorem stack_map_alloc_checks (capable kzalloc_ok vzalloc_ok : bool)
    (get_callchain_buffers : option errno) (attr : bpf_attr) :
  headers_sane ->
  attr_wf attr ->
  let created :=
    stack_map_alloc capable kzalloc_ok vzalloc_ok get_callchain_buffers attr in
  (forall smap, created = Ok smap ->
     attr_valid attr
     /\ n_buckets smap = roundup_pow_of_two (attr_max_entries attr)
     /\ (exists k, 0 <= k /\ n_buckets smap = 2 ^ k)
     /\ attr_max_entries attr <= n_buckets smap < 2 * attr_max_entries attr
     /\ buckets smap = replicate (Z.to_nat (n_buckets smap)) None
     /\ total_cost attr < cost_limit)
  /\ (capable = true -> ~ attr_valid attr ->
      created = Err EINVAL)
  /\ (capable = true -> attr_valid attr ->
      cost_limit <= table_cost attr -> created = Err E2BIG)
  /\ (capable = true -> attr_valid attr ->
      kzalloc_ok || vzalloc_ok = true ->
      cost_limit <= total_cost attr -> created = Err E2BIG).
Proof.
  intros Hsane Hattr created.
  pose proof (attr_rejected_false attr Hattr) as Hrej.
  split; [| subst created; rewrite stack_map_alloc_eq; split; [| split]].
  - intros smap Hok.
    destruct (stack_map_alloc_ok_inv _ _ _ _ _ _ Hattr Hok)
      as (Hvalid & Htable & Htotal & Hnb & Hbuckets & _).
    destruct (bucket_count_fits attr Hsane Hattr
                (valid_max_entries attr Hvalid) Htable) as [Hu64 Hu32].
    destruct (roundup_pow_of_two_spec (attr_max_entries attr)
                (valid_max_entries attr Hvalid)) as [[k [Hk Hpow]] [Hlow Hup]].
    rewrite Hu64 in Hnb, Hbuckets. rewrite Hu32 in Hnb.
    rewrite Hnb, Hbuckets.
    split; [exact Hvalid |]. split; [reflexivity |].
    split; [exists k; auto |]. split; [exact (conj Hlow Hup) |].
    split; [reflexivity | exact Htotal].
  - intros -> Hinvalid. cbn [negb].
    destruct (attr_rejected attr) eqn:Hr; [reflexivity |].
    exfalso. apply Hinvalid, Hrej. reflexivity.
  - intros -> Hvalid Hbig. cbn [negb].
    rewrite (proj2 Hrej Hvalid).
    destruct (Z.leb_spec cost_limit (table_cost attr)); [reflexivity | lia].
  - intros -> Hvalid Halloc Hbig. cbn [negb].
    rewrite (proj2 Hrej Hvalid).
    destruct (Z.leb_spec cost_limit (table_cost attr)); [reflexivity |].
    destruct kzalloc_ok, vzalloc_ok; try discriminate Halloc; cbn [negb andb];
      destruct (Z.leb_spec cost_limit (total_cost attr)); first [reflexivity | lia].
Qed.

End StackMapAlloc.

(** ** The dispatcher *)

Section DispatcherProperties.
Context {bpf_prog_array bpf_prog context : Type}.
Implicit Types (run : bpf_prog_array -> context -> Z * list bpf_prog).

(** C3: outside NMI context, when [bpf_prog_active] is not 0 on entry the
    dispatcher runs no program and returns 0, the value the kprobe handler
    reads as "filtered out"; and whatever the path (NMI, filtered, programs
    run and whatever they return), the counter, like the rest of the cpu
    state, is on return what it was on entry. *)
Theorem trace_call_bpf_guard run (in_nmi : bool) (prog_array : bpf_prog_array)
    (ctx : context) (cpu : cpu_state) :
  - 2 ^ 31 <= bpf_prog_active cpu < 2 ^ 31 ->
  let r := trace_call_bpf run in_nmi prog_array ctx cpu in
  (in_nmi = false -> bpf_prog_active cpu <> 0 ->
   ret_value r = 0 /\ programs_run r = []
   /\ kprobe_handler_action (ret_value r) = FilteredOut)
  /\ cpu_after r = cpu.
Proof.
  intros Hint r. subst r. unfold trace_call_bpf.
  destruct in_nmi.
  - split; [discriminate | reflexivity].
  - cbn [preempt_disable set_bpf_prog_active bpf_prog_active preempt_count].
    split.
    + intros _ Hactive.
      destruct (Z.eqb_spec (int32 (bpf_prog_active cpu + 1)) 1) as [Hone | _].
      * apply int32_succ_is_one in Hone; [contradiction | exact Hint].
      * cbn. auto.
    + destruct (if negb (int32 (bpf_prog_active cpu + 1) =? 1)
                then (0, [])
                else run prog_array ctx) as [ret ran].
      cbn [cpu_after preempt_enable set_bpf_prog_active bpf_prog_active
             preempt_count].
      rewrite int32_inc_dec by exact Hint.
      destruct cpu as [active count].
      unfold preempt_enable, set_bpf_prog_active, preempt_disable.
      cbn [bpf_prog_active preempt_count]. f_equal. lia.
Qed.

(** C8, amended: in NMI context the dispatcher returns at once, with the cpu
    state untouched and no program run, and the value it returns is 1, which
    the kprobe handler reads as "store the event into the ring buffer". *)
Theorem trace_call_bpf_in_nmi run (prog_array : bpf_prog_array)
    (ctx : context) (cpu : cpu_state) :
  let r := trace_call_bpf run true prog_array ctx cpu in
  ret_value r = 1
  /\ cpu_after r = cpu
  /\ programs_run r = []
  /\ kprobe_handler_action (ret_value r) = StoreEvent.
Proof. cbn. auto. Qed.

End DispatcherProperties.

(** A firing on a cpu that already runs a program: program 7 is attached
    and does not run. *)
Lemma trace_call_bpf_guard_witness :
  let r := trace_call_bpf Example.run_all false [7%nat] tt Example.busy_cpu in
  (ret_value r = 0 /\ programs_run r = []
   /\ kprobe_handler_action (ret_value r) = FilteredOut)
  /\ cpu_after r = Example.busy_cpu.
Proof.
  destruct (trace_call_bpf_guard Example.run_all false [7%nat] tt
              Example.busy_cpu) as [Hfiltered Hrestored].
  - cbn. lia.
  - split; [apply Hfiltered; [reflexivity | discriminate] | exact Hrestored].
Defined.

(** C8, as the claim states it, fails: the value returned in NMI context is
    not the one that stands for an event that is not recorded. *)
Lemma trace_call_bpf_in_nmi_records :
  kprobe_handler_action
    (ret_value (trace_call_bpf Example.run_all true [7%nat] tt Example.idle_cpu))
  <> FilteredOut.
Proof. discriminate. Qed.

(** ** bpf_perf_event_output *)

Section PerfEventOutput.
Context `{Headers}.

(** C5, amended: an index beyond the array gives [-E2BIG]; an empty slot
    gives [-ENOENT]; an event of another kind gives the invalid-argument
    code [-EINVAL]; an event of the right kind that lives on another cpu
    gives [-EOPNOTSUPP]; in all these cases nothing is handed to
    [perf_event_output].  Otherwise the payload is handed over, once, and
    the result is 0; so a payload is handed over only when every check
    passed. *)
Theorem perf_event_output_checks (smp_processor_id r1 : Z) (array : bpf_array)
    (index r4 size : Z) :
  let r := bpf_perf_event_output smp_processor_id r1 array index r4 size in
  (array_max_entries array <= index -> r = (Err E2BIG, []))
  /\ (index < array_max_entries array -> slot array index = None ->
      r = (Err ENOENT, []))
  /\ (forall file, index < array_max_entries array ->
      slot array index = Some file ->
      ~ is_bpf_output (private_data file) ->
      r = (Err EINVAL, []))
  /\ (forall file, index < array_max_entries array ->
      slot array index = Some file ->
      is_bpf_output (private_data file) ->
      oncpu (private_data file) <> smp_processor_id ->
      r = (Err EOPNOTSUPP, []))
  /\ (forall file, index < array_max_entries array ->
      slot array index = Some file ->
      is_bpf_output (private_data file) ->
      oncpu (private_data file) = smp_processor_id ->
      r = (Ok 0, [{| out_event := private_data file;
                     out_raw := {| raw_size := size; raw_data := r4 |};
                     out_regs := r1 |}]))
  /\ (snd r <> [] ->
      fst r = Ok 0
      /\ index < array_max_entries array
      /\ exists file, slot array index = Some file
           /\ is_bpf_output (private_data file)
           /\ oncpu (private_data file) = smp_processor_id).
Proof.
  intros r. subst r. unfold bpf_perf_event_output, slot, is_bpf_output.
  split; [| split; [| split; [| split; [| split]]]].
  - intros Hout.
    destruct (Z.leb_spec (array_max_entries array) index); [reflexivity | lia].
  - intros Hin Hslot.
    destruct (Z.leb_spec (array_max_entries array) index); [lia |].
    destruct (ptrs array !! Z.to_nat index) as [[file |] |];
      [discriminate Hslot | reflexivity | reflexivity].
  - intros file Hin Hslot Hkind.
    destruct (Z.leb_spec (array_max_entries array) index); [lia |].
    destruct (ptrs array !! Z.to_nat index) as [[file' |] |];
      [| discriminate Hslot | discriminate Hslot].
    injection Hslot as ->.
    destruct (Z.eqb_spec (attr_type (private_data file)) PERF_TYPE_SOFTWARE);
      destruct (Z.eqb_spec (attr_config (private_data file))
                  PERF_COUNT_SW_BPF_OUTPUT);
      cbn [negb orb]; try reflexivity.
    contradiction Hkind. split; assumption.
  - intros file Hin Hslot [Htype Hconfig] Hcpu.
    destruct (Z.leb_spec (array_max_entries array) index); [lia |].
    destruct (ptrs array !! Z.to_nat index) as [[file' |] |];
      [| discriminate Hslot | discriminate Hslot].
    injection Hslot as ->.
    apply Z.eqb_eq in Htype, Hconfig. apply Z.eqb_neq in Hcpu.
    rewrite Htype, Hconfig, Hcpu. reflexivity.
  - intros file Hin Hslot [Htype Hconfig] Hcpu.
    destruct (Z.leb_spec (array_max_entries array) index); [lia |].
    destruct (ptrs array !! Z.to_nat index) as [[file' |] |];
      [| discriminate Hslot | discriminate Hslot].
    injection Hslot as ->.
    apply Z.eqb_eq in Htype, Hconfig, Hcpu.
    rewrite Htype, Hconfig, Hcpu. reflexivity.
  - destruct (Z.leb_spec (array_max_entries array) index) as [| Hin];
      [intros Hsent; contradiction Hsent; reflexivity |].
    destruct (ptrs array !! Z.to_nat index) as [[file |] |];
      [| intros Hsent; contradiction Hsent; reflexivity
       | intros Hsent; contradiction Hsent; reflexivity].
    destruct (Z.eqb_spec (attr_type (private_data file)) PERF_TYPE_SOFTWARE);
      destruct (Z.eqb_spec (attr_config (private_data file))
                  PERF_COUNT_SW_BPF_OUTPUT);
      cbn [negb orb];
      try (intros Hsent; contradiction Hsent; reflexivity).
    destruct (Z.eqb_spec (oncpu (private_data file)) smp_processor_id);
      cbn [negb];
      [| intros Hsent; contradiction Hsent; reflexivity].
    intros _. split; [reflexivity |]. split; [exact Hin |].
    exists file. auto.
Qed.

End PerfEventOutput.

(** C5, as the claim states it, fails: emitting to slot 0 of the example
    array, which holds a hardware counter and not a [bpf_output] event,
    fails with [-EINVAL], the code that means "invalid argument" and not
    "unsupported". *)
Lemma perf_event_output_wrong_kind :
  fst (@bpf_perf_event_output Example.headers 0 0 Example.event_array 0 0 8)
  = Err EINVAL
  /\ ~ fails_with
        (fst (@bpf_perf_event_output Example.headers 0 0 Example.event_array
                0 0 8))
        Unsupported.
Proof.
  split; [reflexivity |].
  intros (e & Hcode & Hmeaning). vm_compute in Hcode.
  injection Hcode as <-. discriminate Hmeaning.
Qed.

(** ** bpf_trace_printk *)

Lemma percent_before_succ (fmt : list Z) (i : Z) :
  0 <= i ->
  percent_before fmt (i + 1)
  = percent_before fmt i + (if char_at fmt i =? chr "%" then 1 else 0).
Proof.
  intros Hi. unfold percent_before, char_at.
  replace (Z.to_nat (i + 1)) with (S (Z.to_nat i)) by lia.
  destruct (fmt !! Z.to_nat i) as [c |] eqn:Hc.
  - rewrite (take_S_r _ _ _ Hc), count_occ_app. cbn [count_occ].
    destruct (Z.eq_dec c (chr "%")) as [-> | Hne].
    + rewrite Z.eqb_refl. lia.
    + apply Z.eqb_neq in Hne. rewrite Hne. cbn. lia.
  - apply lookup_ge_None_1 in Hc. rewrite !take_ge by lia.
    change (0 =? chr "%") with false. lia.
Qed.

(** Characters that are not ['%'] do not count. *)
Lemma percent_before_skip (fmt : list Z) (a : Z) (n : nat) :
  0 <= a ->
  (forall p, a <= p < a + Z.of_nat n -> char_at fmt p <> chr "%") ->
  percent_before fmt (a + Z.of_nat n) = percent_before fmt a.
Proof.
  intros Ha. induction n as [| n IH]; intros Hskip.
  - f_equal. lia.
  - replace (a + Z.of_nat (S n)) with (a + Z.of_nat n + 1) by lia.
    rewrite percent_before_succ by lia.
    rewrite IH by (intros p Hp; apply Hskip; lia).
    assert (Hne : char_at fmt (a + Z.of_nat n) <> chr "%") by (apply Hskip; lia).
    apply Z.eqb_neq in Hne. rewrite Hne. lia.
Qed.

Lemma percent_before_nonneg (fmt : list Z) (i : Z) : 0 <= percent_before fmt i.
Proof. unfold percent_before. lia. Qed.

Section Printk.
Context `{Headers}.
Variables (unsafe_read : Z -> option (list Z)) (buf_addr : Z) (fmt : list Z).

Ltac st_simpl :=
  cbn [st_i st_fmt_cnt st_mod st_str_seen st_r3 st_r4 st_r5 st_buf st_probes
       set_i set_fmt_cnt incr_mod] in *.

Lemma same_data_refl (st : printk_state) : same_data st st.
Proof. unfold same_data. repeat split; reflexivity. Qed.

Lemma same_data_trans (st1 st2 st3 : printk_state) :
  same_data st1 st2 -> same_data st2 st3 -> same_data st1 st3.
Proof. unfold same_data. intuition congruence. Qed.

Lemma char_at_alter_ne (l : list Z) (k m : Z) :
  0 <= k -> 0 <= m -> m <> k ->
  char_at (alter Z.succ (Z.to_nat k) l) m = char_at l m.
Proof.
  intros Hk Hm Hne. unfold char_at.
  rewrite list_lookup_alter_ne by lia. reflexivity.
Qed.

Lemma char_at_alter_eq (l : list Z) (k : Z) :
  0 <= k < Z.of_nat (length l) ->
  char_at (alter Z.succ (Z.to_nat k) l) k = char_at l k + 1.
Proof.
  intros Hk. unfold char_at. rewrite list_lookup_alter_eq.
  destruct (l !! Z.to_nat k) as [c |] eqn:Hc; cbn [fmap option_fmap option_map];
    [lia |].
  apply lookup_ge_None_1 in Hc. lia.
Qed.

(** The conversion letters and the modifier are not ['%']. *)
Lemma letter_not_percent (c : Z) :
  c = chr "l" \/ c = chr "d" \/ c = chr "u" \/ c = chr "x"
  \/ c = chr "p" \/ c = chr "s" ->
  c <> chr "%".
Proof. intros [-> | [-> | [-> | [-> | [-> | ->]]]]]; discriminate. Qed.

(** What the tail of the body, from the second test of ['l'], does when it
    does not return. *)
Lemma integer_conversion_effect (st st1 : printk_state) :
  0 <= st_fmt_cnt st ->
  integer_conversion fmt st = Ok st1 ->
  st_i st <= st_i st1 <= st_i st + 1
  /\ (forall p, st_i st <= p <= st_i st1 -> char_at fmt p <> chr "%")
  /\ char_at fmt (st_i st) <> chr "s"
  /\ st_fmt_cnt st1 = st_fmt_cnt st + 1
  /\ length (st_mod st1) = length (st_mod st)
  /\ (forall m, 0 <= m -> m <> st_fmt_cnt st ->
      char_at (st_mod st1) m = char_at (st_mod st) m)
  /\ same_data st st1.
Proof.
  intros Hcnt. unfold integer_conversion.
  destruct (Z.eqb_spec (char_at fmt (st_i st)) (chr "l")) as [Hl | Hl].
  - set (c := char_at fmt (st_i (set_i (incr_mod st) (st_i st + 1)))).
    assert (Hc : c = char_at fmt (st_i st + 1)) by reflexivity.
    destruct (Z.eqb_spec c (chr "d")) as [Hd | Hd];
      [| destruct (Z.eqb_spec c (chr "u")) as [Hu | Hu];
         [| destruct (Z.eqb_spec c (chr "x")) as [Hx | Hx]]];
      cbn [negb andb]; try discriminate.
    all: intros [= <-]; st_simpl.
    all: split; [lia |].
    all: split;
      [intros p Hp; assert (Hcases : p = st_i st \/ p = st_i st + 1) by lia;
       destruct Hcases as [-> | ->]; apply letter_not_percent;
       rewrite <- ?Hc; auto 7 |].
    all: split; [rewrite Hl; discriminate |].
    all: split; [reflexivity |].
    all: split; [apply length_alter |].
    all: split; [intros m Hm Hne; apply char_at_alter_ne; assumption |].
    all: unfold same_data; st_simpl; repeat split; reflexivity.
  - set (c := char_at fmt (st_i st)) in *.
    destruct (Z.eqb_spec c (chr "d")) as [Hd | Hd];
      [| destruct (Z.eqb_spec c (chr "u")) as [Hu | Hu];
         [| destruct (Z.eqb_spec c (chr "x")) as [Hx | Hx]]];
      cbn [negb andb]; try discriminate.
    all: intros [= <-]; st_simpl.
    all: split; [lia |].
    all: split;
      [intros p Hp; assert (p = st_i st) as -> by lia;
       apply letter_not_percent; fold c; auto 7 |].
    all: split; [fold c; first [rewrite Hd | rewrite Hu | rewrite Hx]; discriminate |].
    all: split; [reflexivity |].
    all: split; [reflexivity |].
    all: split; [reflexivity |].
    all: unfold same_data; st_simpl; repeat split; reflexivity.
Qed.

(** What one iteration does when it does not return: how far it moves,
    over which characters, and what it writes. *)
Lemma printk_body_effect (st st1 : printk_state) :
  0 <= st_i st -> 0 <= st_fmt_cnt st ->
  printk_body unsafe_read buf_addr fmt st = Ok st1 ->
  st_i st <= st_i st1
  /\ (forall p, st_i st < p <= st_i st1 -> char_at fmt p <> chr "%")
  /\ st_fmt_cnt st1
     = st_fmt_cnt st + (if char_at fmt (st_i st) =? chr "%" then 1 else 0)
  /\ (char_at fmt (st_i st) = chr "%" -> st_fmt_cnt st < 3)
  /\ length (st_mod st1) = length (st_mod st)
  /\ (forall m, 0 <= m -> m <> st_fmt_cnt st ->
      char_at (st_mod st1) m = char_at (st_mod st) m)
  /\ (char_at fmt (st_i st) <> chr "%" -> st_mod st1 = st_mod st)
  /\ (char_at fmt (st_i st) = chr "%" ->
      char_at fmt (st_i st + 1) = chr "s" ->
      st_i st1 = st_i st + 1
      /\ st_str_seen st = false
      /\ st_mod st1 = alter Z.succ (Z.to_nat (st_fmt_cnt st)) (st_mod st)
      /\ string_substituted unsafe_read buf_addr (st_fmt_cnt st) st st1)
  /\ (~ (char_at fmt (st_i st) = chr "%"
         /\ char_at fmt (st_i st + 1) = chr "s") ->
      same_data st st1).
Proof.
  intros Hi Hcnt. unfold printk_body.
  destruct ((negb (isprint (char_at fmt (st_i st)))
             && negb (isspace (char_at fmt (st_i st))))
            || negb (isascii (char_at fmt (st_i st)))); [discriminate |].
  destruct (Z.eqb_spec (char_at fmt (st_i st)) (chr "%")) as [Hpct | Hpct];
    cbn [negb].
  2: { intros [= <-].
       split; [lia |]. split; [intros p Hp; lia |]. split; [lia |].
       split; [intros; contradiction |]. split; [reflexivity |].
       split; [reflexivity |]. split; [reflexivity |].
       split; [intros; contradiction |]. intros _. apply same_data_refl. }
  destruct (Z.leb_spec 3 (st_fmt_cnt st)) as [| Hcnt3]; [discriminate |].
  st_simpl.
  destruct (Z.eqb_spec (char_at fmt (st_i st + 1)) (chr "l")) as [Hl | Hl].
  { intros Hconv. apply integer_conversion_effect in Hconv; [| exact Hcnt].
    st_simpl.
    destruct Hconv as (Hmove & Hskip & _ & Hcnt1 & Hlen & Hmod & Hdata).
    split; [lia |].
    split; [intros p Hp; destruct (Z.eq_dec p (st_i st + 1)) as [-> | Hne];
            [rewrite Hl; discriminate | apply Hskip; lia] |].
    split; [lia |]. split; [intros; lia |].
    split; [rewrite Hlen; apply length_alter |].
    split; [intros m Hm Hne; rewrite Hmod by assumption;
            apply char_at_alter_ne; assumption |].
    split; [intros; contradiction |].
    split; [intros _ Hs; rewrite Hl in Hs; discriminate |].
    intros _. exact Hdata. }
  destruct (Z.eqb_spec (char_at fmt (st_i st + 1)) (chr "p")) as [Hp | Hp];
    destruct (Z.eqb_spec (char_at fmt (st_i st + 1)) (chr "s")) as [Hs | Hs];
    cbn [orb].
  - rewrite Hp in Hs. discriminate Hs.
  - (* %p *)
    destruct (negb (char_at fmt (st_i st + 1 + 1) =? 0)
              && negb (isspace (char_at fmt (st_i st + 1 + 1)))
              && negb (ispunct (char_at fmt (st_i st + 1 + 1))));
      [discriminate |].
    intros [= <-]. st_simpl.
    split; [lia |].
    split; [intros p Hrange; assert (p = st_i st + 1) as -> by lia;
            rewrite Hp; discriminate |].
    split; [lia |]. split; [intros; lia |].
    split; [apply length_alter |].
    split; [intros m Hm Hne; apply char_at_alter_ne; assumption |].
    split; [intros; contradiction |].
    split; [intros _ Hs'; contradiction |].
    intros _. unfold same_data. st_simpl. repeat split; reflexivity.
  - (* %s *)
    destruct (negb (char_at fmt (st_i st + 1 + 1) =? 0)
              && negb (isspace (char_at fmt (st_i st + 1 + 1)))
              && negb (ispunct (char_at fmt (st_i st + 1 + 1))));
      [discriminate |].
    destruct (st_str_seen st) eqn:Hseen; [discriminate |].
    intros [= <-]. unfold substitute_string. st_simpl.
    split; [lia |].
    split; [intros p Hrange; assert (p = st_i st + 1) as -> by lia;
            rewrite Hs; discriminate |].
    split; [lia |]. split; [intros; lia |].
    split; [apply length_alter |].
    split; [intros m Hm Hne; apply char_at_alter_ne; assumption |].
    split; [intros; contradiction |].
    split.
    + intros _ _. split; [reflexivity |]. split; [reflexivity |].
      split; [reflexivity |].
      split; st_simpl; unfold arg_at; try reflexivity.
      all: destruct (Z.eqb_spec (st_fmt_cnt st + 1) 1),
             (Z.eqb_spec (st_fmt_cnt st + 1) 2),
             (Z.eqb_spec (st_fmt_cnt st + 1) 3),
             (Z.eqb_spec (st_fmt_cnt st) 0),
             (Z.eqb_spec (st_fmt_cnt st) 1),
             (Z.eqb_spec (st_fmt_cnt st) 2); try lia; reflexivity.
    + intros Hnot. contradiction Hnot. auto.
  - (* an integer conversion without modifier *)
    intros Hconv. apply integer_conversion_effect in Hconv; [| exact Hcnt].
    st_simpl.
    destruct Hconv as (Hmove & Hskip & Hnots & Hcnt1 & Hlen & Hmod & Hdata).
    split; [lia |].
    split; [intros p Hrange; apply Hskip; lia |].
    split; [lia |]. split; [intros; lia |].
    split; [exact Hlen |].
    split; [exact Hmod |].
    split; [intros; contradiction |].
    split; [intros _ Hs'; contradiction |].
    intros _. exact Hdata.
Qed.

Lemma string_substituted_before (k : Z) (st0 st st1 : printk_state) :
  same_data st0 st ->
  string_substituted unsafe_read buf_addr k st st1 ->
  string_substituted unsafe_read buf_addr k st0 st1.
Proof.
  intros (_ & H3 & H4 & H5 & Hbuf & Hprobes) [Sseen S3 S4 S5 Sbuf Sprobes].
  split; rewrite <- ?H3, <- ?H4, <- ?H5, <- ?Hbuf, <- ?Hprobes; assumption.
Qed.

Lemma string_substituted_after (k : Z) (st0 st st1 : printk_state) :
  string_substituted unsafe_read buf_addr k st0 st ->
  same_data st st1 ->
  string_substituted unsafe_read buf_addr k st0 st1.
Proof.
  intros [Sseen S3 S4 S5 Sbuf Sprobes] (Hseen & H3 & H4 & H5 & Hbuf & Hprobes).
  split; congruence.
Qed.

Lemma same_data_set_i (i : Z) (st0 st : printk_state) :
  same_data st0 st -> same_data st0 (set_i st i).
Proof. intros Hdata. exact Hdata. Qed.

Lemma string_substituted_set_i (k i : Z) (st0 st : printk_state) :
  string_substituted unsafe_read buf_addr k st0 st ->
  string_substituted unsafe_read buf_addr k st0 (set_i st i).
Proof. intros [Sseen S3 S4 S5 Sbuf Sprobes]. split; assumption. Qed.

Section StringAt.
Variable j : Z.
Hypothesis Hj : 0 <= j.
Hypothesis Hpercent : char_at fmt j = chr "%".
Hypothesis Hstring : char_at fmt (j + 1) = chr "s".

(** One iteration and the [i++] of the loop keep the invariant, and move
    forward. *)
Lemma printk_inv_step (st0 st st1 : printk_state) :
  printk_inv unsafe_read buf_addr fmt j st0 st ->
  printk_body unsafe_read buf_addr fmt st = Ok st1 ->
  printk_inv unsafe_read buf_addr fmt j st0 (set_i st1 (st_i st1 + 1))
  /\ st_i st < st_i st1 + 1.
Proof.
  intros [Ii Icnt Icnt3 Ilen Izero Ibefore Iafter] Hbody.
  assert (Hcnt0 : 0 <= st_fmt_cnt st)
    by (rewrite Icnt; apply percent_before_nonneg).
  destruct (printk_body_effect st st1 Ii Hcnt0 Hbody)
    as (Hmove & Hskip & Hcnt1 & Hlt3 & Hlen & Hmod & Hmodsame & Hsubst & Hdata).
  assert (Hcount : percent_before fmt (st_i st1 + 1)
                   = percent_before fmt (st_i st)
                     + (if char_at fmt (st_i st) =? chr "%" then 1 else 0)).
  { rewrite <- percent_before_succ by exact Ii.
    replace (st_i st1 + 1)
      with (st_i st + 1 + Z.of_nat (Z.to_nat (st_i st1 - st_i st))) by lia.
    apply percent_before_skip; [lia |].
    intros p Hp. apply Hskip. lia. }
  assert (Hwhere : st_i st <= j -> j < st_i st1 + 1 -> st_i st = j).
  { intros Hle Hlt. destruct (Z.eq_dec (st_i st) j) as [| Hne]; [assumption |].
    exfalso. apply (Hskip j); [lia | exact Hpercent]. }
  split; [| lia].
  split; st_simpl.
  - lia.
  - rewrite Hcnt1, Hcount, Icnt. reflexivity.
  - destruct (Z.eqb_spec (char_at fmt (st_i st)) (chr "%")) as [Hpct | _];
      [specialize (Hlt3 Hpct) |]; lia.
  - rewrite Hlen. exact Ilen.
  - intros m Hm.
    destruct (Z.eqb_spec (char_at fmt (st_i st)) (chr "%")) as [Hpct | Hpct].
    + rewrite Hmod by lia. apply Izero. lia.
    + rewrite (Hmodsame Hpct). apply Izero. lia.
  - intros Hle Hseen. apply same_data_set_i.
    apply same_data_trans with st; [| apply Hdata].
    + apply Ibefore; [lia |].
      destruct (Hdata) as (Hseen' & _); [| congruence].
      intros [Hpct Hs]. destruct (Hsubst Hpct Hs) as (_ & _ & _ & [Sseen _ _ _ _ _]).
      congruence.
    + intros [Hpct Hs]. destruct (Hsubst Hpct Hs) as (_ & _ & _ & [Sseen _ _ _ _ _]).
      congruence.
  - intros Hlt.
    destruct (Z.le_gt_cases (st_i st) j) as [Hle | Hgt].
    + (* this iteration is the one at [j] *)
      pose proof (Hwhere Hle Hlt) as Heq. rewrite Heq in *.
      destruct (Hsubst Hpercent Hstring) as (Hnext & Hseen & Hmod1 & Hsub).
      rewrite Hpercent, Z.eqb_refl in Hcnt1.
      split; [lia |]. split; [lia |].
      split.
      * rewrite Hmod1, <- Icnt, char_at_alter_eq by lia.
        rewrite Izero by lia. reflexivity.
      * rewrite <- Icnt. apply string_substituted_set_i.
        apply string_substituted_before with st; [| exact Hsub].
        apply Ibefore; [lia | exact Hseen].
    + (* the iteration at [j] is past *)
      destruct (Iafter Hgt) as (Hj2 & Hk & Hone & Hsub).
      assert (Hnot : ~ (char_at fmt (st_i st) = chr "%"
                        /\ char_at fmt (st_i st + 1) = chr "s")).
      { intros [Hpct Hs]. destruct (Hsubst Hpct Hs) as (_ & Hseen & _).
        destruct Hsub as [Sseen _ _ _ _ _]. congruence. }
      split; [lia |].
      split; [destruct (char_at fmt (st_i st) =? chr "%"); lia |].
      split; [rewrite Hmod by (pose proof (percent_before_nonneg fmt j); lia);
              exact Hone |].
      apply string_substituted_set_i.
      apply string_substituted_after with st; [exact Hsub | exact (Hdata Hnot)].
Qed.

(** The loop keeps the invariant and, given the iterations it can need,
    ends at or past [fmt_size]. *)
Lemma printk_loop_inv (fmt_size : Z) (st0 : printk_state) (fuel : nat)
    (st st' : printk_state) :
  printk_inv unsafe_read buf_addr fmt j st0 st ->
  fmt_size - st_i st <= Z.of_nat fuel ->
  printk_loop unsafe_read buf_addr fmt fmt_size fuel st = Ok st' ->
  printk_inv unsafe_read buf_addr fmt j st0 st' /\ fmt_size <= st_i st'.
Proof.
  revert st. induction fuel as [| fuel IH]; intros st Hinv Hfuel; cbn [printk_loop].
  - intros [= <-]. split; [exact Hinv | lia].
  - destruct (Z.ltb_spec (st_i st) fmt_size) as [Hlt | Hge].
    + destruct (printk_body unsafe_read buf_addr fmt st) as [st1 | e] eqn:Hbody;
        [| discriminate].
      destruct (printk_inv_step st0 st st1 Hinv Hbody) as [Hinv1 Hmove].
      apply IH; [exact Hinv1 |]. st_simpl. lia.
    + intros [= <-]. split; [exact Hinv | lia].
Qed.

End StringAt.

(** Whether an iteration returns, and where the loop stands after it, does
    not depend on the arguments, the buffer or the memory. *)
Lemma integer_conversion_control (st st' : printk_state) :
  same_control st st' ->
  match integer_conversion fmt st, integer_conversion fmt st' with
  | Ok st1, Ok st1' => same_control st1 st1'
  | Err e, Err e' => e = e'
  | _, _ => False
  end.
Proof.
  destruct st as [i cnt md seen a3 a4 a5 buf probes].
  destruct st' as [i' cnt' md' seen' a3' a4' a5' buf' probes'].
  unfold same_control. st_simpl. intros (-> & -> & ->).
  unfold integer_conversion. st_simpl.
  destruct (char_at fmt i =? chr "l"); st_simpl;
    match goal with
    | |- context [if ?b then _ else _] => destruct b
    end;
    first [ reflexivity | repeat split; reflexivity ].
Qed.

Lemma printk_body_control (unsafe_read' : Z -> option (list Z)) (buf_addr' : Z)
    (st st' : printk_state) :
  same_control st st' ->
  match printk_body unsafe_read buf_addr fmt st,
        printk_body unsafe_read' buf_addr' fmt st' with
  | Ok st1, Ok st1' => same_control st1 st1'
  | Err e, Err e' => e = e'
  | _, _ => False
  end.
Proof.
  destruct st as [i cnt md seen a3 a4 a5 buf probes].
  destruct st' as [i' cnt' md' seen' a3' a4' a5' buf' probes'].
  unfold same_control. st_simpl. intros (-> & -> & ->).
  unfold printk_body. st_simpl.
  repeat match goal with
         | |- context [if ?b then _ else _] => destruct b; st_simpl
         end;
    first [ reflexivity
          | apply integer_conversion_control; repeat split; reflexivity
          | unfold substitute_string; st_simpl; repeat split; reflexivity ].
Qed.

Lemma printk_loop_control (unsafe_read' : Z -> option (list Z)) (buf_addr' : Z)
    (fmt_size : Z) (fuel : nat) (st st' : printk_state) :
  same_control st st' ->
  match printk_loop unsafe_read buf_addr fmt fmt_size fuel st,
        printk_loop unsafe_read' buf_addr' fmt fmt_size fuel st' with
  | Ok st1, Ok st1' => same_control st1 st1'
  | Err e, Err e' => e = e'
  | _, _ => False
  end.
Proof.
  revert st st'. induction fuel as [| fuel IH]; intros st st' Hctl;
    cbn [printk_loop]; [exact Hctl |].
  pose proof Hctl as (Hi & _ & _). rewrite Hi.
  destruct (st_i st <? fmt_size); [| exact Hctl].
  pose proof (printk_body_control unsafe_read' buf_addr' st st' Hctl) as Hbody.
  destruct (printk_body unsafe_read buf_addr fmt st) as [st1 | e];
    destruct (printk_body unsafe_read' buf_addr' fmt st') as [st1' | e'];
    try contradiction; [| exact Hbody].
  apply IH. destruct Hbody as (Hi1 & Hcnt1 & Hseen1).
  unfold same_control. st_simpl. rewrite Hi1. auto.
Qed.

End Printk.

(** [cstring] stops at the first NUL and holds none. *)
Lemma cstring_no_nul (buf : list Z) : Forall (fun c => c <> 0) (cstring buf).
Proof.
  induction buf as [| c rest IH]; cbn [cstring]; [constructor |].
  destruct (Z.eqb_spec c 0); [constructor | constructor; assumption].
Qed.

Lemma cstring_app_nul (s rest : list Z) :
  Forall (fun c => c <> 0) s -> cstring (s ++ 0 :: rest) = s.
Proof.
  induction 1 as [| c s Hc _ IH]; cbn [cstring app]; [reflexivity |].
  apply Z.eqb_neq in Hc. rewrite Hc, IH. reflexivity.
Qed.

(** A pointer survives the casts of line 150 and of the final call. *)
Lemma pointer_casts (p : Z) : 0 <= p < 2 ^ 64 -> u64 (long p) = p.
Proof.
  intros Hp. unfold u64, long.
  rewrite Zminus_mod_idemp_l.
  replace (p + 2 ^ 63 - 2 ^ 63) with p by lia.
  apply Z.mod_small. exact Hp.
Qed.

Section PrintkString.
Context `{Headers}.

(** Validity of a format is a matter of the format alone. *)
Lemma acceptance_independent (fmt : list Z) (fmt_size : Z) :
  accepted fmt fmt_size ->
  forall unsafe_read buf_addr buf0 r3 r4 r5,
  exists call,
    bpf_trace_printk unsafe_read buf_addr buf0 fmt fmt_size r3 r4 r5 = Ok call.
Proof.
  intros (read0 & addr0 & b0 & a3 & a4 & a5 & call0 & Hok0)
    unsafe_read buf_addr buf0 r3 r4 r5.
  unfold bpf_trace_printk in *.
  destruct (negb (char_at fmt (u64 (fmt_size - 1)) =? 0)); [discriminate |].
  match goal with
  | |- context [printk_loop unsafe_read buf_addr fmt ?size ?fuel ?st] =>
      match type of Hok0 with
      | context [printk_loop read0 addr0 fmt size fuel ?st0] =>
          pose proof (printk_loop_control unsafe_read buf_addr fmt read0 addr0
                        size fuel st st0) as Hctl
      end
  end.
  specialize (Hctl ltac:(repeat split; reflexivity)).
  destruct (printk_loop unsafe_read buf_addr fmt _ _ _) as [st |];
    destruct (printk_loop read0 addr0 fmt _ _ _) as [st' |];
    try contradiction; try discriminate.
  eexists. reflexivity.
Qed.

(** C7: in a valid format with ["%s"] at position [j], the argument of that
    conversion (the one after as many arguments as there are ['%'] before
    [j]) is passed as an address to [strncpy_from_unsafe] with the 64 bytes
    of [buf], and it is the only one; the call goes through to
    [__trace_printk] whatever the copy does, with the address of [buf] in
    place of the argument; when the copy faults, [buf] holds the empty
    string, and when it succeeds, the string read cut to 63 characters. *)
Theorem trace_printk_string_argument
    (unsafe_read : Z -> option (list Z)) (buf_addr : Z) (buf0 fmt : list Z)
    (fmt_size r3 r4 r5 j : Z) :
  accepted fmt fmt_size ->
  0 < fmt_size < 2 ^ 64 ->
  0 <= buf_addr < 2 ^ 64 ->
  length buf0 = 64%nat ->
  0 <= j < fmt_size - 1 ->
  char_at fmt j = chr "%" ->
  char_at fmt (j + 1) = chr "s" ->
  let k := percent_before fmt j in
  let unsafe_addr := arg_at k r3 r4 r5 in
  exists call,
    bpf_trace_printk unsafe_read buf_addr buf0 fmt fmt_size r3 r4 r5 = Ok call
    /\ tp_probes call = [(unsafe_addr, 64)]
    /\ arg_at k (tp_arg1 call) (tp_arg2 call) (tp_arg3 call) = buf_addr
    /\ (unsafe_read unsafe_addr = None -> cstring (tp_buf call) = [])
    /\ (forall s, unsafe_read unsafe_addr = Some s ->
        cstring (tp_buf call) = take 63 (cstring s)).
Proof.
  intros Hvalid Hsize Haddr Hbuf Hj Hpercent Hstring k unsafe_addr.
  destruct (acceptance_independent fmt fmt_size Hvalid unsafe_read buf_addr
              buf0 r3 r4 r5) as [call Hcall].
  exists call. split; [exact Hcall |].
  unfold bpf_trace_printk in Hcall.
  rewrite (u64_small (fmt_size - 1)) in Hcall by lia.
  destruct (negb (char_at fmt (fmt_size - 1) =? 0)); [discriminate |].
  set (st0 := {| st_i := 0; st_fmt_cnt := 0; st_mod := [0; 0; 0];
                 st_str_seen := false; st_r3 := r3; st_r4 := r4; st_r5 := r5;
                 st_buf := buf0; st_probes := [] |}) in Hcall.
  destruct (printk_loop unsafe_read buf_addr fmt (fmt_size - 1)
              (Z.to_nat (fmt_size - 1)) st0) as [st |] eqn:Hloop;
    [| discriminate].
  injection Hcall as <-.
  cbn [tp_probes tp_arg1 tp_arg2 tp_arg3 tp_buf].
  assert (Hinv0 : printk_inv unsafe_read buf_addr fmt j st0 st0).
  { split; unfold st0; cbn [st_i st_fmt_cnt st_mod st_str_seen].
    - lia.
    - reflexivity.
    - lia.
    - reflexivity.
    - intros m Hm. unfold char_at.
      destruct (Z.to_nat m) as [| [| [| n]]]; reflexivity.
    - intros _ _. repeat split; reflexivity.
    - intros Hlt. lia. }
  assert (Hfuel : fmt_size - 1 - st_i st0
                  <= Z.of_nat (Z.to_nat (fmt_size - 1)))
    by (unfold st0; cbn [st_i]; lia).
  destruct (printk_loop_inv unsafe_read buf_addr fmt j (proj1 Hj) Hpercent
              Hstring (fmt_size - 1) st0 _ st0 st Hinv0 Hfuel Hloop)
    as [Hinv Hend].
  destruct Hinv as [_ _ Icnt3 _ _ _ Iafter].
  destruct (Iafter ltac:(lia)) as (_ & Hk & Hone & [_ S3 S4 S5 Sbuf Sprobes]).
  fold k in Hk, Hone, S3, S4, S5, Sbuf, Sprobes.
  unfold st0 in S3, S4, S5, Sbuf, Sprobes.
  cbn [st_r3 st_r4 st_r5 st_buf st_probes app] in S3, S4, S5, Sbuf, Sprobes.
  fold unsafe_addr in Sbuf, Sprobes.
  pose proof (percent_before_nonneg fmt j) as Hk0. fold k in Hk0.
  split; [exact Sprobes |].
  split.
  - clearbody unsafe_addr k.
    assert (Hcases : k = 0 \/ k = 1 \/ k = 2) by lia.
    unfold arg_at.
    destruct Hcases as [-> | [-> | ->]];
      cbn [Z.eqb Pos.eqb] in S3, S4, S5 |- *;
      rewrite Hone; first [rewrite S3 | rewrite S4 | rewrite S5];
      unfold printk_arg; cbn [Z.eqb Pos.eqb];
      rewrite !(pointer_casts buf_addr Haddr); reflexivity.
  - rewrite Sbuf. unfold strncpy_from_unsafe. split.
    + intros ->. destruct buf0 as [| c rest]; [discriminate Hbuf | reflexivity].
    + intros s ->. change (Z.to_nat (64 - 1)) with 63%nat.
      apply cstring_app_nul. apply Forall_take, cstring_no_nul.
Qed.

End PrintkString.

(** ** The stack map: what creation and insertion keep *)

Section Padding.
Context `{Headers}.

(** A map fresh from creation has no entry, so only padded ones. *)
Lemma stack_map_alloc_padded (capable kzalloc_ok vzalloc_ok : bool)
    (get_callchain_buffers : option errno) (attr : bpf_attr)
    (smap : bpf_stack_map) :
  attr_wf attr ->
  stack_map_alloc capable kzalloc_ok vzalloc_ok get_callchain_buffers attr
  = Ok smap ->
  entries_padded smap.
Proof.
  intros Hattr Hok.
  destruct (stack_map_alloc_ok_inv _ _ _ _ _ _ Hattr Hok)
    as (_ & _ & _ & _ & Hbuckets & _).
  intros id b. unfold bucket_at. rewrite Hbuckets.
  destruct (replicate _ None !! Z.to_nat id) as [slot |] eqn:Hslot;
    [| discriminate].
  apply lookup_replicate_1 in Hslot as [-> _]. discriminate.
Qed.

Lemma new_entry_padded (smap : bpf_stack_map) (flags : Z)
    (trace : perf_callchain_entry) :
  smap_wf smap ->
  entry_wf (init_nr smap) trace ->
  skip flags < u32 (entry_nr trace - init_nr smap) ->
  entry_padded smap (new_entry smap flags trace).
Proof.
  intros Hsmap Htrace Hskip.
  pose proof (frames_length smap flags trace Hsmap Htrace Hskip) as Hflen.
  destruct (capture_arith smap flags trace Hsmap Htrace Hskip)
    as (Hmd & _ & _ & Hbound & _ & Hpad).
  unfold entry_padded, new_entry. cbn [ip nr]. rewrite Hpad, <- Hmd.
  split; [| split].
  - rewrite length_app, length_replicate, Hflen. lia.
  - lia.
  - rewrite drop_app_length' by (symmetry; exact Hflen). reflexivity.
Qed.

(** [bpf_get_stackid] keeps the entries padded. *)
Lemma get_stackid_padded
    (get_perf_callchain : Z -> bool -> bool -> option perf_callchain_entry)
    (kmalloc_ok : bool) (smap : bpf_stack_map) (flags : Z) :
  smap_wf smap ->
  (forall trace,
     get_perf_callchain (init_nr smap) (negb (user flags)) (user flags)
     = Some trace -> entry_wf (init_nr smap) trace) ->
  entries_padded smap ->
  entries_padded
    (smap_after (bpf_get_stackid get_perf_callchain kmalloc_ok smap flags)).
Proof.
  intros Hsmap Hwf Hpadded.
  destruct (returned (bpf_get_stackid get_perf_callchain kmalloc_ok smap flags))
    as [id | e] eqn:Hret.
  - destruct (get_stackid_ok_inv _ _ _ _ _ Hret)
      as (Hvalid & trace & Hcapture & Hskip).
    rewrite (get_stackid_on_capture _ kmalloc_ok smap flags trace Hvalid
               Hcapture Hskip).
    assert (Hstore :
              entries_padded (smap_after (store_new kmalloc_ok smap flags trace))).
    { unfold store_new. destruct kmalloc_ok; cbn [negb smap_after];
        [| exact Hpadded].
      intros id' b Hb. change (entry_padded smap b).
      revert Hb. unfold bucket_at, xchg_bucket. cbn [buckets].
      destruct (decide (Z.to_nat (trace_id smap flags trace) = Z.to_nat id'))
        as [Heq | Hne].
      - rewrite <- Heq.
        destruct (lookup_lt_is_Some_2 (buckets smap)
                    (Z.to_nat (trace_id smap flags trace))) as [old Hold].
        { pose proof (trace_id_bounds smap flags trace Hsmap).
          destruct Hsmap as [_ Hlen _ _ _ _]. lia. }
        rewrite list_lookup_insert_eq by (apply lookup_lt_Some in Hold; exact Hold).
        intros [= <-]. apply new_entry_padded; auto.
      - rewrite list_lookup_insert_ne by exact Hne. apply (Hpadded id' b). }
    destruct (bucket_at smap (trace_id smap flags trace)) as [b |];
      [| exact Hstore].
    destruct (same_trace smap flags trace b); [exact Hpadded |].
    destruct (Z.land flags BPF_F_REUSE_STACKID =? 0); [exact Hpadded | exact Hstore].
  - assert (Hsame : smap_after
                      (bpf_get_stackid get_perf_callchain kmalloc_ok smap flags)
                    = smap); [| rewrite Hsame; exact Hpadded].
    revert Hret. unfold bpf_get_stackid.
    repeat match goal with
           | |- context [if ?b then _ else _] => destruct b
           | |- context [match ?o with Some _ => _ | None => _ end] =>
               destruct o
           end; cbn [returned smap_after]; first [reflexivity | discriminate].
Qed.

(** The maps the hypotheses of this file speak of are those the code makes:
    creation gives a well-formed map and [bpf_get_stackid] keeps it so. *)
Lemma stack_map_alloc_wf (capable kzalloc_ok vzalloc_ok : bool)
    (get_callchain_buffers : option errno) (attr : bpf_attr)
    (smap : bpf_stack_map) :
  headers_sane -> attr_wf attr ->
  stack_map_alloc capable kzalloc_ok vzalloc_ok get_callchain_buffers attr
  = Ok smap ->
  smap_wf smap.
Proof.
  intros Hsane Hattr Hok.
  destruct (stack_map_alloc_ok_inv _ _ _ _ _ _ Hattr Hok)
    as (Hvalid & Htable & _ & Hnb & Hbuckets & Hvs).
  destruct Hvalid as [Hme Hks Hvs8 Hmult Hdepth].
  destruct (bucket_count_fits attr Hsane Hattr Hme Htable) as [Hu64 Hu32].
  destruct (roundup_pow_of_two_spec (attr_max_entries attr) Hme)
    as [_ [Hlow Hup]].
  rewrite Hu64 in Hnb, Hbuckets. rewrite Hu32 in Hnb.
  pose proof (u32_range (roundup_pow_of_two (attr_max_entries attr))) as Hfit.
  rewrite Hu32 in Hfit.
  destruct Hattr as [_ Hvs32 Hme32]. destruct Hsane as [_ _ _ _ Hmax].
  split; rewrite ?Hvs, ?Hnb, ?Hbuckets, ?length_replicate; try assumption; lia.
Qed.

Lemma get_stackid_wf
    (get_perf_callchain : Z -> bool -> bool -> option perf_callchain_entry)
    (kmalloc_ok : bool) (smap : bpf_stack_map) (flags : Z) :
  smap_wf smap ->
  smap_wf
    (smap_after (bpf_get_stackid get_perf_callchain kmalloc_ok smap flags)).
Proof.
  intros Hsmap. unfold bpf_get_stackid.
  repeat match goal with
         | |- context [if ?b then _ else _] => destruct b
         | |- context [match ?o with Some _ => _ | None => _ end] =>
             destruct o
         end; cbn [smap_after]; auto using xchg_bucket_wf.
Qed.

(** Deletion: an index out of range gives [-E2BIG], an empty bucket
    [-ENOENT]; an occupied bucket is emptied, its entry handed to
    [kfree_rcu], and a lookup of the index then finds nothing.  The map stays
    well-formed and its entries padded. *)
Lemma delete_elem_cases (smap : bpf_stack_map) (key : Z) :
  smap_wf smap ->
  match stack_map_delete_elem smap key with
  | (r, smap', freed) =>
      smap_wf smap'
      /\ (entries_padded smap -> entries_padded smap')
      /\ (n_buckets smap <= u32 key ->
          r = Err E2BIG /\ smap' = smap /\ freed = [])
      /\ (u32 key < n_buckets smap -> bucket_at smap (u32 key) = None ->
          r = Err ENOENT)
      /\ (forall old, u32 key < n_buckets smap ->
          bucket_at smap (u32 key) = Some old ->
          r = Ok tt /\ In (KfreeRcu old) freed
          /\ stack_map_lookup_elem smap' key = None)
  end.
Proof.
  intros Hsmap. unfold stack_map_delete_elem.
  pose proof (u32_range key) as Hkey.
  assert (Hkeep : forall id,
            entries_padded smap -> entries_padded (xchg_bucket smap id None)).
  { intros id Hpadded id' b Hb. change (entry_padded smap b).
    revert Hb. unfold bucket_at, xchg_bucket. cbn [buckets].
    destruct (decide (Z.to_nat id = Z.to_nat id')) as [Heq | Hne].
    - rewrite <- Heq.
      destruct (buckets smap !! Z.to_nat id) as [old |] eqn:Hold.
      + rewrite list_lookup_insert_eq by (apply lookup_lt_Some in Hold; exact Hold).
        discriminate.
      + rewrite list_insert_ge by (apply lookup_ge_None_1 in Hold; lia).
        rewrite Hold. discriminate.
    - rewrite list_lookup_insert_ne by exact Hne. apply (Hpadded id' b). }
  destruct (Z.leb_spec (n_buckets smap) (u32 key)) as [Hout | Hin].
  - split; [exact Hsmap |]. split; [auto |].
    split; [auto |]. split; intros; lia.
  - destruct (bucket_at smap (u32 key)) as [old |] eqn:Hold.
    + split; [apply xchg_bucket_wf; exact Hsmap |]. split; [apply Hkeep |].
      split; [intros; lia |]. split; [discriminate |].
      intros old' _ [= <-]. split; [reflexivity |].
      split; [right; left; reflexivity |].
      unfold stack_map_lookup_elem.
      change (n_buckets (xchg_bucket smap (u32 key) None)) with (n_buckets smap).
      destruct (Z.leb_spec (n_buckets smap) (u32 key)); [reflexivity |].
      rewrite bucket_at_xchg_eq by (auto; lia). reflexivity.
    + split; [apply xchg_bucket_wf; exact Hsmap |]. split; [apply Hkeep |].
      split; [intros; lia |]. split; [reflexivity |]. discriminate.
Qed.

End Padding.

(** ** The loop of bpf_trace_printk needs no more fuel than it is given *)

Section PrintkFuel.
Context `{Headers}.
Variables (unsafe_read : Z -> option (list Z)) (buf_addr : Z) (fmt : list Z).

Lemma printk_body_forward (st st1 : printk_state) :
  printk_body unsafe_read buf_addr fmt st = Ok st1 -> st_i st <= st_i st1.
Proof.
  destruct st as [i cnt md seen a3 a4 a5 buf probes].
  unfold printk_body, integer_conversion, substitute_string.
  cbn [st_i st_fmt_cnt st_mod st_str_seen st_r3 st_r4 st_r5 st_buf st_probes
       set_i set_fmt_cnt incr_mod].
  repeat match goal with
         | |- context [if ?b then _ else _] =>
             destruct b;
             cbn [st_i st_fmt_cnt st_mod st_str_seen st_r3 st_r4 st_r5 st_buf
                  st_probes set_i set_fmt_cnt incr_mod]
         end;
    first [ discriminate
          | intros [= <-]; cbn [st_i set_i set_fmt_cnt incr_mod]; lia ].
Qed.

(** Once the fuel covers the characters left, more fuel changes nothing:
    the loop is the one of the source, which runs until [i] reaches
    [fmt_size]. *)
Lemma printk_loop_fuel (fmt_size : Z) (fuel fuel' : nat) (st : printk_state) :
  fmt_size - st_i st <= Z.of_nat fuel ->
  (fuel <= fuel')%nat ->
  printk_loop unsafe_read buf_addr fmt fmt_size fuel' st
  = printk_loop unsafe_read buf_addr fmt fmt_size fuel st.
Proof.
  revert fuel' st. induction fuel as [| fuel IH]; intros fuel' st Hfuel Hle.
  - cbn [printk_loop]. destruct fuel' as [| fuel']; [reflexivity |].
    cbn [printk_loop].
    destruct (Z.ltb_spec (st_i st) fmt_size); [lia | reflexivity].
  - destruct fuel' as [| fuel']; [lia |]. cbn [printk_loop].
    destruct (Z.ltb_spec (st_i st) fmt_size); [| reflexivity].
    destruct (printk_body unsafe_read buf_addr fmt st) as [st1 | e] eqn:Hbody;
      [| reflexivity].
    apply printk_body_forward in Hbody.
    apply IH; [cbn [set_i st_i]; lia | lia].
Qed.

End PrintkFuel.

(** ** The theorems at concrete inputs *)

Ltac crunch :=
  vm_compute;
  first [ reflexivity | discriminate | lia
        | intros Hcontra; discriminate Hcontra ].

Lemma example_smap_wf : @smap_wf Example.headers Example.empty_smap.
Proof. split; crunch || (split; crunch). Defined.

Lemma example_one_entry_wf : @smap_wf Example.headers Example.one_entry_smap.
Proof. split; crunch || (split; crunch). Defined.

(** The example maps are the ones the code makes: creation from the example
    request, then the insertion of [11; 22; 33]. *)
Lemma example_maps_made :
  @stack_map_alloc Example.headers true true true None Example.attr
  = Ok Example.empty_smap
  /\ smap_after
       (@bpf_get_stackid Example.headers (Example.capture [11; 22; 33]) true
          Example.empty_smap 0)
     = Example.one_entry_smap.
Proof. split; reflexivity. Qed.

Lemma example_entry_wf (frames : list Z) :
  (length frames <= 8)%nat ->
  @entry_wf Example.headers 119 (Example.entry_of frames 119).
Proof.
  intros Hlen. split; cbn [Example.entry_of entry_nr entry_ip].
  - lia.
  - change (@PERF_MAX_STACK_DEPTH Example.headers) with 127. lia.
  - change (@PERF_MAX_STACK_DEPTH Example.headers) with 127.
    rewrite length_take, !length_app, !length_replicate. lia.
Defined.

(** The trace [11; 22; 33] inserted twice in the empty example map, the
    second time with no memory left: bucket 2 both times. *)
Lemma get_stackid_same_trace_twice_witness :
  let first :=
    @bpf_get_stackid Example.headers (Example.capture [11; 22; 33]) true
      Example.empty_smap 0 in
  let second :=
    @bpf_get_stackid Example.headers (Example.capture [11; 22; 33]) false
      (smap_after first) 0 in
  returned second = Ok 2
  /\ smap_after second = smap_after first
  /\ effects second = [GetPerfCallchain 119 true false].
Proof.
  apply (@get_stackid_same_trace_twice Example.headers
           (Example.capture [11; 22; 33]) true false Example.empty_smap 0 2).
  - exact example_smap_wf.
  - intros trace [= <-]. apply example_entry_wf. vm_compute. lia.
  - reflexivity.
  - reflexivity.
  - reflexivity.
Defined.

(** The trace [11; 22; 37] meets [11; 22; 33] in bucket 2 and evicts it. *)
Lemma get_stackid_collision_witness :
  let r :=
    @bpf_get_stackid Example.headers (Example.capture [11; 22; 37]) true
      Example.one_entry_smap 1024 in
  returned r = Ok 2
  /\ stack_map_lookup_elem (smap_after r) 2 = Some [11; 22; 37; 0; 0; 0; 0; 0]
  /\ effects r
     = [GetPerfCallchain 119 true false; Kmalloc 88;
        Xchg 2 (Some {| hash := 70; nr := 3;
                        ip := [11; 22; 37; 0; 0; 0; 0; 0] |});
        KfreeRcu {| hash := 66; nr := 3;
                    ip := [11; 22; 33; 0; 0; 0; 0; 0] |}].
Proof.
  destruct (@get_stackid_collision Example.headers
              (Example.capture [11; 22; 37]) true Example.one_entry_smap 1024
              (Example.entry_of [11; 22; 37] 119)
              {| hash := 66; nr := 3; ip := [11; 22; 33; 0; 0; 0; 0; 0] |})
    as (_ & Hreuse & _).
  - exact example_one_entry_wf.
  - reflexivity.
  - reflexivity.
  - apply example_entry_wf. vm_compute. lia.
  - reflexivity.
  - reflexivity.
  - left. crunch.
  - destruct Hreuse as (Hret & _ & Heffects & Hlookup & _);
      [crunch | reflexivity |].
    split; [exact Hret |]. split; [exact Hlookup | exact Heffects].
Defined.

Lemma example_headers_sane : @headers_sane Example.headers.
Proof. split; crunch || (split; crunch). Defined.

Lemma example_attr_wf : attr_wf Example.attr.
Proof. split; crunch || (split; crunch). Defined.

(** Creation for three entries of 64 bytes gives the example map of four
    buckets. *)
Lemma stack_map_alloc_checks_witness :
  @attr_valid Example.headers Example.attr
  /\ n_buckets Example.empty_smap = roundup_pow_of_two 3
  /\ (exists k, 0 <= k /\ n_buckets Example.empty_smap = 2 ^ k)
  /\ 3 <= n_buckets Example.empty_smap < 2 * 3
  /\ buckets Example.empty_smap = replicate 4 None
  /\ @total_cost Example.headers Example.attr < @cost_limit Example.headers.
Proof.
  destruct (@stack_map_alloc_checks Example.headers true true true None
              Example.attr example_headers_sane example_attr_wf)
    as (Hcreated & _).
  apply (Hcreated Example.empty_smap). reflexivity.
Defined.

(** Looking up the occupied bucket 2, the empty bucket 0 and the index 4 of
    the map that creation and one insertion produce. *)
Lemma lookup_elem_cases_witness :
  stack_map_lookup_elem Example.one_entry_smap 2
  = Some [11; 22; 33; 0; 0; 0; 0; 0]
  /\ stack_map_lookup_elem Example.one_entry_smap 0 = None
  /\ stack_map_lookup_elem Example.one_entry_smap 4 = None.
Proof.
  split; [| split].
  - destruct (lookup_elem_cases Example.one_entry_smap 2) as (_ & _ & Hocc).
    apply (Hocc {| hash := 66; nr := 3; ip := [11; 22; 33; 0; 0; 0; 0; 0] |});
      crunch.
  - destruct (lookup_elem_cases Example.one_entry_smap 0) as (_ & Hempty & _).
    apply Hempty; crunch.
  - destruct (lookup_elem_cases Example.one_entry_smap 4) as (Hout & _).
    apply Hout. crunch.
Defined.

(** Emitting to the [bpf_output] event of slot 1 from its cpu. *)
Lemma perf_event_output_checks_witness :
  @bpf_perf_event_output Example.headers 0 77 Example.event_array 1 4096 8
  = (Ok 0, [{| out_event := Example.output_event;
               out_raw := {| raw_size := 8; raw_data := 4096 |};
               out_regs := 77 |}]).
Proof.
  destruct (@perf_event_output_checks Example.headers 0 77 Example.event_array
              1 4096 8) as (_ & _ & _ & _ & Hsent & _).
  apply (Hsent {| private_data := Example.output_event |});
    [crunch | reflexivity | split; reflexivity | reflexivity].
Defined.

(** ["%d %s"] with a string argument at an unreadable address: the call
    reaches [__trace_printk] with the address of [buf], which holds the
    empty string. *)
Lemma trace_printk_string_argument_witness :
  exists call,
    @bpf_trace_printk Example.headers (fun _ => None) 1000
      Example.stack_garbage Example.fmt_d_s 6 100 200 300 = Ok call
    /\ tp_probes call = [(200, 64)]
    /\ tp_arg2 call = 1000
    /\ cstring (tp_buf call) = [].
Proof.
  destruct (@trace_printk_string_argument Example.headers (fun _ => None) 1000
              Example.stack_garbage Example.fmt_d_s 6 100 200 300 3)
    as (call & Hcall & Hprobes & Harg & Hfault & _).
  - exists (fun _ => None), 0, [], 0, 0, 0. eexists. vm_compute. reflexivity.
  - lia.
  - lia.
  - reflexivity.
  - lia.
  - reflexivity.
  - reflexivity.
  - exists call. split; [exact Hcall |]. split; [exact Hprobes |].
    split; [exact Harg | apply Hfault; reflexivity].
Defined.

(** * Further properties *)

Import StackMapLife PrintkFormat BpfTraceMore.

(** * Further properties of the stack map *)

Section StackIdOutcomes.
Context `{Headers}.

Lemma trace_id_nonneg (smap : bpf_stack_map) (flags : Z)
    (trace : perf_callchain_entry) :
  0 <= trace_id smap flags trace.
Proof.
  unfold trace_id.
  pose proof (u32_range (n_buckets smap - 1)).
  pose proof (land_mask_bounds (trace_hash smap flags trace)
                (u32 (n_buckets smap - 1))). lia.
Qed.

Lemma get_stackid_outcome
    (get_perf_callchain : Z -> bool -> bool -> option perf_callchain_entry)
    (kmalloc_ok : bool) (smap : bpf_stack_map) (flags : Z) :
  stackid_outcome get_perf_callchain kmalloc_ok smap flags
    (bpf_get_stackid get_perf_callchain kmalloc_ok smap flags).
Proof.
  destruct (Z.eq_dec (Z.land flags (lnot64 known_flags)) 0) as [Hvalid | Hbad].
  2: { unfold bpf_get_stackid. fold known_flags.
       destruct (Z.eqb_spec (Z.land flags (lnot64 known_flags)) 0);
         [contradiction |]. cbn [negb]. constructor. exact Hbad. }
  destruct (get_perf_callchain (init_nr smap) (negb (user flags)) (user flags))
    as [trace |] eqn:Hcapture.
  2: { unfold bpf_get_stackid. fold known_flags.
       fold (max_depth smap). fold (init_nr smap). fold (user flags).
       rewrite Hvalid, Hcapture. cbn [Z.eqb negb].
       apply NoCapture; assumption. }
  destruct (Z.le_gt_cases (u32 (entry_nr trace - init_nr smap)) (skip flags))
    as [Hle | Hskip].
  { unfold bpf_get_stackid. fold known_flags.
    fold (max_depth smap). fold (init_nr smap). fold (user flags).
    fold (skip flags).
    rewrite Hvalid, Hcapture. cbn [Z.eqb negb].
    destruct (Z.leb_spec (u32 (entry_nr trace - init_nr smap)) (skip flags));
      [| lia].
    apply (AllSkipped _ _ _ _ trace); assumption. }
  rewrite (get_stackid_on_capture _ _ _ _ trace Hvalid Hcapture Hskip).
  destruct (bucket_at smap (trace_id smap flags trace)) as [b |] eqn:Hbucket.
  - destruct (same_trace smap flags trace b) eqn:Hsame.
    + apply (Found _ _ _ _ trace b); assumption.
    + destruct (Z.eqb_spec (Z.land flags BPF_F_REUSE_STACKID) 0) as [Hr | Hr].
      * apply (Occupied _ _ _ _ trace b); assumption.
      * apply (Stored _ _ _ _ trace); try assumption.
        intros b' Hb'. rewrite Hbucket in Hb'. injection Hb' as <-. auto.
  - apply (Stored _ _ _ _ trace); try assumption.
    intros b' Hb'. rewrite Hbucket in Hb'. discriminate.
Qed.

End StackIdOutcomes.

Section StackIdFrame.
Context `{Headers}.

Lemma lookup_elem_in_range (smap : bpf_stack_map) (id : Z) :
  0 <= id < n_buckets smap -> n_buckets smap < 2 ^ 32 ->
  stack_map_lookup_elem smap id
  = match bucket_at smap id with Some b => Some (ip b) | None => None end.
Proof.
  intros Hid Hn. unfold stack_map_lookup_elem.
  rewrite (u32_small id) by lia.
  destruct (Z.leb_spec (n_buckets smap) id); [lia | reflexivity].
Qed.

(** What a call that returns an index leaves in that bucket: the entry that
    was there and passed the test, or the one the call built. *)
Lemma get_stackid_ok_bucket
    (get_perf_callchain : Z -> bool -> bool -> option perf_callchain_entry)
    (kmalloc_ok : bool) (smap : bpf_stack_map) (flags id : Z) :
  smap_wf smap ->
  returned (bpf_get_stackid get_perf_callchain kmalloc_ok smap flags) = Ok id ->
  0 <= id < n_buckets smap
  /\ Z.land flags (lnot64 known_flags) = 0
  /\ exists trace,
       get_perf_callchain (init_nr smap) (negb (user flags)) (user flags)
       = Some trace
       /\ skip flags < u32 (entry_nr trace - init_nr smap)
       /\ id = trace_id smap flags trace
       /\ ((exists b, bucket_at smap id = Some b
                      /\ same_trace smap flags trace b = true
                      /\ bpf_get_stackid get_perf_callchain kmalloc_ok smap flags
                         = {| returned := Ok id; smap_after := smap;
                              effects := [capture_call smap flags] |})
           \/ (kmalloc_ok = true
               /\ bpf_get_stackid get_perf_callchain kmalloc_ok smap flags
                  = store_new true smap flags trace
               /\ bucket_at (xchg_bucket smap id
                               (Some (new_entry smap flags trace))) id
                  = Some (new_entry smap flags trace))).
Proof.
  intros Hsmap Hret.
  pose proof (get_stackid_outcome get_perf_callchain kmalloc_ok smap flags)
    as Hout.
  remember (bpf_get_stackid get_perf_callchain kmalloc_ok smap flags) as r.
  destruct Hout as [Hbad | Hvalid Hcap | trace Hvalid Hcap Hle
                    | trace b Hvalid Hcap Hskip Hb Hsame
                    | trace b Hvalid Hcap Hskip Hb Hsame Hreuse
                    | trace Hvalid Hcap Hskip Hb];
    cbn [returned] in Hret; try discriminate.
  - injection Hret as <-.
    split; [apply trace_id_bounds; assumption |]. split; [assumption |].
    exists trace. repeat (split; [assumption || reflexivity |]).
    left. exists b. auto.
  - unfold store_new in Hret. destruct kmalloc_ok; cbn [negb returned] in Hret;
      [| discriminate].
    injection Hret as <-.
    pose proof (trace_id_bounds smap flags trace Hsmap) as Hid.
    split; [assumption |]. split; [assumption |].
    exists trace. repeat (split; [assumption || reflexivity |]).
    right. split; [reflexivity |]. split; [reflexivity |].
    apply bucket_at_xchg_eq; assumption.
Qed.

(** X1: an index that [bpf_get_stackid] returns designates a bucket of the
    map, and after the call that bucket holds an entry: looking the index up
    finds a trace. *)
Theorem get_stackid_index_occupied
    (get_perf_callchain : Z -> bool -> bool -> option perf_callchain_entry)
    (kmalloc_ok : bool) (smap : bpf_stack_map) (flags id : Z) :
  smap_wf smap ->
  returned (bpf_get_stackid get_perf_callchain kmalloc_ok smap flags) = Ok id ->
  0 <= id < n_buckets smap
  /\ exists ips,
       stack_map_lookup_elem
         (smap_after (bpf_get_stackid get_perf_callchain kmalloc_ok smap flags))
         id = Some ips.
Proof.
  intros Hsmap Hret.
  destruct (get_stackid_ok_bucket _ _ _ _ _ Hsmap Hret)
    as (Hid & _ & trace & _ & _ & _ & [(b & Hb & _ & Hr) | (_ & Hr & Hb)]);
    (split; [exact Hid |]); rewrite Hr.
  - exists (ip b). cbn [smap_after].
    rewrite lookup_elem_in_range by (destruct Hsmap; lia). rewrite Hb.
    reflexivity.
  - exists (ip (new_entry smap flags trace)).
    unfold store_new. cbn [negb smap_after].
    replace (trace_id smap flags trace) with id
      by (rewrite Hr in Hret; unfold store_new in Hret; cbn in Hret;
          congruence).
    rewrite lookup_elem_in_range
      by (cbn [xchg_bucket n_buckets]; destruct Hsmap; lia).
    rewrite Hb. reflexivity.
Qed.

(** X2: a call of [bpf_get_stackid] that returns an error has put nothing
    into the map and freed nothing: the map is the one it was given.  The
    error is one of -EINVAL, -EFAULT, -EEXIST and -ENOMEM. *)
Theorem get_stackid_error_changes_nothing
    (get_perf_callchain : Z -> bool -> bool -> option perf_callchain_entry)
    (kmalloc_ok : bool) (smap : bpf_stack_map) (flags : Z) (e : errno) :
  returned (bpf_get_stackid get_perf_callchain kmalloc_ok smap flags) = Err e ->
  smap_after (bpf_get_stackid get_perf_callchain kmalloc_ok smap flags) = smap
  /\ stored_by
       (effects (bpf_get_stackid get_perf_callchain kmalloc_ok smap flags)) = []
  /\ freed_by
       (effects (bpf_get_stackid get_perf_callchain kmalloc_ok smap flags)) = []
  /\ (e = EINVAL \/ e = EFAULT \/ e = EEXIST \/ e = ENOMEM).
Proof.
  intros Hret.
  pose proof (get_stackid_outcome get_perf_callchain kmalloc_ok smap flags)
    as Hout.
  remember (bpf_get_stackid get_perf_callchain kmalloc_ok smap flags) as r.
  destruct Hout; cbn [returned smap_after effects] in Hret |- *;
    try discriminate; try (injection Hret as <-; auto 10).
  unfold store_new in Hret |- *.
  destruct kmalloc_ok; cbn [negb returned smap_after effects] in Hret |- *;
    [discriminate |].
  injection Hret as <-. auto 10.
Qed.

(** X3: a call of [bpf_get_stackid] changes no bucket but the one whose
    index it returns: a lookup of any other key finds after the call what it
    found before.  The map's attributes and the number of buckets never
    change. *)
Theorem get_stackid_other_keys
    (get_perf_callchain : Z -> bool -> bool -> option perf_callchain_entry)
    (kmalloc_ok : bool) (smap : bpf_stack_map) (flags key : Z) :
  returned (bpf_get_stackid get_perf_callchain kmalloc_ok smap flags)
  <> Ok (u32 key) ->
  stack_map_lookup_elem
    (smap_after (bpf_get_stackid get_perf_callchain kmalloc_ok smap flags)) key
  = stack_map_lookup_elem smap key
  /\ map (smap_after (bpf_get_stackid get_perf_callchain kmalloc_ok smap flags))
     = map smap
  /\ n_buckets
       (smap_after (bpf_get_stackid get_perf_callchain kmalloc_ok smap flags))
     = n_buckets smap.
Proof.
  intros Hret.
  pose proof (get_stackid_outcome get_perf_callchain kmalloc_ok smap flags)
    as Hout.
  remember (bpf_get_stackid get_perf_callchain kmalloc_ok smap flags) as r.
  destruct Hout; cbn [returned smap_after effects] in Hret |- *; auto.
  unfold store_new in Hret |- *.
  destruct kmalloc_ok; cbn [negb returned smap_after effects] in Hret |- *;
    auto.
  split; [| split; reflexivity].
  unfold stack_map_lookup_elem. cbn [xchg_bucket n_buckets].
  rewrite bucket_at_xchg_ne; [reflexivity | | |].
  - apply trace_id_nonneg.
  - apply u32_range.
  - congruence.
Qed.

End StackIdFrame.

Section StackIdRoundTrip.
Context `{Headers}.

(** An entry that passed the full comparison and is padded is the frames
    followed by zeros. *)
Lemma same_trace_padded_ip (smap : bpf_stack_map) (flags : Z)
    (trace : perf_callchain_entry) (b : stack_map_bucket) :
  smap_wf smap ->
  entry_wf (init_nr smap) trace ->
  skip flags < u32 (entry_nr trace - init_nr smap) ->
  Z.land flags BPF_F_FAST_STACK_CMP = 0 ->
  entry_padded smap b ->
  same_trace smap flags trace b = true ->
  ip b = ip (new_entry smap flags trace) /\ nr b = trace_nr smap flags trace
  /\ hash b = trace_hash smap flags trace.
Proof.
  intros Hsmap Htrace Hskip Hfast (Hlen & Hnr & Hpad) Hsame.
  destruct (capture_arith smap flags trace Hsmap Htrace Hskip)
    as (Hmd & _ & _ & Hbound & Hlen8 & Hzeros).
  unfold same_trace in Hsame. rewrite Hfast in Hsame.
  cbn [Z.eqb negb orb] in Hsame.
  apply andb_true_iff in Hsame as [Hhash Hsame].
  apply andb_true_iff in Hsame as [Hnrb Hbytes].
  apply Z.eqb_eq in Hhash, Hnrb. apply bool_decide_eq_true_1 in Hbytes.
  split; [| split; assumption].
  unfold new_entry. cbn [ip]. rewrite Hzeros, Hmd, <- Hnrb, <- Hpad, <- Hbytes.
  unfold read_bytes. rewrite Hlen8, <- Hnrb.
  replace (8 * nr b / 8) with (nr b) by (Z.div_mod_to_equations; lia).
  symmetry. apply take_drop.
Qed.

(** X4: insert, then look up.  On a map whose entries are padded, with the
    fast-compare bit clear, the index [bpf_get_stackid] returns leads
    [stack_map_lookup_elem] to the frames of the capture that follow the
    skipped ones, [entry_nr - init_nr - skip] of them, followed by zeros up
    to [value_size] bytes. *)
Theorem get_stackid_then_lookup
    (get_perf_callchain : Z -> bool -> bool -> option perf_callchain_entry)
    (kmalloc_ok : bool) (smap : bpf_stack_map) (flags id : Z) :
  smap_wf smap ->
  entries_padded smap ->
  (forall trace,
     get_perf_callchain (init_nr smap) (negb (user flags)) (user flags)
     = Some trace -> entry_wf (init_nr smap) trace) ->
  Z.land flags BPF_F_FAST_STACK_CMP = 0 ->
  returned (bpf_get_stackid get_perf_callchain kmalloc_ok smap flags) = Ok id ->
  exists trace,
    get_perf_callchain (init_nr smap) (negb (user flags)) (user flags)
    = Some trace
    /\ let kept := entry_nr trace - init_nr smap - skip flags in
       1 <= kept <= value_size (map smap) / 8
       /\ stack_map_lookup_elem
            (smap_after
               (bpf_get_stackid get_perf_callchain kmalloc_ok smap flags)) id
          = Some (take (Z.to_nat kept)
                       (drop (Z.to_nat (skip flags + init_nr smap))
                             (entry_ip trace))
                  ++ replicate
                       (Z.to_nat (value_size (map smap) / 8 - kept)) 0).
Proof.
  intros Hsmap Hpadded Hwf Hfast Hret.
  destruct (get_stackid_ok_bucket _ _ _ _ _ Hsmap Hret)
    as (Hid & _ & trace & Hcap & Hskip & Hidtrace & Hcases).
  pose proof (Hwf trace Hcap) as Htrace.
  destruct (capture_arith smap flags trace Hsmap Htrace Hskip)
    as (Hmd & _ & Hnr & Hbound & Hlen8 & Hzeros).
  exists trace. split; [exact Hcap |]. cbn zeta.
  split; [lia |].
  assert (Hnew : ip (new_entry smap flags trace)
                 = take (Z.to_nat (entry_nr trace - init_nr smap - skip flags))
                     (drop (Z.to_nat (skip flags + init_nr smap))
                        (entry_ip trace))
                   ++ replicate
                        (Z.to_nat (value_size (map smap) / 8
                                   - (entry_nr trace - init_nr smap
                                      - skip flags))) 0).
  { unfold new_entry. cbn [ip]. rewrite Hzeros, Hmd, <- Hnr.
    unfold frames, read_bytes. rewrite Hlen8.
    replace (8 * trace_nr smap flags trace / 8) with (trace_nr smap flags trace)
      by (Z.div_mod_to_equations; lia).
    reflexivity. }
  rewrite <- Hnew.
  destruct Hcases as [(b & Hb & Hsame & Hr) | (_ & Hr & Hb)]; rewrite Hr.
  - cbn [smap_after].
    rewrite lookup_elem_in_range by (destruct Hsmap; lia). rewrite Hb.
    f_equal.
    apply (same_trace_padded_ip smap flags trace b); try assumption.
    apply (Hpadded id). exact Hb.
  - unfold store_new. cbn [negb smap_after]. rewrite <- Hidtrace.
    rewrite lookup_elem_in_range
      by (cbn [xchg_bucket n_buckets]; destruct Hsmap; lia).
    rewrite Hb. reflexivity.
Qed.

(** X5: what the errors of [bpf_get_stackid] tell.  -EINVAL: a flag bit
    outside the four fields is set.  -EFAULT: no trace was captured, or the
    capture has no frame after the skipped ones.  -EEXIST: the bucket of the
    trace holds another trace and the reuse bit is clear.  -ENOMEM: the
    trace was to be stored and [kmalloc] returned no memory. *)
Theorem get_stackid_error_table
    (get_perf_callchain : Z -> bool -> bool -> option perf_callchain_entry)
    (kmalloc_ok : bool) (smap : bpf_stack_map) (flags : Z) :
  let r := bpf_get_stackid get_perf_callchain kmalloc_ok smap flags in
  let captured := get_perf_callchain (init_nr smap) (negb (user flags))
                    (user flags) in
  (returned r = Err EINVAL <-> Z.land flags (lnot64 known_flags) <> 0)
  /\ (returned r = Err EFAULT <->
      Z.land flags (lnot64 known_flags) = 0
      /\ forall trace, captured = Some trace ->
                       u32 (entry_nr trace - init_nr smap) <= skip flags)
  /\ (returned r = Err EEXIST <->
      Z.land flags (lnot64 known_flags) = 0
      /\ exists trace b,
           captured = Some trace
           /\ skip flags < u32 (entry_nr trace - init_nr smap)
           /\ bucket_at smap (trace_id smap flags trace) = Some b
           /\ same_trace smap flags trace b = false
           /\ Z.land flags BPF_F_REUSE_STACKID = 0)
  /\ (returned r = Err ENOMEM <->
      Z.land flags (lnot64 known_flags) = 0
      /\ kmalloc_ok = false
      /\ exists trace,
           captured = Some trace
           /\ skip flags < u32 (entry_nr trace - init_nr smap)
           /\ forall b, bucket_at smap (trace_id smap flags trace) = Some b ->
                        same_trace smap flags trace b = false
                        /\ Z.land flags BPF_F_REUSE_STACKID <> 0).
Proof.
  intros r captured. subst captured.
  pose proof (get_stackid_outcome get_perf_callchain kmalloc_ok smap flags)
    as Hout.
  fold r in Hout. clearbody r.
  destruct Hout as [Hbad | Hvalid Hcap | trace Hvalid Hcap Hle
                    | trace b Hvalid Hcap Hskip Hb Hsame
                    | trace b Hvalid Hcap Hskip Hb Hsame Hreuse
                    | trace Hvalid Hcap Hskip Hb];
    cbn [returned].
  - repeat split; try discriminate; try tauto;
      intros (Hv & _); contradiction.
  - repeat split; try discriminate; try tauto.
    + intros trace. rewrite Hcap. discriminate.
    + intros (_ & trace & b & Ht & _). rewrite Hcap in Ht. discriminate.
    + intros (_ & _ & trace & Ht & _). rewrite Hcap in Ht. discriminate.
  - repeat split; try discriminate; try tauto.
    + intros t. rewrite Hcap. intros [= <-]. exact Hle.
    + intros (_ & t & b & Ht & Hs & _). rewrite Hcap in Ht.
      injection Ht as <-. lia.
    + intros (_ & _ & t & Ht & Hs & _). rewrite Hcap in Ht.
      injection Ht as <-. lia.
  - repeat split; try discriminate; try tauto.
    + intros (_ & Hall). specialize (Hall trace Hcap). lia.
    + intros (_ & t & b' & Ht & _ & Hb' & Hs & _). rewrite Hcap in Ht.
      injection Ht as <-. congruence.
    + intros (_ & _ & t & Ht & _ & Hall). rewrite Hcap in Ht.
      injection Ht as <-. destruct (Hall b Hb). congruence.
  - repeat split; try discriminate; try tauto.
    + intros (_ & Hall). specialize (Hall trace Hcap). lia.
    + exists trace, b. auto.
    + intros (_ & _ & t & Ht & _ & Hall). rewrite Hcap in Ht.
      injection Ht as <-. destruct (Hall b Hb). contradiction.
  - unfold store_new.
    destruct kmalloc_ok; cbn [negb returned];
      repeat split; try discriminate; try tauto.
    + intros (_ & Hall). specialize (Hall trace Hcap). lia.
    + intros (_ & t & b' & Ht & _ & Hb' & Hs & Hr). rewrite Hcap in Ht.
      injection Ht as <-. destruct (Hb b' Hb'). contradiction.
    + intros (_ & Hk & _). discriminate.
    + intros (_ & Hall). specialize (Hall trace Hcap). lia.
    + intros (_ & t & b' & Ht & _ & Hb' & Hs & Hr). rewrite Hcap in Ht.
      injection Ht as <-. destruct (Hb b' Hb'). contradiction.
    + exists trace. auto.
Qed.

End StackIdRoundTrip.

Section StackIdIdentity.
Context `{Headers}.

(** X6: with the fast-compare bit set the digest alone identifies a trace.
    If the bucket of the captured trace holds an entry with the same digest,
    [bpf_get_stackid] returns the index whatever frames the entry holds; it
    stores nothing, and a lookup of the index gives the frames of that
    entry, not those captured. *)
Theorem get_stackid_fast_compare
    (get_perf_callchain : Z -> bool -> bool -> option perf_callchain_entry)
    (kmalloc_ok : bool) (smap : bpf_stack_map) (flags : Z)
    (trace : perf_callchain_entry) (b : stack_map_bucket) :
  smap_wf smap ->
  Z.land flags (lnot64 known_flags) = 0 ->
  get_perf_callchain (init_nr smap) (negb (user flags)) (user flags)
  = Some trace ->
  skip flags < u32 (entry_nr trace - init_nr smap) ->
  Z.land flags BPF_F_FAST_STACK_CMP <> 0 ->
  bucket_at smap (trace_id smap flags trace) = Some b ->
  hash b = trace_hash smap flags trace ->
  bpf_get_stackid get_perf_callchain kmalloc_ok smap flags
  = {| returned := Ok (trace_id smap flags trace); smap_after := smap;
       effects := [capture_call smap flags] |}
  /\ stack_map_lookup_elem smap (trace_id smap flags trace) = Some (ip b).
Proof.
  intros Hsmap Hvalid Hcap Hskip Hfast Hb Hhash.
  rewrite (get_stackid_on_capture _ _ _ _ trace Hvalid Hcap Hskip), Hb.
  unfold same_trace. rewrite Hhash, Z.eqb_refl.
  destruct (Z.eqb_spec (Z.land flags BPF_F_FAST_STACK_CMP) 0);
    [contradiction |].
  cbn [negb orb andb]. split; [reflexivity |].
  pose proof (trace_id_bounds smap flags trace Hsmap).
  rewrite lookup_elem_in_range by (destruct Hsmap; lia).
  rewrite Hb. reflexivity.
Qed.

(** The digest, the index and the entry built depend on the capture and the
    flags through the frames kept only. *)
Lemma same_frames_same_entry (smap : bpf_stack_map) (flags flags' : Z)
    (trace trace' : perf_callchain_entry) :
  smap_wf smap ->
  entry_wf (init_nr smap) trace ->
  entry_wf (init_nr smap) trace' ->
  skip flags < u32 (entry_nr trace - init_nr smap) ->
  skip flags' < u32 (entry_nr trace' - init_nr smap) ->
  frames smap flags trace = frames smap flags' trace' ->
  trace_nr smap flags trace = trace_nr smap flags' trace'
  /\ trace_len smap flags trace = trace_len smap flags' trace'
  /\ trace_hash smap flags trace = trace_hash smap flags' trace'
  /\ trace_id smap flags trace = trace_id smap flags' trace'
  /\ new_entry smap flags trace = new_entry smap flags' trace'.
Proof.
  intros Hsmap Ht Ht' Hskip Hskip' Hframes.
  pose proof (frames_length smap flags trace Hsmap Ht Hskip) as Hl.
  pose proof (frames_length smap flags' trace' Hsmap Ht' Hskip') as Hl'.
  destruct (capture_arith smap flags trace Hsmap Ht Hskip)
    as (_ & _ & _ & Hb & _ & _).
  destruct (capture_arith smap flags' trace' Hsmap Ht' Hskip')
    as (_ & _ & _ & Hb' & _ & _).
  assert (Hnr : trace_nr smap flags trace = trace_nr smap flags' trace').
  { rewrite Hframes in Hl. lia. }
  assert (Hlen : trace_len smap flags trace = trace_len smap flags' trace').
  { unfold trace_len. rewrite Hnr. reflexivity. }
  assert (Hhash : trace_hash smap flags trace = trace_hash smap flags' trace').
  { unfold trace_hash. rewrite Hframes, Hlen. reflexivity. }
  split; [exact Hnr |]. split; [exact Hlen |]. split; [exact Hhash |].
  split.
  - unfold trace_id. rewrite Hhash. reflexivity.
  - unfold new_entry. rewrite Hhash, Hnr, Hframes, Hlen. reflexivity.
Qed.

(** X7: a stored trace is recognised by its kept frames alone.  Once a call
    with the fast-compare bit clear has returned an index, any later call
    with known flags, whatever its skip count, its flags and its capture,
    that keeps the same frames returns the same index; it stores nothing and
    frees nothing, whether or not memory is available. *)
Theorem get_stackid_same_frames
    (capture capture' : Z -> bool -> bool -> option perf_callchain_entry)
    (kmalloc_ok kmalloc_ok' : bool) (smap : bpf_stack_map)
    (flags flags' id : Z) (trace trace' : perf_callchain_entry) :
  smap_wf smap ->
  Z.land flags BPF_F_FAST_STACK_CMP = 0 ->
  returned (bpf_get_stackid capture kmalloc_ok smap flags) = Ok id ->
  capture (init_nr smap) (negb (user flags)) (user flags) = Some trace ->
  entry_wf (init_nr smap) trace ->
  Z.land flags' (lnot64 known_flags) = 0 ->
  capture' (init_nr smap) (negb (user flags')) (user flags') = Some trace' ->
  entry_wf (init_nr smap) trace' ->
  skip flags' < u32 (entry_nr trace' - init_nr smap) ->
  frames smap flags' trace' = frames smap flags trace ->
  let smap1 := smap_after (bpf_get_stackid capture kmalloc_ok smap flags) in
  bpf_get_stackid capture' kmalloc_ok' smap1 flags'
  = {| returned := Ok id; smap_after := smap1;
       effects := [capture_call smap flags'] |}.
Proof.
  intros Hsmap Hfast Hret Hcap Ht Hvalid' Hcap' Ht' Hskip' Hframes smap1.
  destruct (get_stackid_ok_bucket _ _ _ _ _ Hsmap Hret)
    as (Hid & _ & trace0 & Hcap0 & Hskip & Hidtrace & Hcases).
  rewrite Hcap in Hcap0. injection Hcap0 as <-.
  destruct (same_frames_same_entry smap flags' flags trace' trace Hsmap Ht' Ht
              Hskip' Hskip Hframes) as (Hnr & Hlen & Hhash & Hident & Hnew).
  assert (Hviews : map smap1 = map smap /\ n_buckets smap1 = n_buckets smap
                   /\ exists b, bucket_at smap1 id = Some b
                                /\ same_trace smap flags trace b = true).
  { subst smap1.
    destruct Hcases as [(b & Hb & Hsame & Hr) | (_ & Hr & Hb)]; rewrite Hr.
    - cbn [smap_after]. eauto.
    - unfold store_new. cbn [negb smap_after]. rewrite <- Hidtrace.
      cbn [xchg_bucket map n_buckets].
      split; [reflexivity |]. split; [reflexivity |].
      exists (new_entry smap flags trace). split; [exact Hb |].
      apply same_trace_new_entry; assumption. }
  clearbody smap1. destruct Hviews as (Hmap & Hn & b & Hb & Hsame).
  assert (Hinit : init_nr smap1 = init_nr smap)
    by (unfold init_nr, max_depth; rewrite Hmap; reflexivity).
  assert (Hcc : capture_call smap1 flags' = capture_call smap flags')
    by (unfold capture_call; rewrite Hinit; reflexivity).
  assert (Hfr : frames smap1 flags' trace' = frames smap flags' trace')
    by (unfold frames, trace_len, trace_nr; rewrite Hinit; reflexivity).
  assert (Hnr1 : trace_nr smap1 flags' trace' = trace_nr smap flags' trace')
    by (unfold trace_nr; rewrite Hinit; reflexivity).
  assert (Hlen1 : trace_len smap1 flags' trace' = trace_len smap flags' trace')
    by (unfold trace_len; rewrite Hnr1; reflexivity).
  assert (Hh1 : trace_hash smap1 flags' trace' = trace_hash smap flags' trace')
    by (unfold trace_hash; rewrite Hfr, Hlen1; reflexivity).
  assert (Hid1 : trace_id smap1 flags' trace' = id).
  { unfold trace_id. rewrite Hh1, Hn. fold (trace_id smap flags' trace').
    congruence. }
  rewrite (get_stackid_on_capture capture' kmalloc_ok' smap1 flags' trace');
    [| assumption | rewrite Hinit; assumption | rewrite Hinit; assumption].
  rewrite Hid1, Hb, Hcc.
  replace (same_trace smap1 flags' trace' b) with true; [reflexivity |].
  symmetry. unfold same_trace in Hsame |- *.
  rewrite Hh1, Hnr1, Hlen1, Hfr, Hhash, Hnr, Hlen, Hframes.
  rewrite Hfast in Hsame. cbn [Z.eqb negb orb] in Hsame.
  apply andb_true_iff in Hsame as [-> ->]. cbn [andb].
  apply orb_true_r.
Qed.

End StackIdIdentity.

Section DeleteElem.

(** X8: [stack_map_delete_elem] empties the bucket of the key and no other:
    a lookup of the key afterwards finds nothing and a lookup of any other
    key finds what it found before.  It returns 0 exactly when a lookup of
    the key found a trace before the call, and then hands exactly that entry
    to [kfree_rcu]; otherwise it frees nothing.  A second deletion of the
    key never returns 0. *)
Theorem delete_elem_then_lookup (smap : bpf_stack_map) (key : Z) :
  match stack_map_delete_elem smap key with
  | (r, smap', es) =>
      stack_map_lookup_elem smap' key = None
      /\ (forall key', u32 key' <> u32 key ->
            stack_map_lookup_elem smap' key' = stack_map_lookup_elem smap key')
      /\ (r = Ok tt <-> stack_map_lookup_elem smap key <> None)
      /\ (r = Ok tt ->
          exists b, freed_by es = [b]
                    /\ stack_map_lookup_elem smap key = Some (ip b))
      /\ (r <> Ok tt -> freed_by es = [])
      /\ fst (fst (stack_map_delete_elem smap' key)) <> Ok tt
  end.
Proof.
  assert (Hcleared : bucket_at (xchg_bucket smap (u32 key) None) (u32 key)
                     = None).
  { unfold bucket_at, xchg_bucket. cbn [buckets].
    destruct (decide (Z.to_nat (u32 key) < length (buckets smap))%nat).
    - rewrite list_lookup_insert_eq by assumption. reflexivity.
    - rewrite list_insert_ge by lia.
      rewrite (lookup_ge_None_2 (buckets smap)) by lia. reflexivity. }
  unfold stack_map_delete_elem, stack_map_lookup_elem.
  destruct (Z.leb_spec (n_buckets smap) (u32 key)) as [Hout | Hin].
  - destruct (Z.leb_spec (n_buckets smap) (u32 key)); [| lia].
    cbn [fst]. repeat split; try discriminate; try tauto.
 - destruct (bucket_at smap (u32 key)) as [old |] eqn:Hold;
      cbn [xchg_bucket n_buckets];
      (destruct (Z.leb_spec (n_buckets smap) (u32 key)); [lia |]);
      rewrite Hcleared; cbn [fst].
    + split; [reflexivity |]. split.
      { intros key' Hne.
        rewrite bucket_at_xchg_ne; [reflexivity | apply u32_range ..| auto]. }
      split; [split; [discriminate | reflexivity] |].
      split; [intros _; exists old; split; reflexivity |].
      split; [congruence | discriminate].
    + split; [reflexivity |]. split.
      { intros key' Hne.
        rewrite bucket_at_xchg_ne; [reflexivity | apply u32_range ..| auto]. }
      split; [split; [discriminate | congruence] |].
      split; [discriminate |].
      split; [reflexivity | discriminate].
Qed.

End DeleteElem.

Section Conservation.
Context `{Headers}.

Lemma live_insert (l : list (option stack_map_bucket)) (i : nat)
    (old new : option stack_map_bucket) :
  l !! i = Some old ->
  Permutation
    (option_list new ++ omap (fun slot => slot) l)
    (omap (fun slot => slot) (<[i := new]> l) ++ option_list old).
Proof.
  intros Hi.
  pose proof (lookup_lt_Some _ _ _ Hi) as Hlt.
  rewrite insert_take_drop by exact Hlt.
  rewrite <- (take_drop_middle l i old Hi) at 1.
  rewrite !omap_app. cbn [omap list_omap].
  set (A := omap _ (take i l)). set (B := omap _ (drop (S i) l)).
  destruct old as [o |], new as [n |]; cbn [option_list app];
    rewrite ?app_nil_r.
  - rewrite <- !app_assoc. cbn [app].
    rewrite <- !Permutation_middle.
    rewrite (Permutation_app_comm B [o]). cbn [app].
    rewrite <- !Permutation_middle. apply perm_swap.
  - rewrite <- !app_assoc. rewrite (Permutation_app_comm B [o]). cbn [app].
    rewrite <- !Permutation_middle. reflexivity.
  - rewrite <- !Permutation_middle. reflexivity.
  - reflexivity.
Qed.

Lemma live_xchg (smap : bpf_stack_map) (id : Z)
    (new : option stack_map_bucket) :
  smap_wf smap -> 0 <= id < n_buckets smap ->
  Permutation
    (option_list new ++ live_entries smap)
    (live_entries (xchg_bucket smap id new)
     ++ option_list (bucket_at smap id)).
Proof.
  intros [_ Hlen _ _ _ _] Hid. unfold live_entries, xchg_bucket, bucket_at.
  cbn [buckets].
  destruct (buckets smap !! Z.to_nat id) as [old |] eqn:Hold.
  - apply live_insert. exact Hold.
  - apply lookup_ge_None_1 in Hold. lia.
Qed.

(** What goes into the map is what stays in it or is freed, call by call. *)
Lemma get_stackid_conserves
    (get_perf_callchain : Z -> bool -> bool -> option perf_callchain_entry)
    (kmalloc_ok : bool) (smap : bpf_stack_map) (flags : Z) :
  smap_wf smap ->
  let r := bpf_get_stackid get_perf_callchain kmalloc_ok smap flags in
  Permutation (stored_by (effects r) ++ live_entries smap)
              (live_entries (smap_after r) ++ freed_by (effects r)).
Proof.
  intros Hsmap r.
  pose proof (get_stackid_outcome get_perf_callchain kmalloc_ok smap flags)
    as Hout.
  fold r in Hout. clearbody r.
  destruct Hout as [Hbad | Hvalid Hcap | trace Hvalid Hcap Hle
                    | trace b Hvalid Hcap Hskip Hb Hsame
                    | trace b Hvalid Hcap Hskip Hb Hsame Hreuse
                    | trace Hvalid Hcap Hskip Hb];
    cbn [smap_after effects stored_by freed_by omap list_omap app];
    rewrite ?app_nil_r; try reflexivity.
  unfold store_new.
  destruct kmalloc_ok; cbn [negb smap_after effects];
    [| cbn; rewrite app_nil_r; reflexivity].
  pose proof (live_xchg smap (trace_id smap flags trace)
                (Some (new_entry smap flags trace)) Hsmap
                (trace_id_bounds smap flags trace Hsmap)) as Hperm.
  destruct (bucket_at smap (trace_id smap flags trace)) as [old |];
    cbn [option_list] in Hperm; cbn; exact Hperm.
Qed.

Lemma delete_elem_conserves (smap : bpf_stack_map) (key : Z) :
  smap_wf smap ->
  match stack_map_delete_elem smap key with
  | (_, smap', es) =>
      smap_wf smap'
      /\ Permutation (stored_by es ++ live_entries smap)
                     (live_entries smap' ++ freed_by es)
  end.
Proof.
  intros Hsmap. unfold stack_map_delete_elem.
  destruct (Z.leb_spec (n_buckets smap) (u32 key)) as [Hout | Hin].
  - split; [exact Hsmap |]. cbn. rewrite app_nil_r. reflexivity.
  - pose proof (u32_range key) as Hkey.
    pose proof (live_xchg smap (u32 key) None Hsmap ltac:(lia)) as Hperm.
    destruct (bucket_at smap (u32 key)) as [old |];
      (split; [apply xchg_bucket_wf; exact Hsmap |]);
      cbn [option_list] in Hperm; cbn; exact Hperm.
Qed.

Lemma apply_op_conserves (smap : bpf_stack_map) (op : stack_op) :
  smap_wf smap ->
  smap_wf (fst (apply_op smap op))
  /\ Permutation
       (stored_by (snd (apply_op smap op)) ++ live_entries smap)
       (live_entries (fst (apply_op smap op))
        ++ freed_by (snd (apply_op smap op))).
Proof.
  intros Hsmap. destruct op as [capture kmalloc_ok flags | key];
    cbn [apply_op].
  - cbn [fst snd]. split; [apply get_stackid_wf; exact Hsmap |].
    apply get_stackid_conserves. exact Hsmap.
  - pose proof (delete_elem_conserves smap key Hsmap) as Hdel.
    destruct (stack_map_delete_elem smap key) as [[r smap'] es].
    exact Hdel.
Qed.

Lemma apply_op_map (smap : bpf_stack_map) (op : stack_op) :
  map (fst (apply_op smap op)) = map smap
  /\ n_buckets (fst (apply_op smap op)) = n_buckets smap.
Proof.
  destruct op as [capture kmalloc_ok flags | key]; cbn [apply_op].
  - cbn [fst]. unfold bpf_get_stackid.
    repeat match goal with
           | |- context [if ?b then _ else _] => destruct b
           | |- context [match ?o with Some _ => _ | None => _ end] =>
               destruct o
           end; cbn [smap_after xchg_bucket map n_buckets]; auto.
  - unfold stack_map_delete_elem.
    destruct (n_buckets smap <=? u32 key); [auto |].
    destruct (bucket_at smap (u32 key)); cbn; auto.
Qed.

Lemma run_ops_n_buckets (ops : list stack_op) (smap : bpf_stack_map) :
  n_buckets (fst (run_ops smap ops)) = n_buckets smap.
Proof.
  revert smap. induction ops as [| op ops IH]; intros smap; [reflexivity |].
  cbn [run_ops]. destruct (apply_op_map smap op) as [_ Hn].
  destruct (apply_op smap op) as [smap1 es1]. specialize (IH smap1).
  destruct (run_ops smap1 ops) as [smap2 es2]. cbn [fst] in *. congruence.
Qed.

(** Creation leaves fewer than [2 ^ 31] buckets when a pointer has two bytes
    or more. *)
Lemma bucket_count_int (capable kzalloc_ok vzalloc_ok : bool)
    (get_callchain_buffers : option errno) (attr : bpf_attr)
    (smap : bpf_stack_map) :
  headers_sane -> attr_wf attr -> 2 <= sizeof_bucket_ptr ->
  stack_map_alloc capable kzalloc_ok vzalloc_ok get_callchain_buffers attr
  = Ok smap ->
  n_buckets smap < 2 ^ 31.
Proof.
  intros Hsane Hattr Hptr2 Hok.
  destruct (stack_map_alloc_ok_inv _ _ _ _ _ _ Hattr Hok)
    as (Hvalid & Htable & _ & Hnb & _ & _).
  destruct (bucket_count_fits attr Hsane Hattr
              (valid_max_entries attr Hvalid) Htable) as [Hu64 Hu32].
  destruct (roundup_pow_of_two_spec (attr_max_entries attr)
              (valid_max_entries attr Hvalid)) as [_ [Hlow Hup]].
  destruct Hsane as [Hptr Hsmap Hbucket Hpage _].
  destruct Hattr as [_ _ Hme].
  rewrite Hu64, Hu32 in Hnb. rewrite Hnb.
  unfold table_cost, cost_limit in Htable. rewrite Hu64 in Htable.
  rewrite (u64_small (U32_MAX - PAGE_SIZE)) in Htable
    by (unfold U32_MAX in *; lia).
  rewrite u64_small in Htable by nia.
  unfold U32_MAX in *. nia.
Qed.

Lemma stored_by_app (es es' : list effect) :
  stored_by (es ++ es') = stored_by es ++ stored_by es'.
Proof. apply omap_app. Qed.

Lemma freed_by_app (es es' : list effect) :
  freed_by (es ++ es') = freed_by es ++ freed_by es'.
Proof. apply omap_app. Qed.

Lemma run_ops_conserves (ops : list stack_op) (smap : bpf_stack_map) :
  smap_wf smap ->
  smap_wf (fst (run_ops smap ops))
  /\ Permutation
       (stored_by (snd (run_ops smap ops)) ++ live_entries smap)
       (live_entries (fst (run_ops smap ops))
        ++ freed_by (snd (run_ops smap ops))).
Proof.
  revert smap. induction ops as [| op ops IH]; intros smap Hsmap.
  - cbn. rewrite app_nil_r. auto.
  - cbn [run_ops].
    destruct (apply_op_conserves smap op Hsmap) as [Hwf1 Hperm1].
    destruct (apply_op smap op) as [smap1 es1]. cbn [fst snd] in Hwf1, Hperm1.
    destruct (IH smap1 Hwf1) as [Hwf2 Hperm2].
    destruct (run_ops smap1 ops) as [smap2 es2]. cbn [fst snd] in *.
    split; [exact Hwf2 |].
    rewrite stored_by_app, freed_by_app.
    transitivity (stored_by es2 ++ (stored_by es1 ++ live_entries smap)).
    { rewrite (Permutation_app_comm (stored_by es1) (stored_by es2)).
      rewrite <- app_assoc. reflexivity. }
    rewrite Hperm1, app_assoc, Hperm2, <- app_assoc.
    apply Permutation_app_head, Permutation_app_comm.
Qed.

(** The loop of [stack_map_free] from bucket [i] on frees what the buckets
    from [i] on hold. *)
Lemma free_loop_frees (smap : bpf_stack_map) (fuel : nat) (i : nat) :
  Z.of_nat (length (buckets smap)) = n_buckets smap ->
  n_buckets smap < 2 ^ 31 ->
  (i + fuel = length (buckets smap))%nat ->
  free_loop smap fuel (Z.of_nat i)
  = List.map KfreeRcuBucket
      (omap (fun slot => slot) (drop i (buckets smap))).
Proof.
  intros Hlen Hint. revert i. induction fuel as [| fuel IH]; intros i Hi.
  - cbn [free_loop]. rewrite drop_ge by lia. reflexivity.
  - cbn [free_loop]. rewrite u32_small by lia.
    destruct (Z.ltb_spec (Z.of_nat i) (n_buckets smap)); [| lia].
    replace (int32 (Z.of_nat i + 1)) with (Z.of_nat (S i))
      by (unfold int32; rewrite Z.mod_small by lia; lia).
    rewrite IH by lia.
    unfold bucket_at. rewrite Nat2Z.id.
    destruct (buckets smap !! i) as [slot |] eqn:Hslot.
    + rewrite (drop_S _ _ _ Hslot). cbn [omap list_omap].
      destruct slot; reflexivity.
    + apply lookup_ge_None_1 in Hslot. lia.
Qed.

(** X9: tearing a map down.  [stack_map_free] first waits for the readers
    ([synchronize_rcu]), then hands every entry the map holds to
    [kfree_rcu], each once and in bucket order, then frees the map itself
    and, last, drops the call-chain buffers.  The map has fewer than
    [2 ^ 31] buckets, so that the [int] index of the loop reaches them
    all. *)
Theorem stack_map_free_releases (smap : bpf_stack_map) :
  smap_wf smap ->
  n_buckets smap < 2 ^ 31 ->
  stack_map_free smap
  = [SynchronizeRcu]
    ++ List.map KfreeRcuBucket (live_entries smap)
    ++ [Kvfree; PutCallchainBuffers].
Proof.
  intros [Hnb Hlen _ _ _ _] Hint. unfold stack_map_free, live_entries.
  change 0 with (Z.of_nat 0).
  rewrite (free_loop_frees smap (Z.to_nat (n_buckets smap)) 0 Hlen Hint)
    by lia.
  reflexivity.
Qed.

Lemma freed_at_teardown_free (smap : bpf_stack_map) :
  smap_wf smap ->
  n_buckets smap < 2 ^ 31 ->
  freed_at_teardown (stack_map_free smap) = live_entries smap.
Proof.
  intros [Hnb Hlen _ _ _ _] Hint. unfold stack_map_free, live_entries.
  change 0 with (Z.of_nat 0).
  rewrite (free_loop_frees smap (Z.to_nat (n_buckets smap)) 0 Hlen Hint)
    by lia.
  rewrite drop_0. unfold freed_at_teardown.
  rewrite !omap_app. cbn [omap list_omap app]. rewrite app_nil_r.
  induction (omap (fun slot => slot) (buckets smap)) as [| b l IH];
    [reflexivity |].
  cbn. f_equal. exact IH.
Qed.

(** X10: no entry leaks and none is freed twice.  From creation to teardown,
    whatever calls of [bpf_get_stackid] and [stack_map_delete_elem] come in
    between and whatever they return, the entries handed to [kfree_rcu], by
    the calls or by [stack_map_free], are the entries the calls stored, each
    as many times as it was stored.  (A pointer has two bytes or more, so
    that the bound on the cost keeps the buckets within reach of the [int]
    index of the teardown.) *)
Theorem entries_stored_are_freed (capable kzalloc_ok vzalloc_ok : bool)
    (get_callchain_buffers : option errno) (attr : bpf_attr)
    (smap : bpf_stack_map) (ops : list stack_op) :
  headers_sane -> attr_wf attr -> 2 <= sizeof_bucket_ptr ->
  stack_map_alloc capable kzalloc_ok vzalloc_ok get_callchain_buffers attr
  = Ok smap ->
  Permutation
    (stored_by (snd (run_ops smap ops)))
    (freed_by (snd (run_ops smap ops))
     ++ freed_at_teardown (stack_map_free (fst (run_ops smap ops)))).
Proof.
  intros Hsane Hattr Hptr Hok.
  pose proof (stack_map_alloc_wf _ _ _ _ _ _ Hsane Hattr Hok) as Hsmap.
  pose proof (bucket_count_int _ _ _ _ _ _ Hsane Hattr Hptr Hok) as Hint.
  destruct (stack_map_alloc_ok_inv _ _ _ _ _ _ Hattr Hok)
    as (_ & _ & _ & _ & Hbuckets & _).
  destruct (run_ops_conserves ops smap Hsmap) as [Hwf Hperm].
  rewrite (freed_at_teardown_free _ Hwf)
    by (rewrite run_ops_n_buckets; exact Hint).
  assert (Hempty : live_entries smap = []).
  { unfold live_entries. rewrite Hbuckets. clear.
    induction (Z.to_nat _) as [| n IH]; [reflexivity | exact IH]. }
  rewrite Hempty, app_nil_r in Hperm. rewrite Hperm.
  apply Permutation_app_comm.
Qed.

End Conservation.

Section Reachable.
Context `{Headers}.

Lemma new_entry_hashed (smap : bpf_stack_map) (flags : Z)
    (trace : perf_callchain_entry) :
  smap_wf smap ->
  entry_wf (init_nr smap) trace ->
  skip flags < u32 (entry_nr trace - init_nr smap) ->
  entry_hashed (new_entry smap flags trace).
Proof.
  intros Hsmap Htrace Hskip.
  pose proof (frames_length smap flags trace Hsmap Htrace Hskip) as Hflen.
  unfold entry_hashed, new_entry. cbn [hash nr ip].
  rewrite take_app_length' by (symmetry; exact Hflen). reflexivity.
Qed.

Lemma get_stackid_indexed
    (get_perf_callchain : Z -> bool -> bool -> option perf_callchain_entry)
    (kmalloc_ok : bool) (smap : bpf_stack_map) (flags : Z) :
  smap_wf smap ->
  (forall trace,
     get_perf_callchain (init_nr smap) (negb (user flags)) (user flags)
     = Some trace -> entry_wf (init_nr smap) trace) ->
  entries_indexed smap ->
  entries_indexed
    (smap_after (bpf_get_stackid get_perf_callchain kmalloc_ok smap flags)).
Proof.
  intros Hsmap Hwf Hindexed.
  pose proof (get_stackid_outcome get_perf_callchain kmalloc_ok smap flags)
    as Hout.
  remember (bpf_get_stackid get_perf_callchain kmalloc_ok smap flags) as r.
  destruct Hout as [Hbad | Hvalid Hcap | trace Hvalid Hcap Hle
                    | trace b Hvalid Hcap Hskip Hb Hsame
                    | trace b Hvalid Hcap Hskip Hb Hsame Hreuse
                    | trace Hvalid Hcap Hskip Hb];
    cbn [smap_after]; try exact Hindexed.
  unfold store_new. destruct kmalloc_ok; cbn [negb smap_after];
    [| exact Hindexed].
  pose proof (trace_id_bounds smap flags trace Hsmap) as Hid.
  intros id b. cbn [xchg_bucket n_buckets]. intros Hrange.
  change {| map := map smap; n_buckets := n_buckets smap;
            buckets := <[Z.to_nat (trace_id smap flags trace)
                         := Some (new_entry smap flags trace)]> (buckets smap) |}
    with (xchg_bucket smap (trace_id smap flags trace)
            (Some (new_entry smap flags trace))).
  destruct (Z.eq_dec id (trace_id smap flags trace)) as [-> | Hne].
  - rewrite bucket_at_xchg_eq by assumption. intros [= <-].
    split; [apply new_entry_hashed; auto | reflexivity].
  - rewrite bucket_at_xchg_ne by lia. apply Hindexed. exact Hrange.
Qed.

Lemma delete_elem_indexed (smap : bpf_stack_map) (key : Z) :
  smap_wf smap -> entries_indexed smap ->
  entries_indexed (snd (fst (stack_map_delete_elem smap key))).
Proof.
  intros Hsmap Hindexed. unfold stack_map_delete_elem.
  destruct (Z.leb_spec (n_buckets smap) (u32 key)) as [Hout | Hin];
    [exact Hindexed |].
  pose proof (u32_range key) as Hkey.
  assert (Hgoal : entries_indexed (xchg_bucket smap (u32 key) None)).
  { intros id b Hrange. cbn [xchg_bucket n_buckets] in Hrange |- *.
    change {| map := map smap; n_buckets := n_buckets smap;
              buckets := <[Z.to_nat (u32 key) := None]> (buckets smap) |}
      with (xchg_bucket smap (u32 key) None).
    destruct (Z.eq_dec id (u32 key)) as [-> | Hne].
    - rewrite bucket_at_xchg_eq by (auto; lia). discriminate.
    - rewrite bucket_at_xchg_ne by lia. apply Hindexed. exact Hrange. }
  destruct (bucket_at smap (u32 key)); exact Hgoal.
Qed.

Lemma init_nr_map (smap smap' : bpf_stack_map) :
  map smap' = map smap -> init_nr smap' = init_nr smap.
Proof. intros Hmap. unfold init_nr, max_depth. rewrite Hmap. reflexivity. Qed.

Lemma apply_op_inv (smap : bpf_stack_map) (op : stack_op) :
  op_captures_wf smap op -> smap_inv smap -> smap_inv (fst (apply_op smap op)).
Proof.
  intros Hop (Hsmap & Hpadded & Hindexed).
  destruct op as [capture kmalloc_ok flags | key]; cbn [apply_op].
  - cbn [fst op_captures_wf] in Hop |- *.
    split; [apply get_stackid_wf; assumption |].
    split; [apply get_stackid_padded; assumption |].
    apply get_stackid_indexed; assumption.
  - pose proof (delete_elem_cases smap key Hsmap) as Hdel.
    pose proof (delete_elem_indexed smap key Hsmap Hindexed) as Hidx.
    destruct (stack_map_delete_elem smap key) as [[r smap'] es].
    cbn [fst snd] in *. destruct Hdel as (Hwf' & Hpad' & _).
    split; [exact Hwf' |]. split; [apply Hpad'; exact Hpadded | exact Hidx].
Qed.

Lemma run_ops_inv (ops : list stack_op) (smap : bpf_stack_map) :
  Forall (op_captures_wf smap) ops -> smap_inv smap ->
  smap_inv (fst (run_ops smap ops))
  /\ map (fst (run_ops smap ops)) = map smap
  /\ n_buckets (fst (run_ops smap ops)) = n_buckets smap.
Proof.
  revert smap. induction ops as [| op ops IH]; intros smap Hops Hinv.
  - cbn. auto.
  - apply Forall_cons in Hops as [Hop Hops]. cbn [run_ops].
    pose proof (apply_op_inv smap op Hop Hinv) as Hinv1.
    destruct (apply_op_map smap op) as [Hmap1 Hn1].
    destruct (apply_op smap op) as [smap1 es1]. cbn [fst] in *.
    assert (Hops1 : Forall (op_captures_wf smap1) ops).
    { eapply Forall_impl; [exact Hops |]. intros [capture k flags | key];
        cbn [op_captures_wf]; [| auto].
      rewrite (init_nr_map smap smap1 Hmap1). auto. }
    destruct (IH smap1 Hops1 Hinv1) as (Hinv2 & Hmap2 & Hn2).
    destruct (run_ops smap1 ops) as [smap2 es2]. cbn [fst] in *.
    split; [exact Hinv2 |]. split; congruence.
Qed.

Lemma stack_map_alloc_inv (capable kzalloc_ok vzalloc_ok : bool)
    (get_callchain_buffers : option errno) (attr : bpf_attr)
    (smap : bpf_stack_map) :
  headers_sane -> attr_wf attr ->
  stack_map_alloc capable kzalloc_ok vzalloc_ok get_callchain_buffers attr
  = Ok smap ->
  smap_inv smap.
Proof.
  intros Hsane Hattr Hok.
  split; [eapply stack_map_alloc_wf; eassumption |].
  split; [eapply stack_map_alloc_padded; eassumption |].
  destruct (stack_map_alloc_ok_inv _ _ _ _ _ _ Hattr Hok)
    as (_ & _ & _ & _ & Hbuckets & _).
  intros id b _. unfold bucket_at. rewrite Hbuckets.
  destruct (replicate _ None !! Z.to_nat id) as [slot |] eqn:Hslot;
    [| discriminate].
  apply lookup_replicate in Hslot as [-> _]. discriminate.
Qed.

(** X11: the shape of every entry of a map, however the map was used.  After
    creation and any calls of [bpf_get_stackid] and [stack_map_delete_elem],
    an entry found in bucket [id] has [value_size / 8] words of which those
    from [nr] on are zero, its [hash] is the digest of its first [nr] words,
    and [id] is that digest masked with [n_buckets - 1]. *)
Theorem reachable_entries_shape (capable kzalloc_ok vzalloc_ok : bool)
    (get_callchain_buffers : option errno) (attr : bpf_attr)
    (smap : bpf_stack_map) (ops : list stack_op) (id : Z)
    (b : stack_map_bucket) :
  headers_sane -> attr_wf attr ->
  stack_map_alloc capable kzalloc_ok vzalloc_ok get_callchain_buffers attr
  = Ok smap ->
  Forall (op_captures_wf smap) ops ->
  0 <= id < n_buckets smap ->
  bucket_at (fst (run_ops smap ops)) id = Some b ->
  Z.of_nat (length (ip b)) * 8 = attr_value_size attr
  /\ 0 <= nr b <= attr_value_size attr / 8
  /\ drop (Z.to_nat (nr b)) (ip b)
     = replicate (Z.to_nat (attr_value_size attr / 8 - nr b)) 0
  /\ hash b = u32 (jhash2 (u32_words (take (Z.to_nat (nr b)) (ip b)))
                     (u32 (nr b * 8) / 4) 0)
  /\ id = Z.land (hash b) (n_buckets smap - 1).
Proof.
  intros Hsane Hattr Hok Hops Hid Hb.
  pose proof (stack_map_alloc_inv _ _ _ _ _ _ Hsane Hattr Hok) as Hinv.
  destruct (stack_map_alloc_ok_inv _ _ _ _ _ _ Hattr Hok)
    as ([_ _ _ Hmult _] & _ & _ & _ & _ & Hvs).
  destruct (run_ops_inv ops smap Hops Hinv)
    as ((Hwf & Hpadded & Hindexed) & Hmap & Hn).
  destruct (Hpadded id b Hb) as (Hlen & Hnr & Hzeros).
  destruct (Hindexed id b ltac:(lia) Hb) as (Hhash & Hidx).
  rewrite Hmap, Hvs in Hlen, Hnr, Hzeros. rewrite Hn in Hidx.
  rewrite u32_small in Hidx by (destruct Hinv as [[? _ _ _ _ _] _]; lia).
  split; [rewrite Hlen; Z.div_mod_to_equations; lia |].
  auto.
Qed.

(** X12: no trace is in a map twice.  After creation and any calls, two
    buckets that hold entries with the same number of frames and the same
    words are one bucket. *)
Theorem reachable_entries_distinct (capable kzalloc_ok vzalloc_ok : bool)
    (get_callchain_buffers : option errno) (attr : bpf_attr)
    (smap : bpf_stack_map) (ops : list stack_op) (id id' : Z)
    (b b' : stack_map_bucket) :
  headers_sane -> attr_wf attr ->
  stack_map_alloc capable kzalloc_ok vzalloc_ok get_callchain_buffers attr
  = Ok smap ->
  Forall (op_captures_wf smap) ops ->
  0 <= id < n_buckets smap -> 0 <= id' < n_buckets smap ->
  bucket_at (fst (run_ops smap ops)) id = Some b ->
  bucket_at (fst (run_ops smap ops)) id' = Some b' ->
  nr b = nr b' -> ip b = ip b' ->
  id = id'.
Proof.
  intros Hsane Hattr Hok Hops Hid Hid' Hb Hb' Hnr Hip.
  pose proof (stack_map_alloc_inv _ _ _ _ _ _ Hsane Hattr Hok) as Hinv.
  destruct (run_ops_inv ops smap Hops Hinv)
    as ((_ & _ & Hindexed) & _ & Hn).
  destruct (Hindexed id b ltac:(lia) Hb) as (Hhash & ->).
  destruct (Hindexed id' b' ltac:(lia) Hb') as (Hhash' & ->).
  unfold entry_hashed in Hhash, Hhash'.
  rewrite Hhash, Hhash', Hnr, Hip. reflexivity.
Qed.

End Reachable.

Section DeleteForgets.
Context `{Headers}.

(** X13: deleting forgets the trace.  After [bpf_get_stackid] has returned
    an index, [stack_map_delete_elem] on that index returns 0 and frees one
    entry; the same call of [bpf_get_stackid] repeated then has to store the
    trace again: without memory it fails with -ENOMEM, with memory it
    returns the same index, stores one entry and frees none. *)
Theorem get_stackid_after_delete
    (get_perf_callchain : Z -> bool -> bool -> option perf_callchain_entry)
    (kmalloc_ok : bool) (smap : bpf_stack_map) (flags id : Z) :
  smap_wf smap ->
  returned (bpf_get_stackid get_perf_callchain kmalloc_ok smap flags) = Ok id ->
  let smap1 :=
    smap_after (bpf_get_stackid get_perf_callchain kmalloc_ok smap flags) in
  let smap2 := snd (fst (stack_map_delete_elem smap1 id)) in
  fst (fst (stack_map_delete_elem smap1 id)) = Ok tt
  /\ (exists b, freed_by (snd (stack_map_delete_elem smap1 id)) = [b])
  /\ returned (bpf_get_stackid get_perf_callchain false smap2 flags)
     = Err ENOMEM
  /\ returned (bpf_get_stackid get_perf_callchain true smap2 flags) = Ok id
  /\ (exists b,
        stored_by
          (effects (bpf_get_stackid get_perf_callchain true smap2 flags)) = [b])
  /\ freed_by (effects (bpf_get_stackid get_perf_callchain true smap2 flags))
     = [].
Proof.
  intros Hsmap Hret smap1 smap2.
  destruct (get_stackid_ok_bucket _ _ _ _ _ Hsmap Hret)
    as (Hid & Hvalid & trace & Hcap & Hskip & Hidtrace & Hcases).
  pose proof (get_stackid_wf get_perf_callchain kmalloc_ok smap flags Hsmap)
    as Hwf1.
  fold smap1 in Hwf1.
  assert (Hviews : map smap1 = map smap /\ n_buckets smap1 = n_buckets smap
                   /\ exists b, bucket_at smap1 id = Some b).
  { subst smap1.
    destruct Hcases as [(b & Hb & Hsame & Hr) | (_ & Hr & Hb)]; rewrite Hr.
    - cbn [smap_after]. eauto.
    - unfold store_new. cbn [negb smap_after]. rewrite <- Hidtrace.
      cbn [xchg_bucket map n_buckets]. eauto. }
  destruct Hviews as (Hmap & Hn & b & Hb).
  assert (Hdel : stack_map_delete_elem smap1 id
                 = (Ok tt, xchg_bucket smap1 id None,
                    [Xchg id None; KfreeRcu b])).
  { unfold stack_map_delete_elem. rewrite (u32_small id), Hn
      by (destruct Hsmap; lia).
    destruct (Z.leb_spec (n_buckets smap) id); [lia |].
    rewrite Hb. reflexivity. }
  subst smap2. rewrite Hdel. cbn [fst snd].
  split; [reflexivity |]. split; [exists b; reflexivity |].
  set (smap2 := xchg_bucket smap1 id None).
  assert (Hmap2 : map smap2 = map smap) by exact Hmap.
  assert (Hn2 : n_buckets smap2 = n_buckets smap) by exact Hn.
  assert (Hinit : init_nr smap2 = init_nr smap)
    by (apply init_nr_map; exact Hmap2).
  assert (Hid2 : trace_id smap2 flags trace = id).
  { rewrite Hidtrace.
    unfold trace_id, trace_hash, frames, trace_len, trace_nr.
    rewrite Hinit, Hn2. reflexivity. }
  assert (Hempty : bucket_at smap2 (trace_id smap2 flags trace) = None).
  { rewrite Hid2. apply bucket_at_xchg_eq; [exact Hwf1 | lia]. }
  assert (Hagain : forall k,
            bpf_get_stackid get_perf_callchain k smap2 flags
            = store_new k smap2 flags trace).
  { intros k.
    rewrite (get_stackid_on_capture get_perf_callchain k smap2 flags trace);
      [| assumption | rewrite Hinit; assumption | rewrite Hinit; assumption].
    rewrite Hempty. reflexivity. }
  rewrite !Hagain. unfold store_new. cbn [negb returned effects].
  rewrite Hempty, Hid2.
  split; [reflexivity |]. split; [reflexivity |].
  split; [eexists; reflexivity | reflexivity].
Qed.

End DeleteForgets.

Section AllocOutcome.
Context `{Headers}.

(** X14: when creation succeeds, and the errors of [stack_map_alloc] that
    come from its environment.  A map is returned exactly when the caller
    has CAP_SYS_ADMIN, the attributes pass the checks, both costs are under
    the bound, one of the two allocators returned memory and the call-chain
    buffers were obtained.  Without the capability the result is -EPERM
    whatever the attributes; when neither allocator returns memory it is
    -ENOMEM; an error of [get_callchain_buffers] is returned as it is. *)
Theorem stack_map_alloc_outcome (capable kzalloc_ok vzalloc_ok : bool)
    (get_callchain_buffers : option errno) (attr : bpf_attr) :
  attr_wf attr ->
  let created :=
    stack_map_alloc capable kzalloc_ok vzalloc_ok get_callchain_buffers attr in
  ((exists smap, created = Ok smap) <->
   capable = true /\ attr_valid attr /\ table_cost attr < cost_limit
   /\ total_cost attr < cost_limit /\ kzalloc_ok || vzalloc_ok = true
   /\ get_callchain_buffers = None)
  /\ (capable = false -> created = Err EPERM)
  /\ (capable = true -> attr_valid attr -> table_cost attr < cost_limit ->
      kzalloc_ok = false -> vzalloc_ok = false -> created = Err ENOMEM)
  /\ (forall err,
        capable = true -> attr_valid attr -> total_cost attr < cost_limit ->
        table_cost attr < cost_limit -> kzalloc_ok || vzalloc_ok = true ->
        get_callchain_buffers = Some err -> created = Err err).
Proof.
  intros Hattr created. subst created. rewrite stack_map_alloc_eq.
  pose proof (attr_rejected_false attr Hattr) as Hrej.
  split; [| split; [| split]].
  - split.
    + intros [smap Hok].
      destruct capable; cbn [negb] in Hok; [| discriminate].
      destruct (attr_rejected attr); [discriminate |].
      destruct (Z.leb_spec cost_limit (table_cost attr)); [discriminate |].
      destruct kzalloc_ok, vzalloc_ok; cbn [negb andb] in Hok;
        try discriminate;
        (destruct (Z.leb_spec cost_limit (total_cost attr)); [discriminate |]);
        (destruct get_callchain_buffers; [discriminate |]);
        (split; [reflexivity |]); (split; [apply Hrej; reflexivity |]);
        auto.
    + intros (-> & Hvalid & Htable & Htotal & Halloc & ->). cbn [negb].
      rewrite (proj2 Hrej Hvalid).
      destruct (Z.leb_spec cost_limit (table_cost attr)); [lia |].
      destruct (Z.leb_spec cost_limit (total_cost attr)); [lia |].
      destruct kzalloc_ok, vzalloc_ok; cbn [negb andb orb] in Halloc |- *;
        try discriminate; eexists; reflexivity.
  - intros ->. reflexivity.
  - intros -> Hvalid Htable -> ->. cbn [negb andb].
    rewrite (proj2 Hrej Hvalid).
    destruct (Z.leb_spec cost_limit (table_cost attr)); [lia | reflexivity].
  - intros err -> Hvalid Htotal Htable Halloc ->. cbn [negb].
    rewrite (proj2 Hrej Hvalid).
    destruct (Z.leb_spec cost_limit (table_cost attr)); [lia |].
    destruct (Z.leb_spec cost_limit (total_cost attr)); [lia |].
    destruct kzalloc_ok, vzalloc_ok; cbn [negb andb orb] in Halloc |- *;
      try discriminate; reflexivity.
Qed.

End AllocOutcome.

(** * Further properties of bpf_trace_printk *)

Section PrintkBody.
Context `{Headers}.
Variables (unsafe_read : Z -> option (list Z)) (buf_addr : Z) (fmt : list Z).

Ltac st_simpl :=
  cbn [st_i st_fmt_cnt st_mod st_str_seen st_r3 st_r4 st_r5 st_buf st_probes
       set_i set_fmt_cnt incr_mod] in *.

Ltac clash :=
  match goal with
  | H1 : ?x = chr ?a, H2 : ?x = chr ?b |- _ =>
      exfalso; rewrite H1 in H2; discriminate H2
  | H1 : ?x = chr ?a, H2 : ?x <> chr ?a |- _ => contradiction
  end.

Ltac tests :=
  repeat match goal with
         | |- context [?a =? ?b] => destruct (Z.eqb_spec a b); try clash
         end.

(** What one iteration decides on, and where it leaves the loop. *)
Lemma printk_body_conv (st : printk_state) :
  let i := st_i st in
  let c := char_at fmt i in
  match printk_body unsafe_read buf_addr fmt st with
  | Ok st1 =>
      plain_char c = true
      /\ (c <> chr "%" -> st1 = st)
      /\ (c = chr "%" ->
          conversion_ok fmt i = true
          /\ st_i st1 = i + conv_len fmt i
          /\ st_str_seen st1
             = st_str_seen st || (char_at fmt (i + 1) =? chr "s")
          /\ (0 <= st_fmt_cnt st < Z.of_nat (length (st_mod st)) ->
              char_at (st_mod st1) (st_fmt_cnt st)
              = char_at (st_mod st) (st_fmt_cnt st) + conv_mod fmt i))
  | Err e =>
      e = EINVAL
      /\ (plain_char c = false
          \/ (c = chr "%"
              /\ (3 <= st_fmt_cnt st \/ conversion_ok fmt i = false
                  \/ (char_at fmt (i + 1) = chr "s"
                      /\ st_str_seen st = true))))
  end.
Proof.
  intros i c. subst i c.
  unfold printk_body, plain_char.
  destruct (isprint (char_at fmt (st_i st))), (isspace (char_at fmt (st_i st))),
    (isascii (char_at fmt (st_i st)));
    cbn [negb andb orb]; auto.
  all: destruct (Z.eqb_spec (char_at fmt (st_i st)) (chr "%")) as [Hc | Hc];
    cbn [negb];
    [| split; [reflexivity |]; split; [reflexivity | contradiction]].
  all: destruct (Z.leb_spec 3 (st_fmt_cnt st)) as [Hcnt | Hcnt]; [auto 6 |].
  all: unfold integer_conversion, conversion_ok, conv_len, conv_mod,
         integer_letter, substitute_string; st_simpl.
  all: replace (st_i st + 1 + 1) with (st_i st + 2) by lia.
  all: replace (st_i st + 2 + 1) with (st_i st + 3) by lia.
  all: tests; cbn [negb andb orb]; st_simpl; auto 8.
  all: try (destruct (isspace (char_at fmt (st_i st + 2))),
              (ispunct (char_at fmt (st_i st + 2)));
            cbn [negb andb orb]; auto 8).
  all: try (destruct (st_str_seen st) eqn:Hseen; st_simpl; auto 8).
  all: split; [reflexivity |]; split; [intros Hne; contradiction |];
    intros _; split; [reflexivity |]; split; [lia |];
    (split; [rewrite ?Hseen; reflexivity |]); intros Hrange;
    rewrite ?char_at_alter_eq by (rewrite ?length_alter; exact Hrange); lia.
Qed.

Lemma percent_before_mono (a b : Z) :
  0 <= a <= b -> percent_before fmt a <= percent_before fmt b.
Proof.
  intros [Ha Hab].
  replace b with (a + Z.of_nat (Z.to_nat (b - a))) by lia.
  induction (Z.to_nat (b - a)) as [| n IH].
  - replace (a + Z.of_nat 0) with a by lia. lia.
  - replace (a + Z.of_nat (S n)) with (a + Z.of_nat n + 1) by lia.
    rewrite percent_before_succ by lia.
    destruct (_ =? _); lia.
Qed.

(** A ['%'] counts for the positions after it. *)
Lemma percent_before_lt (p i : Z) :
  0 <= p < i -> char_at fmt p = chr "%" ->
  percent_before fmt p < percent_before fmt i.
Proof.
  intros Hp Hc.
  pose proof (percent_before_mono (p + 1) i ltac:(lia)) as Hmono.
  rewrite percent_before_succ, Hc, Z.eqb_refl in Hmono by lia. lia.
Qed.

(** The characters of an accepted conversion are letters. *)
Lemma conversion_letters (p q : Z) :
  conversion_ok fmt p = true ->
  p < q <= p + conv_len fmt p ->
  In (char_at fmt q) (List.map chr ["l"; "d"; "u"; "x"; "p"; "s"]%char).
Proof.
  unfold conversion_ok, conv_len, integer_letter. intros Hok Hq.
  cbn [List.map In].
  destruct (Z.eqb_spec (char_at fmt (p + 1)) (chr "l")) as [Hl1 | Hl1].
  - destruct (Z.eqb_spec (char_at fmt (p + 2)) (chr "l")) as [Hl2 | Hl2].
    + assert (q = p + 1 \/ q = p + 2 \/ q = p + 3) as [-> | [-> | ->]] by lia;
        [auto | auto |].
      apply orb_true_iff in Hok as [Hok | Hok];
        [apply orb_true_iff in Hok as [Hok | Hok] |];
        apply Z.eqb_eq in Hok; auto 8.
    + assert (q = p + 1 \/ q = p + 2) as [-> | ->] by lia; [auto |].
      apply orb_true_iff in Hok as [Hok | Hok];
        [apply orb_true_iff in Hok as [Hok | Hok] |];
        apply Z.eqb_eq in Hok; auto 8.
  - assert (q = p + 1) as -> by lia.
    destruct (Z.eqb_spec (char_at fmt (p + 1)) (chr "p")) as [Hp | Hp];
      [auto 8 |].
    destruct (Z.eqb_spec (char_at fmt (p + 1)) (chr "s")) as [Hs | Hs];
      [auto 8 |].
    cbn [orb] in Hok.
    apply orb_true_iff in Hok as [Hok | Hok];
      [apply orb_true_iff in Hok as [Hok | Hok] |];
      apply Z.eqb_eq in Hok; auto 8.
Qed.

Lemma conv_len_range (p : Z) : 1 <= conv_len fmt p <= 3.
Proof. unfold conv_len. repeat destruct (_ =? _); lia. Qed.

(** One iteration and the [i++] of the loop keep the invariant, and move
    forward. *)
Lemma format_inv_step (st0 st st1 : printk_state) :
  format_inv unsafe_read buf_addr fmt st0 st ->
  printk_body unsafe_read buf_addr fmt st = Ok st1 ->
  format_inv unsafe_read buf_addr fmt st0 (set_i st1 (st_i st1 + 1))
  /\ st_i st < st_i st1 + 1.
Proof.
  intros [Hi Hcnt Hcnt3 Hlen Hzero Hplain Hconv Hunseen Hseen] Hbody.
  pose proof (percent_before_nonneg fmt (st_i st)) as Hpb.
  pose proof (printk_body_conv st) as Hshape. cbn zeta in Hshape.
  rewrite Hbody in Hshape. destruct Hshape as (Hc & Hsame & Hpercent).
  pose proof (printk_body_effect unsafe_read buf_addr fmt st st1 Hi
                ltac:(lia) Hbody)
    as (_ & Hskip & Hcnt1 & Hthree & Hlen1 & Hmod1 & _ & Hstring & Hdata).
  destruct (Z.eq_dec (char_at fmt (st_i st)) (chr "%")) as [Hpc | Hpc].
  - (* a conversion *)
    destruct (Hpercent Hpc) as (Hok & Hi1 & Hseen1 & Hmodk).
    pose proof (conv_len_range (st_i st)) as Hcl.
    rewrite Hpc, Z.eqb_refl in Hcnt1.
    pose proof (Hthree Hpc) as Hlt3.
    assert (Hpb1 : percent_before fmt (st_i st1 + 1) = st_fmt_cnt st + 1).
    { rewrite Hi1.
      replace (st_i st + conv_len fmt (st_i st) + 1)
        with (st_i st + 1 + Z.of_nat (Z.to_nat (conv_len fmt (st_i st))))
        by lia.
      rewrite percent_before_skip; [| lia |].
      - rewrite percent_before_succ, Hpc, Z.eqb_refl by lia. lia.
      - intros p Hp. apply Hskip. lia. }
    split; [| st_simpl; lia].
    split; st_simpl.
    + lia.
    + lia.
    + lia.
    + rewrite Hlen1. exact Hlen.
    + intros m Hm. rewrite Hmod1 by lia. apply Hzero. lia.
    + intros Hletters p Hp.
      destruct (Z.lt_ge_cases p (st_i st)) as [Hlt | Hge];
        [apply Hplain; [exact Hletters | lia] |].
      destruct (Z.eq_dec p (st_i st)) as [-> | Hne]; [exact Hc |].
      apply Hletters, (conversion_letters (st_i st)); [exact Hok | lia].
    + intros p Hp Hpp.
      destruct (Z.lt_ge_cases p (st_i st)) as [Hlt | Hge].
      * destruct (Hconv p ltac:(lia) Hpp) as (Hokp & Hend & Hmodp).
        split; [exact Hokp |]. split; [lia |].
        rewrite Hmod1; [exact Hmodp | apply percent_before_nonneg |].
        pose proof (percent_before_lt p (st_i st) ltac:(lia) Hpp). lia.
      * destruct (Z.eq_dec p (st_i st)) as [-> | Hne].
        -- split; [exact Hok |]. split; [lia |].
           rewrite <- Hcnt, Hmodk by lia.
           rewrite Hzero by lia. lia.
        -- exfalso. apply (Hskip p); [lia | exact Hpp].
    + intros Hfalse. rewrite Hseen1 in Hfalse.
      apply orb_false_iff in Hfalse as [Hold Hnots].
      apply Z.eqb_neq in Hnots.
      destruct (Hunseen Hold) as [Hdata0 Hnone].
      split.
      * apply same_data_set_i. eapply (same_data_trans unsafe_read buf_addr); [exact Hdata0 |].
        apply Hdata. intros [_ Hs]. contradiction.
      * intros p Hp [Hpp Hps].
        destruct (Z.lt_ge_cases p (st_i st)) as [Hlt | Hge];
          [apply (Hnone p); [lia | split; assumption] |].
        destruct (Z.eq_dec p (st_i st)) as [-> | Hne]; [contradiction |].
        apply (Hskip p); [lia | exact Hpp].
    + intros Htrue. rewrite Hseen1 in Htrue.
      destruct (Z.eqb_spec (char_at fmt (st_i st + 1)) (chr "s")) as [Hs | Hs].
      * destruct (Hstring Hpc Hs) as (_ & Hold & _ & Hsub).
        destruct (Hunseen Hold) as [Hdata0 Hnone].
        exists (st_i st). split; [lia |]. split; [split; assumption |].
        split.
        -- intros p Hp [Hpp Hps].
           destruct (Z.lt_ge_cases p (st_i st)) as [Hlt | Hge];
             [exfalso; apply (Hnone p); [lia | split; assumption] |].
           destruct (Z.eq_dec p (st_i st)) as [-> | Hne]; [reflexivity |].
           exfalso. apply (Hskip p); [lia | exact Hpp].
        -- apply string_substituted_set_i. rewrite <- Hcnt.
           eapply string_substituted_before; eassumption.
      * rewrite orb_false_r in Htrue.
        destruct (Hseen Htrue) as (q & Hq & Hsq & Huniq & Hsub).
        exists q. split; [lia |]. split; [exact Hsq |]. split.
        -- intros p Hp [Hpp Hps].
           destruct (Z.lt_ge_cases p (st_i st)) as [Hlt | Hge];
             [apply Huniq; [lia | split; assumption] |].
           destruct (Z.eq_dec p (st_i st)) as [-> | Hne]; [contradiction |].
           exfalso. apply (Hskip p); [lia | exact Hpp].
        -- apply string_substituted_set_i.
           eapply string_substituted_after; [exact Hsub |].
           apply Hdata. intros [_ Hs']. contradiction.
  - (* an ordinary character *)
    rewrite (Hsame Hpc) in *. clear Hsame Hpercent st1 Hbody.
    apply Z.eqb_neq in Hpc as Hpcb.
    split; [| lia].
    split; st_simpl.
    + lia.
    + rewrite percent_before_succ, Hpcb by lia. lia.
    + exact Hcnt3.
    + exact Hlen.
    + exact Hzero.
    + intros Hletters p Hp.
      destruct (Z.eq_dec p (st_i st)) as [-> | Hne]; [exact Hc |].
      apply Hplain; [exact Hletters | lia].
    + intros p Hp Hpp.
      destruct (Z.eq_dec p (st_i st)) as [-> | Hne]; [contradiction |].
      destruct (Hconv p ltac:(lia) Hpp) as (Hokp & Hend & Hmodp).
      split; [exact Hokp |]. split; [lia | exact Hmodp].
    + intros Hfalse. destruct (Hunseen Hfalse) as [Hdata0 Hnone].
      split; [apply same_data_set_i; exact Hdata0 |].
      intros p Hp [Hpp Hps].
      destruct (Z.eq_dec p (st_i st)) as [-> | Hne]; [contradiction |].
      apply (Hnone p); [lia | split; assumption].
    + intros Htrue. destruct (Hseen Htrue) as (q & Hq & Hsq & Huniq & Hsub).
      exists q. split; [lia |]. split; [exact Hsq |]. split.
      * intros p Hp [Hpp Hps].
        destruct (Z.eq_dec p (st_i st)) as [-> | Hne]; [contradiction |].
        apply Huniq; [lia | split; assumption].
      * apply string_substituted_set_i. exact Hsub.
Qed.

End PrintkBody.

Section PrintkLoop.
Context `{Headers}.
Variables (unsafe_read : Z -> option (list Z)) (buf_addr : Z) (fmt : list Z).

Ltac st_simpl :=
  cbn [st_i st_fmt_cnt st_mod st_str_seen st_r3 st_r4 st_r5 st_buf st_probes
       set_i set_fmt_cnt incr_mod] in *.

Lemma format_loop_inv (fmt_size : Z) (st0 : printk_state) (fuel : nat)
    (st st' : printk_state) :
  format_inv unsafe_read buf_addr fmt st0 st ->
  fmt_size - st_i st <= Z.of_nat fuel ->
  printk_loop unsafe_read buf_addr fmt fmt_size fuel st = Ok st' ->
  format_inv unsafe_read buf_addr fmt st0 st' /\ fmt_size <= st_i st'.
Proof.
  revert st. induction fuel as [| fuel IH]; intros st Hinv Hfuel Hloop.
  - cbn in Hloop. injection Hloop as <-. split; [exact Hinv | lia].
  - cbn [printk_loop] in Hloop.
    destruct (Z.ltb_spec (st_i st) fmt_size) as [Hlt | Hge].
    + destruct (printk_body unsafe_read buf_addr fmt st) as [st1 | e] eqn:Hbody;
        [| discriminate].
      destruct (format_inv_step unsafe_read buf_addr fmt st0 st st1 Hinv Hbody)
        as [Hinv1 Hmove].
      apply (IH _ Hinv1); [st_simpl; lia | exact Hloop].
    + injection Hloop as <-. split; [exact Hinv | lia].
Qed.

(** The loop has one error. *)
Lemma printk_loop_err (fmt_size : Z) (fuel : nat) (st : printk_state)
    (e : errno) :
  printk_loop unsafe_read buf_addr fmt fmt_size fuel st = Err e -> e = EINVAL.
Proof.
  revert st. induction fuel as [| fuel IH]; intros st; cbn [printk_loop];
    [discriminate |].
  destruct (st_i st <? fmt_size); [| discriminate].
  pose proof (printk_body_conv unsafe_read buf_addr fmt st) as Hshape.
  cbn zeta in Hshape.
  destruct (printk_body unsafe_read buf_addr fmt st) as [st1 | e1].
  - apply IH.
  - intros [= <-]. apply Hshape.
Qed.

(** A [%s] seen in the loop is one of the format. *)
Lemma printk_loop_seen (fmt_size : Z) (fuel : nat) (st st' : printk_state) :
  printk_loop unsafe_read buf_addr fmt fmt_size fuel st = Ok st' ->
  st_str_seen st' = true ->
  st_str_seen st = true
  \/ exists q, st_i st <= q < fmt_size /\ string_at fmt q.
Proof.
  revert st. induction fuel as [| fuel IH]; intros st; cbn [printk_loop].
  - intros [= <-]. auto.
  - destruct (Z.ltb_spec (st_i st) fmt_size) as [Hlt | Hge];
      [| intros [= <-]; auto].
    pose proof (printk_body_conv unsafe_read buf_addr fmt st) as Hshape.
    cbn zeta in Hshape.
    destruct (printk_body unsafe_read buf_addr fmt st) as [st1 | e1];
      [| discriminate].
    destruct Hshape as (_ & Hsame & Hpercent).
    intros Hloop Hseen'.
    destruct (IH _ Hloop Hseen') as [Hseen1 | (q & Hq & Hsq)]; st_simpl.
    + destruct (Z.eq_dec (char_at fmt (st_i st)) (chr "%")) as [Hpc | Hpc].
      * destruct (Hpercent Hpc) as (_ & _ & Hs & _).
        rewrite Hs in Hseen1.
        apply orb_true_iff in Hseen1 as [Hold | Hs1]; [auto |].
        apply Z.eqb_eq in Hs1. right. exists (st_i st).
        split; [lia | split; assumption].
      * rewrite (Hsame Hpc) in Hseen1. auto.
    + right. exists q. split; [| exact Hsq].
      destruct (Z.eq_dec (char_at fmt (st_i st)) (chr "%")) as [Hpc | Hpc].
      * destruct (Hpercent Hpc) as (_ & Hi1 & _).
        pose proof (conv_len_range fmt (st_i st)). lia.
      * rewrite (Hsame Hpc) in Hq. lia.
Qed.

(** A valid format goes through the loop. *)
Lemma format_loop_complete (fmt_size : Z) (st0 : printk_state) (fuel : nat)
    (st : printk_state) :
  valid_format fmt fmt_size ->
  format_inv unsafe_read buf_addr fmt st0 st ->
  exists st', printk_loop unsafe_read buf_addr fmt fmt_size fuel st = Ok st'.
Proof.
  intros [Hterm Hplain Hconv Hthree Hone].
  revert st. induction fuel as [| fuel IH]; intros st Hinv; cbn [printk_loop].
  - eauto.
  - destruct (Z.ltb_spec (st_i st) fmt_size) as [Hlt | Hge]; [| eauto].
    pose proof (printk_body_conv unsafe_read buf_addr fmt st) as Hshape.
    cbn zeta in Hshape.
    destruct (printk_body unsafe_read buf_addr fmt st) as [st1 | e1] eqn:Hbody.
    + apply IH.
      apply (format_inv_step unsafe_read buf_addr fmt st0 st st1 Hinv Hbody).
    + exfalso. destruct Hinv as [Hi Hcnt _ _ _ _ _ _ Hseen].
      destruct Hshape as (_ & [Hbad | (Hpc & Hbad)]).
      * rewrite Hplain in Hbad by lia. discriminate.
      * destruct Hbad as [Hmany | [Hbad | (Hs & Hold)]].
        -- pose proof (percent_before_mono fmt (st_i st + 1) fmt_size
                         ltac:(lia)) as Hmono.
           rewrite percent_before_succ, Hpc, Z.eqb_refl in Hmono by lia. lia.
        -- rewrite Hconv in Hbad by (lia || assumption). discriminate.
        -- destruct (Hseen Hold) as (q & Hq & Hsq & _).
           assert (st_i st = q)
             by (apply Hone; [lia | lia | split; assumption | exact Hsq]).
           lia.
Qed.

Lemma format_inv_init (buf0 : list Z) (r3 r4 r5 : Z) :
  let st0 := {| st_i := 0; st_fmt_cnt := 0; st_mod := [0; 0; 0];
                st_str_seen := false; st_r3 := r3; st_r4 := r4; st_r5 := r5;
                st_buf := buf0; st_probes := [] |} in
  format_inv unsafe_read buf_addr fmt st0 st0.
Proof.
  intros st0. subst st0. split; st_simpl; try (reflexivity || lia).
  - intros m Hm. unfold char_at.
    destruct (Z.to_nat m) as [| [| [| n]]]; reflexivity.
  - intros _. split; [repeat split; reflexivity | intros p Hp; lia].
Qed.

End PrintkLoop.

Section PrintkFormats.
Context `{Headers}.

(** The call returns what its loop leaves. *)
Lemma trace_printk_ok_inv (unsafe_read : Z -> option (list Z)) (buf_addr : Z)
    (buf0 fmt : list Z) (fmt_size r3 r4 r5 : Z) (call : trace_printk_call) :
  bpf_trace_printk unsafe_read buf_addr buf0 fmt fmt_size r3 r4 r5 = Ok call ->
  let size := u64 (fmt_size - 1) in
  let st0 := {| st_i := 0; st_fmt_cnt := 0; st_mod := [0; 0; 0];
                st_str_seen := false; st_r3 := r3; st_r4 := r4; st_r5 := r5;
                st_buf := buf0; st_probes := [] |} in
  exists st,
    printk_loop unsafe_read buf_addr fmt size (Z.to_nat size) st0 = Ok st
    /\ format_inv unsafe_read buf_addr fmt st0 st
    /\ size <= st_i st
    /\ char_at fmt size = 0
    /\ call = {| tp_ip := 1; tp_fmt := fmt;
                 tp_arg1 := printk_arg (char_at (st_mod st) 0) (st_r3 st);
                 tp_arg2 := printk_arg (char_at (st_mod st) 1) (st_r4 st);
                 tp_arg3 := printk_arg (char_at (st_mod st) 2) (st_r5 st);
                 tp_buf := st_buf st; tp_probes := st_probes st |}.
Proof.
  intros Hcall size st0. unfold bpf_trace_printk in Hcall.
  fold size in Hcall. fold st0 in Hcall.
  destruct (Z.eqb_spec (char_at fmt size) 0) as [Hterm | _];
    cbn [negb] in Hcall; [| discriminate].
  destruct (printk_loop unsafe_read buf_addr fmt size (Z.to_nat size) st0)
    as [st | e] eqn:Hloop; [| discriminate].
  injection Hcall as <-.
  pose proof (u64_range (fmt_size - 1)) as Hsize. fold size in Hsize.
  destruct (format_loop_inv unsafe_read buf_addr fmt size st0 (Z.to_nat size)
              st0 st (format_inv_init unsafe_read buf_addr fmt buf0 r3 r4 r5)
              ltac:(cbn [st_i st0]; lia) Hloop) as [Hinv Hend].
  exists st. auto.
Qed.

(** X15: the formats [bpf_trace_printk] accepts.  The call reaches
    [__trace_printk] exactly when the format ends with a NUL at
    [fmt_size - 1], every character before it is a printable or white-space
    ASCII character, every ['%'] starts one of [%d %u %x %ld %lu %lx %lld
    %llu %llx], or [%p] or [%s] followed by the end of the format, a space
    or a punctuation character, there are at most three ['%'] and at most
    one [%s].  Otherwise it returns -EINVAL; it has no other error.  (The
    letters of the conversions are taken to be printable ASCII characters,
    as they are for the ctype of C.) *)
Theorem trace_printk_accepts (unsafe_read : Z -> option (list Z))
    (buf_addr : Z) (buf0 fmt : list Z) (fmt_size r3 r4 r5 : Z) :
  letters_plain ->
  match bpf_trace_printk unsafe_read buf_addr buf0 fmt fmt_size r3 r4 r5 with
  | Ok _ => valid_format fmt (u64 (fmt_size - 1))
  | Err e => e = EINVAL /\ ~ valid_format fmt (u64 (fmt_size - 1))
  end.
Proof.
  intros Hletters.
  destruct (bpf_trace_printk unsafe_read buf_addr buf0 fmt fmt_size r3 r4 r5)
    as [call | e] eqn:Hcall.
  - destruct (trace_printk_ok_inv _ _ _ _ _ _ _ _ _ Hcall)
      as (st & Hloop & Hinv & Hend & Hterm & _).
    destruct Hinv as [Hi Hcnt Hcnt3 _ _ Hplain Hconv Hunseen Hseen].
    pose proof (u64_range (fmt_size - 1)) as Hsize.
    split.
    + exact Hterm.
    + intros p Hp. apply Hplain; [exact Hletters | lia].
    + intros p Hp Hpp. apply Hconv; [lia | exact Hpp].
    + pose proof (percent_before_mono fmt (u64 (fmt_size - 1)) (st_i st)
                    ltac:(lia)). lia.
    + intros p q Hp Hq Hsp Hsq.
      destruct (st_str_seen st) eqn:Hs.
      * destruct (Hseen eq_refl) as (q0 & _ & _ & Huniq & _).
        rewrite (Huniq p), (Huniq q) by (lia || assumption). reflexivity.
      * destruct (Hunseen eq_refl) as [_ Hnone].
        exfalso. apply (Hnone p); [lia | exact Hsp].
  - unfold bpf_trace_printk in Hcall.
    destruct (Z.eqb_spec (char_at fmt (u64 (fmt_size - 1))) 0) as [Hterm | Hterm];
      cbn [negb] in Hcall.
    + match type of Hcall with
      | match ?loop with _ => _ end = _ =>
          destruct loop as [st | e1] eqn:Hloop; [discriminate |]
      end.
      injection Hcall as <-.
      split; [eapply printk_loop_err; exact Hloop |].
      intros Hvalid.
      destruct (format_loop_complete unsafe_read buf_addr fmt
                  (u64 (fmt_size - 1)) _ (Z.to_nat (u64 (fmt_size - 1))) _
                  Hvalid
                  (format_inv_init unsafe_read buf_addr fmt buf0 r3 r4 r5))
        as [st' Hok].
      cbn zeta in Hok. rewrite Hok in Hloop. discriminate.
    + injection Hcall as <-. split; [reflexivity |].
      intros [Ht _ _ _ _]. contradiction.
Qed.

(** X16: the widths of the arguments.  For a conversion of an accepted
    format other than [%s], the argument passed to [__trace_printk] is the
    register of that conversion (r3, r4, r5 in the order of the ['%']),
    whole for [%p] and for the conversions with [l] or [ll], and reduced to
    its low 32 bits for [%d], [%u] and [%x]. *)
Theorem trace_printk_argument_width (unsafe_read : Z -> option (list Z))
    (buf_addr : Z) (buf0 fmt : list Z) (fmt_size r3 r4 r5 : Z)
    (call : trace_printk_call) (p : Z) :
  bpf_trace_printk unsafe_read buf_addr buf0 fmt fmt_size r3 r4 r5 = Ok call ->
  0 <= r3 < 2 ^ 64 -> 0 <= r4 < 2 ^ 64 -> 0 <= r5 < 2 ^ 64 ->
  0 <= p < u64 (fmt_size - 1) ->
  char_at fmt p = chr "%" ->
  char_at fmt (p + 1) <> chr "s" ->
  let k := percent_before fmt p in
  let r := arg_at k r3 r4 r5 in
  0 <= k <= 2
  /\ arg_at k (tp_arg1 call) (tp_arg2 call) (tp_arg3 call)
     = if integer_letter (char_at fmt (p + 1)) then u32 r else r.
Proof.
  intros Hcall Hr3 Hr4 Hr5 Hp Hpp Hnots k r.
  destruct (trace_printk_ok_inv _ _ _ _ _ _ _ _ _ Hcall)
    as (st & Hloop & Hinv & Hend & Hterm & ->).
  destruct Hinv as [Hi Hcnt Hcnt3 Hlen Hzero _ Hconv Hunseen Hseen].
  destruct (Hconv p ltac:(lia) Hpp) as (Hok & _ & Hmod).
  pose proof (percent_before_nonneg fmt p) as Hk0.
  pose proof (percent_before_lt fmt p (st_i st) ltac:(lia) Hpp) as Hklt.
  fold k in Hmod, Hk0, Hklt.
  assert (Hk : k = 0 \/ k = 1 \/ k = 2) by lia.
  split; [lia |].
  assert (Hreg : arg_at k (st_r3 st) (st_r4 st) (st_r5 st) = r).
  { destruct (st_str_seen st) eqn:Hs.
    - destruct (Hseen eq_refl) as (q & Hq & Hsq & _ & Hsub).
      assert (Hkq : percent_before fmt q <> k).
      { destruct Hsq as [Hqp Hqs].
        destruct (Z.lt_trichotomy p q) as [Hlt | [-> | Hgt]].
        - pose proof (percent_before_lt fmt p q ltac:(lia) Hpp). lia.
        - contradiction.
        - pose proof (percent_before_lt fmt q p ltac:(lia) Hqp).
          subst k. lia. }
      destruct Hsub as [_ H3 H4 H5 _ _]. cbn [st_r3 st_r4 st_r5] in H3, H4, H5.
      subst r. unfold arg_at.
      destruct Hk as [Hk | [Hk | Hk]]; rewrite Hk in *; cbn [Z.eqb].
      + rewrite H3. destruct (Z.eqb_spec (percent_before fmt q) 0);
          [contradiction | reflexivity].
      + rewrite H4. destruct (Z.eqb_spec (percent_before fmt q) 1);
          [contradiction | reflexivity].
      + rewrite H5. destruct (Z.eqb_spec (percent_before fmt q) 2);
          [contradiction | reflexivity].
    - destruct (Hunseen eq_refl) as [(_ & H3 & H4 & H5 & _) _].
      cbn [st_r3 st_r4 st_r5] in H3, H4, H5. rewrite H3, H4, H5.
      reflexivity. }
  cbn [tp_arg1 tp_arg2 tp_arg3].
  assert (Hargs : arg_at k (printk_arg (char_at (st_mod st) 0) (st_r3 st))
                    (printk_arg (char_at (st_mod st) 1) (st_r4 st))
                    (printk_arg (char_at (st_mod st) 2) (st_r5 st))
                  = printk_arg (conv_mod fmt p) r).
  { rewrite <- Hmod, <- Hreg. unfold arg_at.
    destruct Hk as [-> | [-> | ->]]; reflexivity. }
  rewrite Hargs.
  assert (Hr : 0 <= r < 2 ^ 64).
  { subst r. unfold arg_at. repeat destruct (_ =? _); assumption. }
  clear - Hok Hnots Hr.
  unfold conversion_ok in Hok. unfold conv_mod, printk_arg, integer_letter in *.
  destruct (Z.eqb_spec (char_at fmt (p + 1)) (chr "l")) as [Hl | Hl].
  { rewrite Hl. change (chr "l" =? chr "d") with false.
    change (chr "l" =? chr "u") with false.
    change (chr "l" =? chr "x") with false. cbn [orb].
    destruct (char_at fmt (p + 2) =? chr "l"); cbn [Z.eqb];
      [reflexivity | apply pointer_casts; exact Hr]. }
  destruct (Z.eqb_spec (char_at fmt (p + 1)) (chr "p")) as [Hpc | Hpc].
  { rewrite Hpc. change (chr "p" =? chr "d") with false.
    change (chr "p" =? chr "u") with false.
    change (chr "p" =? chr "x") with false. cbn [orb Z.eqb].
    apply pointer_casts; exact Hr. }
  destruct (Z.eqb_spec (char_at fmt (p + 1)) (chr "s")) as [Hs | Hs];
    [contradiction |].
  cbn [orb] in Hok |- *. rewrite Hok. cbn [Z.eqb].
  apply u64_small. pose proof (u32_range r). lia.
Qed.

(** X17: a format without [%s] touches no memory.  When the accepted format
    has no [%s], the call makes no call of [strncpy_from_unsafe] and leaves
    the buffer as it found it. *)
Theorem trace_printk_without_string (unsafe_read : Z -> option (list Z))
    (buf_addr : Z) (buf0 fmt : list Z) (fmt_size r3 r4 r5 : Z)
    (call : trace_printk_call) :
  bpf_trace_printk unsafe_read buf_addr buf0 fmt fmt_size r3 r4 r5 = Ok call ->
  (forall p, 0 <= p < u64 (fmt_size - 1) -> ~ string_at fmt p) ->
  tp_probes call = [] /\ tp_buf call = buf0.
Proof.
  intros Hcall Hnone.
  destruct (trace_printk_ok_inv _ _ _ _ _ _ _ _ _ Hcall)
    as (st & Hloop & Hinv & Hend & Hterm & ->).
  cbn [tp_probes tp_buf].
  destruct (st_str_seen st) eqn:Hs.
  - destruct (printk_loop_seen _ _ _ _ _ _ _ Hloop Hs)
      as [Hfalse | (q & Hq & Hsq)]; [discriminate |].
    cbn [st_i] in Hq. exfalso. apply (Hnone q); assumption.
  - destruct Hinv as [_ _ _ _ _ _ _ Hunseen _].
    destruct (Hunseen Hs) as [(_ & _ & _ & _ & Hbuf & Hprobes) _].
    cbn [st_buf st_probes] in Hbuf, Hprobes. auto.
Qed.

End PrintkFormats.

(** * Further properties of the tracing helpers *)

Section NestedFiring.
Context {bpf_prog_array bpf_prog context : Type}.
Implicit Types (run : bpf_prog_array -> context -> Z * list bpf_prog).

(** X18: no program runs inside another on one cpu.  Outside NMI context
    [trace_call_bpf] runs the programs exactly when [bpf_prog_active] is 0
    on entry, and it returns their value; the cpu is then in a state in
    which any further firing, whatever its program array, is filtered out:
    it returns 0, runs nothing and leaves that state as it is. *)
Theorem trace_call_bpf_no_nesting run run'
    (prog_array prog_array' : bpf_prog_array) (ctx ctx' : context)
    (cpu : cpu_state) :
  - 2 ^ 31 <= bpf_prog_active cpu < 2 ^ 31 ->
  let r := trace_call_bpf run false prog_array ctx cpu in
  match running_state false cpu with
  | Some running =>
      bpf_prog_active cpu = 0
      /\ (ret_value r, programs_run r) = run prog_array ctx
      /\ bpf_prog_active running = 1
      /\ preempt_count running = preempt_count cpu + 1
      /\ let nested := trace_call_bpf run' false prog_array' ctx' running in
         ret_value nested = 0 /\ programs_run nested = []
         /\ cpu_after nested = running
  | None =>
      bpf_prog_active cpu <> 0 /\ ret_value r = 0 /\ programs_run r = []
  end.
Proof.
  intros Hint r. subst r. unfold running_state, trace_call_bpf.
  cbn [preempt_disable set_bpf_prog_active bpf_prog_active preempt_count].
  destruct (Z.eqb_spec (int32 (bpf_prog_active cpu + 1)) 1) as [Hone | Hone];
    cbn [negb].
  - pose proof (proj1 (int32_succ_is_one _ Hint) Hone) as Hzero.
    split; [exact Hzero |].
    split; [destruct (run prog_array ctx); reflexivity |].
    unfold set_bpf_prog_active, preempt_disable, preempt_enable.
    cbn [bpf_prog_active preempt_count]. rewrite Hone.
    split; [reflexivity |]. split; [reflexivity |].
    change (int32 (1 + 1) =? 1) with false.
    cbn [negb ret_value programs_run cpu_after bpf_prog_active preempt_count].
    split; [reflexivity |]. split; [reflexivity |].
    change (int32 (int32 (1 + 1) - 1)) with 1. f_equal. lia.
  - split; [| cbn; auto].
    intros Hzero. apply Hone. apply (int32_succ_is_one _ Hint). exact Hzero.
Qed.

End NestedFiring.

Section PerfEventRead.
Context `{Headers}.
Variables (PERF_TYPE_HARDWARE PERF_TYPE_RAW : Z).

(** X19: [bpf_perf_event_read] reads a counter only when the index is below
    [max_entries], the slot holds an event, the event is on the cpu the
    helper runs on, its pmu has no [count] method and its type is hardware
    or raw; it then returns what [perf_event_read_local] gives for that
    event.  In every other case it reads no counter and returns -E2BIG (the
    index is too large), -ENOENT (the slot is empty) or -EINVAL. *)
Theorem perf_event_read_checks (smp_processor_id : Z)
    (pmu_count : perf_event -> bool) (perf_event_read_local : perf_event -> Z)
    (array : bpf_array) (index : Z) :
  let r := bpf_perf_event_read PERF_TYPE_HARDWARE PERF_TYPE_RAW
             smp_processor_id pmu_count perf_event_read_local array index in
  (forall v, fst r = Ok v ->
     index < array_max_entries array
     /\ exists file,
          slot array index = Some file
          /\ oncpu (private_data file) = smp_processor_id
          /\ pmu_count (private_data file) = false
          /\ (attr_type (private_data file) = PERF_TYPE_HARDWARE
              \/ attr_type (private_data file) = PERF_TYPE_RAW)
          /\ v = perf_event_read_local (private_data file)
          /\ snd r = [private_data file])
  /\ (forall e, fst r = Err e ->
        snd r = []
        /\ (e = E2BIG <-> array_max_entries array <= index)
        /\ (e = ENOENT <->
            index < array_max_entries array /\ slot array index = None)
        /\ (e = E2BIG \/ e = ENOENT \/ e = EINVAL)).
Proof.
  intros r. subst r. unfold bpf_perf_event_read, slot.
  destruct (Z.leb_spec (array_max_entries array) index) as [Hbig | Hin].
  { cbn [fst snd]. split; [discriminate |]. intros e [= <-].
    split; [reflexivity |]. split; [tauto |].
    split; [| auto]. split; [discriminate | lia]. }
  destruct (ptrs array !! Z.to_nat index) as [[file |] |].
  2, 3: cbn [fst snd]; (split; [discriminate |]); intros e [= <-];
    (split; [reflexivity |]); (split; [split; [discriminate | lia] |]);
    (split; [tauto | auto]).
  destruct (Z.eqb_spec (oncpu (private_data file)) smp_processor_id)
    as [Hcpu | Hcpu]; cbn [negb orb].
  2: { cbn [fst snd]. split; [discriminate |]. intros e [= <-].
       split; [reflexivity |]. split; [split; [discriminate | lia] |].
       split; [| auto]. split; [discriminate |]. intros [_ Hnone].
       discriminate. }
  destruct (pmu_count (private_data file)) eqn:Hpmu.
  { cbn [fst snd]. split; [discriminate |]. intros e [= <-].
    split; [reflexivity |]. split; [split; [discriminate | lia] |].
    split; [| auto]. split; [discriminate |]. intros [_ Hnone].
    discriminate. }
  destruct (Z.eqb_spec (attr_type (private_data file)) PERF_TYPE_HARDWARE)
    as [Hhw | Hhw];
    destruct (Z.eqb_spec (attr_type (private_data file)) PERF_TYPE_RAW)
      as [Hraw | Hraw]; cbn [negb andb fst snd].
  4: { split; [discriminate |]. intros e [= <-].
       split; [reflexivity |]. split; [split; [discriminate | lia] |].
       split; [| auto]. split; [discriminate |]. intros [_ Hnone].
       discriminate. }
  all: split; [| discriminate]; intros v [= <-]; split; [exact Hin |];
    exists file; auto 10.
Qed.

(** X20: the two helpers on perf events serve different kinds of events.
    The type that [bpf_perf_event_output] asks for being neither of the two
    that [bpf_perf_event_read] asks for, no slot of an array is accepted by
    both: where one returns a value the other returns -EINVAL. *)
Theorem perf_event_read_output_disjoint (smp_processor_id : Z)
    (pmu_count : perf_event -> bool) (perf_event_read_local : perf_event -> Z)
    (r1 r4 size : Z) (array : bpf_array) (index : Z) :
  PERF_TYPE_SOFTWARE <> PERF_TYPE_HARDWARE ->
  PERF_TYPE_SOFTWARE <> PERF_TYPE_RAW ->
  let read := bpf_perf_event_read PERF_TYPE_HARDWARE PERF_TYPE_RAW
                smp_processor_id pmu_count perf_event_read_local array index in
  let output := bpf_perf_event_output smp_processor_id r1 array index r4 size in
  (forall v, fst read = Ok v -> output = (Err EINVAL, []))
  /\ (forall v, fst output = Ok v -> read = (Err EINVAL, [])).
Proof.
  intros Hhw Hraw read output. subst read output.
  unfold bpf_perf_event_read, bpf_perf_event_output.
  destruct (array_max_entries array <=? index);
    [split; intros v; discriminate |].
  destruct (ptrs array !! Z.to_nat index) as [[file |] |];
    [| split; intros v; discriminate ..].
  destruct (Z.eqb_spec (attr_type (private_data file)) PERF_TYPE_SOFTWARE)
    as [Hsw | Hsw]; cbn [negb orb].
  - rewrite Hsw.
    destruct (Z.eqb_spec PERF_TYPE_SOFTWARE PERF_TYPE_HARDWARE);
      [contradiction |].
    destruct (Z.eqb_spec PERF_TYPE_SOFTWARE PERF_TYPE_RAW); [contradiction |].
    cbn [negb andb].
    destruct (negb (oncpu (private_data file) =? smp_processor_id)
              || pmu_count (private_data file));
      (split; [intros v; discriminate | intros v _; reflexivity]).
  - split; [intros v _; reflexivity | intros v; discriminate].
Qed.

End PerfEventRead.

Section CtxAccess.
Variables (BPF_READ : Z).


(** X22: what [pe_prog_is_valid_access] lets through.  Whatever the field,
    an access it accepts is a read of 8 bytes at a non-negative offset that
    is a multiple of 8; when [sizeof(struct bpf_perf_event_data)] is a
    multiple of 8 the bytes read all lie inside the structure. *)
Theorem pe_access_in_bounds
    (sizeof_data offsetof_sample_period off size type : Z) :
  pe_prog_is_valid_access sizeof_data offsetof_sample_period BPF_READ
    off size type = Some true ->
  type = BPF_READ /\ size = 8 /\ off mod 8 = 0 /\ 0 <= off < sizeof_data
  /\ (sizeof_data mod 8 = 0 -> off + size <= sizeof_data).
Proof.
  unfold pe_prog_is_valid_access.
  destruct (Z.ltb_spec off 0); [discriminate |].
  destruct (Z.leb_spec sizeof_data off); [discriminate |].
  cbn [orb].
  destruct (Z.eqb_spec type BPF_READ); [| discriminate]. cbn [negb].
  destruct (Z.eqb_spec size 0); [discriminate |].
  destruct (Z.eqb_spec (Z.rem off size) 0) as [Hrem |]; [| discriminate].
  cbn [negb].
  intros Hok.
  assert (Hs : size = 8).
  { destruct (off =? offsetof_sample_period), (Z.eqb_spec size 8);
      cbn [negb] in Hok; (assumption || discriminate). }
  subst size. rewrite Z.rem_mod_nonneg in Hrem by lia.
  split; [assumption |]. split; [reflexivity |]. split; [assumption |].
  split; [lia |]. intros Hdiv.
  apply Z.mod_divide in Hrem; [| lia]. apply Z.mod_divide in Hdiv; [| lia].
  destruct Hrem as [a ->]. destruct Hdiv as [b ->]. lia.
Qed.

End CtxAccess.

Section AttachProperties.
Context {bpf_prog bpf_prog_array : Type}.
Variable bpf_prog_array_copy :
  bpf_prog_array -> option bpf_prog -> option bpf_prog
  -> ret (Z * bpf_prog_array).
Variable bpf_prog_array_delete_safe :
  bpf_prog_array -> bpf_prog -> bpf_prog_array.

(** X23: an event holds one program at a time.  Once
    [perf_event_attach_bpf_prog] has succeeded, the event has the program,
    and attaching any program to it fails with -EEXIST without a copy of
    the array or any change; [perf_event_detach_bpf_prog] then takes the
    program off the event and puts it once, whether or not the copy of the
    array succeeds, and a second detach changes nothing and puts nothing. *)
Theorem attach_is_exclusive (event event1 : @event_state bpf_prog bpf_prog_array)
    (prog prog' : bpf_prog) (r : Z) (es : list attach_effect) :
  perf_event_attach_bpf_prog bpf_prog_array_copy event prog
  = (Ok r, event1, es) ->
  let detached :=
    perf_event_detach_bpf_prog bpf_prog_array_copy bpf_prog_array_delete_safe
      event1 in
  ev_prog event = None
  /\ ev_prog event1 = Some prog
  /\ perf_event_attach_bpf_prog bpf_prog_array_copy event1 prog'
     = (Err EEXIST, event1, [MutexLock; MutexUnlock])
  /\ ev_prog (fst detached) = None
  /\ progs_put (snd detached) = [prog]
  /\ perf_event_detach_bpf_prog bpf_prog_array_copy
       bpf_prog_array_delete_safe (fst detached)
     = (fst detached, [MutexLock; MutexUnlock]).
Proof.
  intros Hattach detached. subst detached. revert Hattach.
  unfold perf_event_attach_bpf_prog.
  destruct (ev_prog event) as [p |] eqn:Hprog; [discriminate |].
  destruct (bpf_prog_array_copy (ev_prog_array event) None (Some prog))
    as [[r0 new_array] | e]; [| discriminate].
  intros [= <- <- <-]. cbn [ev_prog ev_prog_array].
  split; [reflexivity |]. split; [reflexivity |]. split; [reflexivity |].
  unfold perf_event_detach_bpf_prog. cbn [ev_prog ev_prog_array].
  destruct (bpf_prog_array_copy new_array (Some prog) None)
    as [[r1 new_array1] | e]; cbn; auto.
Qed.

(** X24: programs and the mutex over any sequence of attachments and
    detachments of an event.  The programs whose attachment succeeded are,
    in order, the programs that were put followed by the one the event
    still has: each is put at most once, none is put that was not attached,
    and none is lost.  The mutex is taken and released in turn, free at the
    end, and every call on the program array and every put happens while it
    is held. *)
Theorem attach_detach_sequence (ops : list attach_op)
    (event : @event_state bpf_prog bpf_prog_array) :
  match run_attach_ops bpf_prog_array_copy bpf_prog_array_delete_safe event ops with
  | (event', attached, es) =>
      option_list (ev_prog event) ++ attached
      = progs_put es ++ option_list (ev_prog event')
      /\ mutex_after false es = Some false
  end.
Proof.
  revert event. induction ops as [| [prog |] ops IH]; intros event;
    cbn [run_attach_ops].
  - cbn. rewrite app_nil_r. auto.
  - unfold perf_event_attach_bpf_prog.
    destruct (ev_prog event) as [p |] eqn:Hprog.
    + specialize (IH event).
      destruct (run_attach_ops bpf_prog_array_copy bpf_prog_array_delete_safe event ops) as [[event' attached] es'].
      rewrite Hprog in IH. destruct IH as [Hput Hmutex].
      split; [exact Hput | exact Hmutex].
    + destruct (bpf_prog_array_copy (ev_prog_array event) None (Some prog))
        as [[r new_array] | e].
      * specialize (IH {| ev_prog := Some prog; ev_prog_array := new_array |}).
        destruct (run_attach_ops bpf_prog_array_copy bpf_prog_array_delete_safe _ ops) as [[event' attached] es'].
        cbn [ev_prog] in IH. destruct IH as [Hput Hmutex].
        split; [exact Hput | exact Hmutex].
      * specialize (IH event).
        destruct (run_attach_ops bpf_prog_array_copy bpf_prog_array_delete_safe event ops) as [[event' attached] es'].
        rewrite Hprog in IH. destruct IH as [Hput Hmutex].
        split; [exact Hput | exact Hmutex].
  - unfold perf_event_detach_bpf_prog.
    destruct (ev_prog event) as [p |] eqn:Hprog.
    + destruct (bpf_prog_array_copy (ev_prog_array event) (Some p) None)
        as [[r new_array] | e].
      * specialize (IH {| ev_prog := None; ev_prog_array := new_array |}).
        destruct (run_attach_ops bpf_prog_array_copy bpf_prog_array_delete_safe _ ops) as [[event' attached] es'].
        cbn [ev_prog option_list app] in IH. destruct IH as [Hput Hmutex].
        split; [cbn; f_equal; exact Hput | exact Hmutex].
      * specialize (IH {| ev_prog := None;
                          ev_prog_array :=
                            bpf_prog_array_delete_safe (ev_prog_array event) p |}).
        destruct (run_attach_ops bpf_prog_array_copy bpf_prog_array_delete_safe _ ops) as [[event' attached] es'].
        cbn [ev_prog option_list app] in IH. destruct IH as [Hput Hmutex].
        split; [cbn; f_equal; exact Hput | exact Hmutex].
    + specialize (IH event).
      destruct (run_attach_ops bpf_prog_array_copy bpf_prog_array_delete_safe event ops) as [[event' attached] es'].
      rewrite Hprog in IH. destruct IH as [Hput Hmutex].
      split; [exact Hput | exact Hmutex].
Qed.

End AttachProperties.

(** * The further properties at concrete inputs *)

Lemma example_empty_padded : entries_padded Example.empty_smap.
Proof.
  intros id b. unfold bucket_at. cbn [Example.empty_smap buckets].
  destruct (Z.to_nat id) as [| [| [| [| n]]]]; discriminate.
Defined.

Lemma example_capture_wf (frames : list Z) (flags : Z) :
  (length frames <= 8)%nat ->
  forall trace,
    Example.capture frames (@init_nr Example.headers Example.empty_smap)
      (negb (@user Example.headers flags)) (@user Example.headers flags)
    = Some trace ->
    @entry_wf Example.headers (@init_nr Example.headers Example.empty_smap)
      trace.
Proof. intros Hlen trace [= <-]. apply example_entry_wf. exact Hlen. Defined.

Lemma example_letters_plain : @letters_plain Example.headers.
Proof.
  intros c Hc. cbn [List.map In] in Hc.
  destruct Hc as [<- | [<- | [<- | [<- | [<- | [<- | []]]]]]]; reflexivity.
Defined.

(** The trace [11; 22; 33] stored in the empty example map: index 2, which
    a lookup then finds. *)
Lemma get_stackid_index_occupied_witness :
  0 <= 2 < n_buckets Example.empty_smap
  /\ exists ips,
       stack_map_lookup_elem
         (smap_after
            (@bpf_get_stackid Example.headers (Example.capture [11; 22; 33])
               true Example.empty_smap 0)) 2 = Some ips.
Proof.
  apply (@get_stackid_index_occupied Example.headers
           (Example.capture [11; 22; 33]) true Example.empty_smap 0 2).
  - exact example_smap_wf.
  - reflexivity.
Defined.

(** The same call without memory: -ENOMEM, and the map is still empty. *)
Lemma get_stackid_error_changes_nothing_witness :
  let r := @bpf_get_stackid Example.headers (Example.capture [11; 22; 33])
             false Example.empty_smap 0 in
  smap_after r = Example.empty_smap
  /\ stored_by (effects r) = [] /\ freed_by (effects r) = []
  /\ (ENOMEM = EINVAL \/ ENOMEM = EFAULT \/ ENOMEM = EEXIST \/ ENOMEM = ENOMEM).
Proof.
  apply (@get_stackid_error_changes_nothing Example.headers
           (Example.capture [11; 22; 33]) false Example.empty_smap 0 ENOMEM).
  reflexivity.
Defined.

(** Storing [11; 22; 37] over [11; 22; 33] in bucket 2 leaves bucket 1 as
    it is. *)
Lemma get_stackid_other_keys_witness :
  let r := @bpf_get_stackid Example.headers (Example.capture [11; 22; 37])
             true Example.one_entry_smap 1024 in
  stack_map_lookup_elem (smap_after r) 1
  = stack_map_lookup_elem Example.one_entry_smap 1
  /\ map (smap_after r) = map Example.one_entry_smap
  /\ n_buckets (smap_after r) = n_buckets Example.one_entry_smap.
Proof.
  apply (@get_stackid_other_keys Example.headers
           (Example.capture [11; 22; 37]) true Example.one_entry_smap 1024 1).
  vm_compute. discriminate.
Defined.

(** [11; 22; 33] stored in the empty map and looked up: the three frames and
    five zeros. *)
Lemma get_stackid_then_lookup_witness :
  exists trace,
    Example.capture [11; 22; 33] (@init_nr Example.headers Example.empty_smap)
      (negb (@user Example.headers 0)) (@user Example.headers 0) = Some trace
    /\ let kept := entry_nr trace - @init_nr Example.headers Example.empty_smap
                   - @skip Example.headers 0 in
       1 <= kept <= value_size (map Example.empty_smap) / 8
       /\ stack_map_lookup_elem
            (smap_after
               (@bpf_get_stackid Example.headers
                  (Example.capture [11; 22; 33]) true Example.empty_smap 0)) 2
          = Some (take (Z.to_nat kept)
                       (drop (Z.to_nat (@skip Example.headers 0
                                        + @init_nr Example.headers
                                            Example.empty_smap))
                             (entry_ip trace))
                  ++ replicate
                       (Z.to_nat (value_size (map Example.empty_smap) / 8
                                  - kept)) 0).
Proof.
  apply (@get_stackid_then_lookup Example.headers
           (Example.capture [11; 22; 33]) true Example.empty_smap 0 2).
  - exact example_smap_wf.
  - exact example_empty_padded.
  - apply example_capture_wf. vm_compute. lia.
  - reflexivity.
  - reflexivity.
Defined.

(** With the fast-compare bit, [33; 22; 11], whose digest is that of
    [11; 22; 33], is taken for the stored trace. *)
Lemma get_stackid_fast_compare_witness :
  @bpf_get_stackid Example.headers (Example.capture [33; 22; 11]) true
    Example.one_entry_smap 512
  = {| returned := Ok 2; smap_after := Example.one_entry_smap;
       effects := [GetPerfCallchain 119 true false] |}
  /\ stack_map_lookup_elem Example.one_entry_smap 2
     = Some [11; 22; 33; 0; 0; 0; 0; 0].
Proof.
  apply (@get_stackid_fast_compare Example.headers
           (Example.capture [33; 22; 11]) true Example.one_entry_smap 512
           (Example.entry_of [33; 22; 11] 119) Scenario.entry_11_22_33).
  - exact example_one_entry_wf.
  - reflexivity.
  - reflexivity.
  - vm_compute. reflexivity.
  - vm_compute. discriminate.
  - reflexivity.
  - reflexivity.
Defined.

(** [11; 22; 33] stored, then captured again under one more frame that the
    call skips, with no memory left: the same index. *)
Lemma get_stackid_same_frames_witness :
  let smap1 :=
    smap_after
      (@bpf_get_stackid Example.headers (Example.capture [11; 22; 33]) true
         Example.empty_smap 0) in
  @bpf_get_stackid Example.headers (Example.capture [99; 11; 22; 33]) false
    smap1 1
  = {| returned := Ok 2; smap_after := smap1;
       effects := [@capture_call Example.headers Example.empty_smap 1] |}.
Proof.
  apply (@get_stackid_same_frames Example.headers
           (Example.capture [11; 22; 33]) (Example.capture [99; 11; 22; 33])
           true false Example.empty_smap 0 1 2
           (Example.entry_of [11; 22; 33] 119)
           (Example.entry_of [99; 11; 22; 33] 119)).
  - exact example_smap_wf.
  - reflexivity.
  - reflexivity.
  - reflexivity.
  - apply example_entry_wf. vm_compute. lia.
  - reflexivity.
  - reflexivity.
  - apply example_entry_wf. vm_compute. lia.
  - vm_compute. reflexivity.
  - reflexivity.
Defined.

(** Tearing down the map that holds [11; 22; 33]. *)
Lemma stack_map_free_releases_witness :
  stack_map_free Example.one_entry_smap
  = [SynchronizeRcu; KfreeRcuBucket Scenario.entry_11_22_33; Kvfree;
     PutCallchainBuffers].
Proof.
  apply (@stack_map_free_releases Example.headers Example.one_entry_smap).
  - exact example_one_entry_wf.
  - reflexivity.
Defined.

(** Over the three calls of the scenario, two entries are stored and both
    are freed before the teardown. *)
Lemma entries_stored_are_freed_witness :
  Permutation
    (stored_by (snd (@run_ops Example.headers Example.empty_smap Scenario.ops)))
    (freed_by (snd (@run_ops Example.headers Example.empty_smap Scenario.ops))
     ++ freed_at_teardown
          (stack_map_free
             (fst (@run_ops Example.headers Example.empty_smap Scenario.ops)))).
Proof.
  apply (@entries_stored_are_freed Example.headers true true true None
           Example.attr Example.empty_smap Scenario.ops).
  - exact example_headers_sane.
  - exact example_attr_wf.
  - vm_compute. discriminate.
  - reflexivity.
Defined.

Lemma scenario_ops_wf :
  Forall (@op_captures_wf Example.headers Example.empty_smap)
    [GetStackid (Example.capture [11; 22; 33]) true 0].
Proof.
  constructor; [| constructor]. cbn [op_captures_wf].
  apply example_capture_wf. vm_compute. lia.
Defined.

(** The entry of [11; 22; 33] after creation and one call. *)
Lemma reachable_entries_shape_witness :
  let b := Scenario.entry_11_22_33 in
  Z.of_nat (length (ip b)) * 8 = attr_value_size Example.attr
  /\ 0 <= nr b <= attr_value_size Example.attr / 8
  /\ drop (Z.to_nat (nr b)) (ip b)
     = replicate (Z.to_nat (attr_value_size Example.attr / 8 - nr b)) 0
  /\ hash b = u32 (@jhash2 Example.headers
                     (u32_words (take (Z.to_nat (nr b)) (ip b)))
                     (u32 (nr b * 8) / 4) 0)
  /\ 2 = Z.land (hash b) (n_buckets Example.empty_smap - 1).
Proof.
  apply (@reachable_entries_shape Example.headers true true true None
           Example.attr Example.empty_smap
           [GetStackid (Example.capture [11; 22; 33]) true 0] 2
           Scenario.entry_11_22_33).
  - exact example_headers_sane.
  - exact example_attr_wf.
  - reflexivity.
  - exact scenario_ops_wf.
  - cbn [Example.empty_smap n_buckets]. lia.
  - reflexivity.
Defined.

Lemma reachable_entries_distinct_witness : 2 = 2.
Proof.
  apply (@reachable_entries_distinct Example.headers true true true None
           Example.attr Example.empty_smap
           [GetStackid (Example.capture [11; 22; 33]) true 0] 2 2
           Scenario.entry_11_22_33 Scenario.entry_11_22_33).
  - exact example_headers_sane.
  - exact example_attr_wf.
  - reflexivity.
  - exact scenario_ops_wf.
  - cbn [Example.empty_smap n_buckets]. lia.
  - cbn [Example.empty_smap n_buckets]. lia.
  - reflexivity.
  - reflexivity.
  - reflexivity.
  - reflexivity.
Defined.

(** [11; 22; 33] stored, deleted, and captured again. *)
Lemma get_stackid_after_delete_witness :
  let smap1 :=
    smap_after
      (@bpf_get_stackid Example.headers (Example.capture [11; 22; 33]) true
         Example.empty_smap 0) in
  let smap2 := snd (fst (stack_map_delete_elem smap1 2)) in
  fst (fst (stack_map_delete_elem smap1 2)) = Ok tt
  /\ (exists b, freed_by (snd (stack_map_delete_elem smap1 2)) = [b])
  /\ returned
       (@bpf_get_stackid Example.headers (Example.capture [11; 22; 33]) false
          smap2 0) = Err ENOMEM
  /\ returned
       (@bpf_get_stackid Example.headers (Example.capture [11; 22; 33]) true
          smap2 0) = Ok 2
  /\ (exists b,
        stored_by
          (effects
             (@bpf_get_stackid Example.headers (Example.capture [11; 22; 33])
                true smap2 0)) = [b])
  /\ freed_by
       (effects
          (@bpf_get_stackid Example.headers (Example.capture [11; 22; 33])
             true smap2 0)) = [].
Proof.
  apply (@get_stackid_after_delete Example.headers
           (Example.capture [11; 22; 33]) true Example.empty_smap 0 2).
  - exact example_smap_wf.
  - reflexivity.
Defined.

(** Creation from the example request succeeds for a capable caller with
    memory; it gives -EPERM without the capability. *)
Lemma stack_map_alloc_outcome_witness :
  (exists smap,
     @stack_map_alloc Example.headers true true true None Example.attr
     = Ok smap)
  /\ @stack_map_alloc Example.headers false true true None Example.attr
     = Err EPERM.
Proof.
  split.
  - destruct (@stack_map_alloc_outcome Example.headers true true true None
                Example.attr example_attr_wf) as [[_ Hcreated] _].
    apply Hcreated.
    split; [reflexivity |]. split; [split; crunch |].
    split; [crunch |]. split; [crunch |]. split; reflexivity.
  - destruct (@stack_map_alloc_outcome Example.headers false true true None
                Example.attr example_attr_wf) as (_ & Hperm & _).
    apply Hperm. reflexivity.
Defined.

(** ["%d %s"] is a valid format. *)
Lemma trace_printk_accepts_witness :
  @valid_format Example.headers Example.fmt_d_s (u64 (6 - 1)).
Proof.
  exact (@trace_printk_accepts Example.headers (fun _ => None) 1000
           Example.stack_garbage Example.fmt_d_s 6 100 200 300
           example_letters_plain).
Defined.

(** ["%d"] with [2 ^ 32 + 5] in r3: the argument passed is 5. *)
Lemma trace_printk_argument_width_witness :
  exists call,
    @bpf_trace_printk Example.headers (fun _ => None) 1000
      Example.stack_garbage Scenario.fmt_d 3 (2 ^ 32 + 5) 200 300 = Ok call
    /\ tp_arg1 call = 5.
Proof.
  exists {| tp_ip := 1; tp_fmt := Scenario.fmt_d; tp_arg1 := 5;
            tp_arg2 := 200; tp_arg3 := 300; tp_buf := Example.stack_garbage;
            tp_probes := [] |}.
  split; [reflexivity |].
  destruct (@trace_printk_argument_width Example.headers (fun _ => None) 1000
              Example.stack_garbage Scenario.fmt_d 3 (2 ^ 32 + 5) 200 300
              {| tp_ip := 1; tp_fmt := Scenario.fmt_d; tp_arg1 := 5;
                 tp_arg2 := 200; tp_arg3 := 300;
                 tp_buf := Example.stack_garbage; tp_probes := [] |} 0)
    as [_ Harg].
  - reflexivity.
  - lia.
  - lia.
  - lia.
  - change (u64 (3 - 1)) with 2. lia.
  - reflexivity.
  - vm_compute. discriminate.
  - exact Harg.
Defined.

(** ["%d"] has no [%s]: nothing is read and the buffer is left alone. *)
Lemma trace_printk_without_string_witness :
  exists call,
    @bpf_trace_printk Example.headers (fun _ => None) 1000
      Example.stack_garbage Scenario.fmt_d 3 100 200 300 = Ok call
    /\ tp_probes call = [] /\ tp_buf call = Example.stack_garbage.
Proof.
  exists {| tp_ip := 1; tp_fmt := Scenario.fmt_d; tp_arg1 := 100;
            tp_arg2 := 200; tp_arg3 := 300; tp_buf := Example.stack_garbage;
            tp_probes := [] |}.
  split; [reflexivity |].
  apply (@trace_printk_without_string Example.headers (fun _ => None) 1000
           Example.stack_garbage Scenario.fmt_d 3 100 200 300).
  - reflexivity.
  - intros p Hp [Hpercent Hs]. change (u64 (3 - 1)) with 2 in Hp.
    assert (p = 0 \/ p = 1) as [-> | ->] by lia;
      vm_compute in Hpercent, Hs; discriminate.
Defined.

(** A firing on the idle cpu runs program 7; a firing during that run does
    not run program 8. *)
Lemma trace_call_bpf_no_nesting_witness :
  let running := {| bpf_prog_active := 1; preempt_count := 1 |} in
  let nested := trace_call_bpf Example.run_all false [8%nat] tt running in
  programs_run (trace_call_bpf Example.run_all false [7%nat] tt Example.idle_cpu)
  = [7%nat]
  /\ ret_value nested = 0 /\ programs_run nested = []
  /\ cpu_after nested = running.
Proof.
  pose proof (trace_call_bpf_no_nesting Example.run_all Example.run_all
                [7%nat] [8%nat] tt tt Example.idle_cpu ltac:(cbn; lia))
    as Hcall.
  cbn zeta in Hcall.
  change (running_state false Example.idle_cpu)
    with (Some {| bpf_prog_active := 1; preempt_count := 1 |}) in Hcall.
  destruct Hcall as (_ & Hrun & _ & _ & Hnested).
  split; [| exact Hnested].
  change (Example.run_all [7%nat] tt) with (1, [7%nat]) in Hrun.
  congruence.
Defined.

(** Slot 1 of the example array holds a [bpf_output] event, which
    [bpf_perf_event_output] accepts: [bpf_perf_event_read] refuses it. *)
Lemma perf_event_read_output_disjoint_witness :
  bpf_perf_event_read Scenario.PERF_TYPE_HARDWARE Scenario.PERF_TYPE_RAW 0
    (fun _ => false) (fun _ => 42) Example.event_array 1
  = (Err EINVAL, []).
Proof.
  destruct (@perf_event_read_output_disjoint Example.headers
              Scenario.PERF_TYPE_HARDWARE Scenario.PERF_TYPE_RAW 0
              (fun _ => false) (fun _ => 42) 77 4096 8 Example.event_array 1)
    as [_ Hread].
  - vm_compute. discriminate.
  - vm_compute. discriminate.
  - apply (Hread 0). reflexivity.
Defined.


(** A read of [sample_period]. *)
Lemma pe_access_in_bounds_witness :
  1 = Scenario.BPF_READ /\ 8 = 8 /\ 336 mod 8 = 0
  /\ 0 <= 336 < Scenario.sizeof_bpf_perf_event_data
  /\ (Scenario.sizeof_bpf_perf_event_data mod 8 = 0 ->
      336 + 8 <= Scenario.sizeof_bpf_perf_event_data).
Proof.
  apply (pe_access_in_bounds Scenario.BPF_READ
           Scenario.sizeof_bpf_perf_event_data Scenario.offsetof_sample_period
           336 8 1).
  reflexivity.
Defined.

(** Program 7 attached to a free event: program 8 cannot be attached, and
    detaching puts program 7. *)
Lemma attach_is_exclusive_witness :
  perf_event_attach_bpf_prog Scenario.array_copy Scenario.event_with_7 8%nat
  = (Err EEXIST, Scenario.event_with_7, [MutexLock; MutexUnlock])
  /\ progs_put
       (snd (perf_event_detach_bpf_prog Scenario.array_copy
               Scenario.array_delete_safe Scenario.event_with_7))
     = [7%nat].
Proof.
  destruct (attach_is_exclusive Scenario.array_copy Scenario.array_delete_safe
              Scenario.free_event Scenario.event_with_7 7%nat 8%nat 0
              [MutexLock; ProgArrayCopy [] None (Some 7%nat);
               ProgArrayFree []; MutexUnlock])
    as (_ & _ & Hattach & _ & Hput & _).
  - reflexivity.
  - split; [exact Hattach | exact Hput].
Defined.
